(** * discord/scheduled_event.py: the scheduled-event proxy and its
      subscriber paginator

    A shallow embedding of [ScheduledEvent] (construction and hydration
    from a payload, [from_creation], the [channel] accessor, [edit] and its
    shorthands [start], [end] and [cancel], the [users] paginator and the
    two cache mutators).  Python objects live in a heap and are addressed by
    reference; an instance is the finite map of the slots that are set;
    exceptions are values of a result type and do not roll the state back. *)

From stdpp Require Import gmap strings list fin_maps sorting.
From Stdlib Require Import ZArith Lia Ascii.

Open Scope string_scope.
Open Scope list_scope.
Open Scope Z_scope.

(** ** Values *)

(** Decoded JSON as it occurs in scheduled-event payloads: [None], integers,
    strings and nested objects. *)
#[warnings="-register-all"]
Inductive Json :=
| JNull
| JInt (z : Z)
| JStr (s : string)
| JObj (o : gmap string Json).

(** [datetime.datetime]: the wall-clock reading and the attached zone
    ([None] for a naive datetime). *)
Record datetime := { wall : Z; tzinfo : option Z }.

(** A member of one of the enumerations of [enums.py], or the stand-in that
    [try_enum] builds for a raw code the enumeration does not know. *)
Inductive EnumValue :=
| Member (cls name : string) (code : Z)
| Unknown (cls : string) (raw : Json).

(** [object.Object]: a bare snowflake. *)
Record Object := { oid : Z }.

Record User := { user_id : Z; user_data : gmap string Json }.

Record Channel := { channel_key : Z; channel_name : string }.

Abbreviation loc := nat.

(** What a slot, an argument or a local variable can hold. *)
#[warnings="-register-all"]
Inductive Value :=
| VMissing                              (* utils.MISSING *)
| VData (j : Json)                      (* None, int, str, dict *)
| VEnum (e : EnumValue)
| VDatetime (d : datetime)
| VObject (o : Object)
| VUser (u : User)
| VChannel (c : Channel)
| VGuild (channels : gmap Z Channel)    (* a guild and its channel registry *)
| VState                                (* the ConnectionState *)
| VRef (l : loc)                        (* a reference into the heap *)
| VDict (d : gmap string Value)         (* a dict built as a local value *)
| VBound (name : string).               (* a method or property of the class *)

Abbreviation VNone := (VData JNull).

Inductive Exception :=
| AttributeError (name : string)
| KeyError (key : Json)
| TypeError (msg : string)
| ValueError (msg : string)
| Forbidden
| HTTPException (status : Z).

Inductive Result (A : Type) :=
| Ok (a : A)
| Raise (e : Exception).
Arguments Ok {A} a.
Arguments Raise {A} e.

(** Truth value testing.  [MISSING] defines [__bool__] as false; enum
    members are two-field named tuples and every other object here has the
    default truth value. *)
Definition json_truthy (j : Json) : bool :=
  match j with
  | JNull => false
  | JInt z => negb (z =? 0)%Z
  | JStr s => negb (String.eqb s "")
  | JObj o => negb (bool_decide (dom o = ∅))
  end.

Definition truthy (v : Value) : bool :=
  match v with
  | VMissing => false
  | VData j => json_truthy j
  | VDict d => negb (bool_decide (dom d = ∅))
  | _ => true
  end.

(** ** Builtins *)

Definition is_digit (c : ascii) : bool :=
  let n := nat_of_ascii c in ((48 <=? n) && (n <=? 57))%nat.

(** The blanks [int] skips around a numeral: space, tab, line feed,
    vertical tab, form feed and carriage return. *)
Definition is_space (c : ascii) : bool :=
  let n := nat_of_ascii c in (((9 <=? n) && (n <=? 13)) || (n =? 32))%nat.

Fixpoint lstrip (s : string) : string :=
  match s with
  | String c r => if is_space c then lstrip r else s
  | EmptyString => s
  end.

Fixpoint all_space (s : string) : bool :=
  match s with
  | EmptyString => true
  | String c r => is_space c && all_space r
  end.

(** A run of decimal digits, single underscores between digits allowed,
    followed by blanks only; [after_digit] says that the character before
    was a digit. *)
Fixpoint digits (acc : Z) (after_digit : bool) (s : string) : option Z :=
  match s with
  | EmptyString => if after_digit then Some acc else None
  | String c r =>
      if is_digit c
      then digits (10 * acc + (Z.of_nat (nat_of_ascii c) - 48)) true r
      else if after_digit then
        if Ascii.eqb c "_" then digits acc false r
        else if all_space s then Some acc else None
      else None
  end.

(** [int(x)] on decoded JSON: an integer is itself; a string is read as
    Python reads it in base 10: blanks around, an optional sign, decimal
    digits with single underscores between them.  (Strings are byte
    strings here: digits and blanks outside ASCII are not recognised.) *)
Definition int (j : Json) : Result Z :=
  match j with
  | JInt z => Ok z
  | JStr s =>
      let numeral :=
        match lstrip s with
        | String "-" r => Z.opp <$> digits 0 false r
        | String "+" r => digits 0 false r
        | r => digits 0 false r
        end in
      match numeral with
      | Some z => Ok z
      | None => Raise (ValueError "invalid literal for int()")
      end
  | _ => Raise (TypeError "int() argument must be a string or a number")
  end.

(** [data[key]] and [data.get(key, default)] on a payload. *)
Definition getitem (data : gmap string Json) (key : string) : Result Json :=
  match data !! key with
  | Some j => Ok j
  | None => Raise (KeyError (JStr key))
  end.

Definition get (data : gmap string Json) (key : string) (dflt : Json) : Json :=
  default dflt (data !! key).

(** ** enums.py *)

(** Modelled from the spec: enums.py is not under src/.  An enumeration is
    its table of members; the three tables carry the members the source
    names, with the codes of the service's API. *)
Record EnumClass := { cls_name : string; members : list (string * Z) }.

Definition EntityType : EnumClass :=
  {| cls_name := "EntityType";
     members := [("stage_instance", 1); ("voice", 2); ("external", 3)] |}.

Definition PrivacyLevel : EnumClass :=
  {| cls_name := "PrivacyLevel"; members := [("guild_only", 2)] |}.

Definition EventStatus : EnumClass :=
  {| cls_name := "EventStatus";
     members := [("scheduled", 1); ("active", 2); ("completed", 3);
                 ("cancelled", 4)] |}.

Definition member (c : EnumClass) (name : string) (code : Z) : EnumValue :=
  Member (cls_name c) name code.

(** Modelled from the spec: [try_enum] never fails; a code of the
    enumeration gives its member, any other raw value a stand-in that keeps
    the value. *)
Definition try_enum (c : EnumClass) (val : Json) : EnumValue :=
  match val with
  | JInt z =>
      match List.find (fun m => (snd m =? z)%Z) (members c) with
      | Some (n, code) => Member (cls_name c) n code
      | None => Unknown (cls_name c) val
      end
  | _ => Unknown (cls_name c) val
  end.

(** The [value] attribute of an enum value. *)
Definition enum_value (e : EnumValue) : Json :=
  match e with
  | Member _ _ code => JInt code
  | Unknown _ raw => raw
  end.

Definition enum_cls (e : EnumValue) : string :=
  match e with
  | Member c _ _ => c
  | Unknown c _ => c
  end.

(** [isinstance(v, cls)] for an enumeration [cls]. *)
Definition isinstance (v : Value) (c : EnumClass) : bool :=
  match v with
  | VEnum e => String.eqb (enum_cls e) (cls_name c)
  | _ => false
  end.

(** [v == m] for a member [m]: enum values compare as (name, value)
    tuples. *)
Definition eq_member (v : Value) (m : EnumValue) : bool :=
  match v, m with
  | VEnum (Member _ n z), Member _ n' z' => String.eqb n n' && (z =? z')%Z
  | _, _ => false
  end.

(** ** The heap, the connection state and the transport *)

Inductive Cell :=
| Instance (slots : gmap string Value)  (* a ScheduledEvent: its set slots *)
| Dict (d : gmap Z Value).              (* a Dict[int, User] *)

(** The keyword through which a batch request passes its boundary. *)
Inductive Cursor :=
| before_kw (id : option Z)
| after_kw (id : option Z).

(** A call that reached the transport, as a spy would record it. *)
Inductive Request :=
| edit_scheduled_event (guild_id event_id : Value)
    (payload : gmap string Value) (reason : Value)
| get_scheduled_event_users (guild_id event_id : Value)
    (limit : Z) (with_member : bool) (cursor : Cursor).

(** [heap]: the objects; [_users_cache]: the user cache of the connection
    state; [remote]: the state of the service behind the transport;
    [http_log]: the calls made so far, oldest first. *)
Record World (T : Type) := {
  heap : list Cell;
  _users_cache : gmap Z User;
  remote : T;
  http_log : list Request;
}.
Arguments heap {T} w.
Arguments _users_cache {T} w.
Arguments remote {T} w.
Arguments http_log {T} w.

(** What the file calls and does not define: the two transport routes, the
    datetime methods of the standard library, and [utils._bytes_to_base64_data]. *)
Record Collaborators (T : Type) := {
  http_edit : Value -> Value -> gmap string Value -> Value -> T ->
              Result (gmap string Json) * T;
  http_get_users : Value -> Value -> Z -> bool -> Cursor -> T ->
                   Result (list Json) * T;
  isoformat : datetime -> string;
  fromisoformat : string -> Result datetime;
  _bytes_to_base64_data : Value -> Result string;
}.
Arguments http_edit {T} c.
Arguments http_get_users {T} c.
Arguments isoformat {T} c.
Arguments fromisoformat {T} c.
Arguments _bytes_to_base64_data {T} c.

(** A computation reads and writes the world and returns or raises; what it
    wrote before raising stays written. *)
Definition Py (T A : Type) : Type := World T -> Result A * World T.

Definition ret {T A} (a : A) : Py T A := fun w => (Ok a, w).

Definition raise {T A} (e : Exception) : Py T A := fun w => (Raise e, w).

Definition bind {T A B} (m : Py T A) (k : A -> Py T B) : Py T B :=
  fun w => match m w with
           | (Ok a, w') => k a w'
           | (Raise e, w') => (Raise e, w')
           end.

Definition lift {T A} (r : Result A) : Py T A := fun w => (r, w).

Notation "x <- m ;; k" := (bind m (fun x => k))
  (at level 100, m at next level, right associativity).
Notation "m ;; k" := (bind m (fun _ => k))
  (at level 100, right associativity).

(** ** The class *)

Definition __slots__ : list string :=
  [ "_state"; "_users"; "id"; "guild_id"; "name"; "description";
    "entity_type"; "entity_id"; "start_time"; "end_time"; "privacy_level";
    "status"; "_cover_image"; "user_count"; "creator"; "channel_id";
    "location" ].

(** The names the class body binds: its methods and properties. *)
Definition class_namespace : list string :=
  [ "__init__"; "_update"; "_unroll_metadata"; "from_creation"; "__repr__";
    "cover_image"; "channel"; "start"; "end"; "cancel"; "edit"; "delete";
    "users"; "_add_user"; "_pop_user" ].

(** Modelled from the spec: mixins.py is not under src/.  [Hashable] is the
    only base class; it gives equality and hashing by [id] and declares no
    slot. *)
Definition Hashable_namespace : list string :=
  [ "__eq__"; "__ne__"; "__hash__" ].

Section Methods.
Context {T : Type} (env : Collaborators T).

Definition alloc (c : Cell) : Py T loc :=
  fun w => (Ok (length (heap w)),
            {| heap := heap w ++ [c]; _users_cache := _users_cache w;
               remote := remote w; http_log := http_log w |}).

(** [self.name]: a slot that is set, else a name of the class or of its
    base; there is no instance dictionary and no [__getattr__]. *)
Definition getattr (self : loc) (name : string) : Py T Value :=
  fun w =>
    match heap w !! self with
    | Some (Instance slots) =>
        if bool_decide (name ∈ __slots__) then
          match slots !! name with
          | Some v => (Ok v, w)
          | None => (Raise (AttributeError name), w)
          end
        else if bool_decide (name ∈ (class_namespace ++ Hashable_namespace)%list)
        then (Ok (VBound name), w)
        else (Raise (AttributeError name), w)
    | _ => (Raise (AttributeError name), w)
    end.

(** [self.name = v]: only a declared slot can be assigned. *)
Definition setattr (self : loc) (name : string) (v : Value) : Py T unit :=
  fun w =>
    match heap w !! self with
    | Some (Instance slots) =>
        if bool_decide (name ∈ __slots__) then
          (Ok tt,
           {| heap := <[self := Instance (<[name := v]> slots)]> (heap w);
              _users_cache := _users_cache w;
              remote := remote w; http_log := http_log w |})
        else (Raise (AttributeError name), w)
    | _ => (Raise (AttributeError name), w)
    end.

(** [d[k] = v] on a reference to a dict. *)
Definition dict_setitem (d : Value) (k : Z) (v : Value) : Py T unit :=
  fun w =>
    match d with
    | VRef l =>
        match heap w !! l with
        | Some (Dict m) =>
            (Ok tt,
             {| heap := <[l := Dict (<[k := v]> m)]> (heap w);
                _users_cache := _users_cache w;
                remote := remote w; http_log := http_log w |})
        | _ => (Raise (TypeError "object does not support item assignment"), w)
        end
    | _ => (Raise (TypeError "object does not support item assignment"), w)
    end.

(** [d.pop(k)] with no default: the value is removed and returned, a
    missing key raises [KeyError]. *)
Definition dict_pop (d : Value) (k : Z) : Py T Value :=
  fun w =>
    match d with
    | VRef l =>
        match heap w !! l with
        | Some (Dict m) =>
            match m !! k with
            | Some v =>
                (Ok v,
                 {| heap := <[l := Dict (delete k m)]> (heap w);
                    _users_cache := _users_cache w;
                    remote := remote w; http_log := http_log w |})
            | None => (Raise (KeyError (JInt k)), w)
            end
        | _ => (Raise (AttributeError "pop"), w)
        end
    | _ => (Raise (AttributeError "pop"), w)
    end.

(** [v.id] for the values that satisfy the [Snowflake] protocol. *)
Definition attr_id (v : Value) : Py T Value :=
  match v with
  | VObject o => ret (VData (JInt (oid o)))
  | VUser u => ret (VData (JInt (user_id u)))
  | VChannel c => ret (VData (JInt (channel_key c)))
  | VRef l => getattr l "id"
  | _ => raise (AttributeError "id")
  end.

(** Modelled from the spec: state.py is not under src/.  [store_user]
    resolves a raw user through the cache keyed by user id: the cached user
    when there is one, else a new user that is cached and returned. *)
Definition store_user (data : Json) : Py T Value :=
  match data with
  | JObj o =>
      raw <- lift (getitem o "id") ;;
      uid <- lift (int raw) ;;
      fun w =>
        match _users_cache w !! uid with
        | Some u => (Ok (VUser u), w)
        | None =>
            let u := {| user_id := uid; user_data := o |} in
            (Ok (VUser u),
             {| heap := heap w; _users_cache := <[uid := u]> (_users_cache w);
                remote := remote w; http_log := http_log w |})
        end
  | _ => raise (TypeError "object is not subscriptable")
  end.

(** Modelled from the spec: utils.py is not under src/.  [parse_time] reads
    an ISO-8601 string and maps an absent value to [None]. *)
Definition parse_time (timestamp : Json) : Py T Value :=
  if json_truthy timestamp then
    match timestamp with
    | JStr s => d <- lift (fromisoformat env s) ;; ret (VDatetime d)
    | _ => raise (TypeError "fromisoformat: argument must be str")
    end
  else ret VNone.

(** Modelled from the spec: utils.py is not under src/.  [_get_as_snowflake]
    gives [None] for an absent or null key and the id as an integer
    otherwise. *)
Definition _get_as_snowflake (data : gmap string Json) (key : string)
  : Py T Value :=
  match data !! key with
  | None => ret VNone
  | Some value =>
      if json_truthy value then i <- lift (int value) ;; ret (VData (JInt i))
      else ret (VData value)
  end.

End Methods.

(** The keyword arguments of [edit]; each defaults to [MISSING], [reason]
    to [None]. *)
Module Kw.
Record t := {
  name : Value;
  description : Value;
  channel : Value;
  start_time : Value;
  end_time : Value;
  privacy_level : Value;
  entity_type : Value;
  status : Value;
  image : Value;
  location : Value;
  reason : Value;
}.

Definition none : t :=
  {| name := VMissing; description := VMissing; channel := VMissing;
     start_time := VMissing; end_time := VMissing; privacy_level := VMissing;
     entity_type := VMissing; status := VMissing; image := VMissing;
     location := VMissing; reason := VNone |}.
End Kw.

Definition is_missing (v : Value) : bool :=
  match v with VMissing => true | _ => false end.

Definition is_none (v : Value) : bool :=
  match v with VData JNull => true | _ => false end.

Definition start_time_naive : string :=
  "start_time must be an aware datetime. Consider using discord.utils.utcnow() or datetime.datetime.now().astimezone() for local time.".

Definition end_time_naive : string :=
  "end_time must be an aware datetime. Consider using discord.utils.utcnow() or datetime.datetime.now().astimezone() for local time.".

Section ScheduledEvent.
Context {T : Type} (env : Collaborators T).

Definition _unroll_metadata (self : loc) (data : Json) : Py T unit :=
  match data with
  | JObj o => setattr self "location" (VData (get o "location" JNull))
  | _ => raise (AttributeError "get")
  end.

Definition _update (self : loc) (data : gmap string Json) : Py T unit :=
  v <- lift (getitem data "id") ;; i <- lift (int v) ;;
  setattr self "id" (VData (JInt i)) ;;
  v <- lift (getitem data "guild_id") ;; i <- lift (int v) ;;
  setattr self "guild_id" (VData (JInt i)) ;;
  v <- lift (getitem data "name") ;;
  setattr self "name" (VData v) ;;
  setattr self "description" (VData (get data "description" (JStr ""))) ;;
  v <- lift (getitem data "entity_type") ;;
  setattr self "entity_type" (VEnum (try_enum EntityType v)) ;;
  v <- lift (getitem data "id") ;; i <- lift (int v) ;;
  setattr self "entity_id" (VData (JInt i)) ;;
  v <- lift (getitem data "scheduled_start_time") ;; t <- parse_time env v ;;
  setattr self "start_time" t ;;
  v <- lift (getitem data "status") ;;
  setattr self "privacy_level" (VEnum (try_enum PrivacyLevel v)) ;;
  v <- lift (getitem data "status") ;;
  setattr self "status" (VEnum (try_enum EventStatus v)) ;;
  v <- lift (getitem data "image") ;;
  setattr self "_cover_image" (VData v) ;;
  setattr self "user_count" (VData (get data "user_count" (JInt 0))) ;;
  let creator := get data "creator" JNull in
  c <- (if json_truthy creator
        then (getattr self "_state" ;; store_user creator)
        else ret VNone) ;;
  setattr self "creator" c ;;
  t <- parse_time env (get data "scheduled_end_time" JNull) ;;
  setattr self "end_time" t ;;
  c <- _get_as_snowflake data "channel_id" ;;
  setattr self "channel_id" c ;;
  let metadata := get data "metadata" JNull in
  if json_truthy metadata then _unroll_metadata self metadata else ret tt.

Definition __init__ (self : loc) (data : gmap string Json) : Py T unit :=
  setattr self "_state" VState ;;
  d <- alloc (Dict ∅) ;;
  setattr self "_users" (VRef d) ;;
  _update self data.

(** [ScheduledEvent(state=..., data=...)]: a new instance with no slot
    set, then [__init__]. *)
Definition ScheduledEvent (data : gmap string Json) : Py T loc :=
  self <- alloc (Instance ∅) ;;
  __init__ self data ;;
  ret self.

(** Modelled from the spec: guild.py is not under src/.  [get_channel] is
    the registry lookup [lookup_channel(channel_id) -> channel | null]. *)
Definition get_channel (guild : Value) : Py T (Value -> Value) :=
  match guild with
  | VGuild channels =>
      ret (fun channel_id =>
             match channel_id with
             | VData (JInt i) => from_option VChannel VNone (channels !! i)
             | _ => VNone
             end)
  | _ => raise (AttributeError "get_channel")
  end.

Definition channel (self : loc) : Py T Value :=
  guild <- getattr self "guild" ;;
  lookup <- get_channel guild ;;
  channel_id <- getattr self "channel_id" ;;
  ret (lookup channel_id).

Definition attr_tzinfo (v : Value) : Py T (option Z) :=
  match v with
  | VDatetime d => ret (tzinfo d)
  | _ => raise (AttributeError "tzinfo")
  end.

Definition call_isoformat (v : Value) : Py T Value :=
  match v with
  | VDatetime d => ret (VData (JStr (isoformat env d)))
  | _ => raise (AttributeError "isoformat")
  end.

Definition attr_value (v : Value) : Py T Value :=
  match v with
  | VEnum e => ret (VData (enum_value e))
  | _ => raise (AttributeError "value")
  end.

(** The enum-valued arguments share one shape: the type test, then the raw
    code goes into the payload. *)
Definition enum_argument (key : string) (v : Value) (c : EnumClass)
    (msg : string) (payload : gmap string Value)
  : Py T (gmap string Value) :=
  if is_missing v then ret payload
  else if negb (isinstance v c) then raise (TypeError msg)
  else code <- attr_value v ;; ret (<[key := code]> payload).

(** The body of [edit] up to the transport call: the
    payload is built and every argument is checked. *)
Definition edit_payload (self : loc) (a : Kw.t) : Py T (gmap string Value) :=
  let payload : gmap string Value := ∅ in
  let metadata : gmap string Value := ∅ in
  let payload :=
    if is_missing (Kw.name a) then payload
    else <["name" := Kw.name a]> payload in
  payload <-
    (if is_missing (Kw.start_time a) then ret payload
     else
       tz <- attr_tzinfo (Kw.start_time a) ;;
       match tz with
       | None => raise (ValueError start_time_naive)
       | Some _ =>
           s <- call_isoformat (Kw.start_time a) ;;
           ret (<["scheduled_start_time" := s]> payload)
       end) ;;
  let payload :=
    if is_missing (Kw.description a) then payload
    else <["description" := Kw.description a]> payload in
  payload <- enum_argument "privacy_level" (Kw.privacy_level a) PrivacyLevel
               "privacy_level must be of type PrivacyLevel." payload ;;
  payload <- enum_argument "status" (Kw.status a) EventStatus
               "status must be of type EventStatus" payload ;;
  payload <-
    (if is_missing (Kw.image a) then ret payload
     else
       image_as_str <- lift (_bytes_to_base64_data env (Kw.image a)) ;;
       ret (<["image" := VData (JStr image_as_str)]> payload)) ;;
  payload <- enum_argument "entity_type" (Kw.entity_type a) EntityType
               "entity_type must be of type EntityType" payload ;;
  _entity_type <-
    (if truthy (Kw.entity_type a) then ret (Kw.entity_type a)
     else getattr self "entity_type") ;;
  checked <-
    (if eq_member _entity_type (member EntityType "stage_instance" 1)
        || eq_member _entity_type (member EntityType "voice" 2)
     then
       if is_missing (Kw.channel a) || is_none (Kw.channel a)
       then raise (TypeError
              "channel must be set when entity_type is voice or stage_instance")
       else
         channel_id <- attr_id (Kw.channel a) ;;
         let payload := <["channel_id" := channel_id]> payload in
         if negb (is_missing (Kw.location a))
         then raise (TypeError
                "location cannot be set when entity_type is voice or stage_instance")
         else ret (payload, metadata)
     else
       if negb (is_missing (Kw.channel a))
       then raise (TypeError "channel cannot be set when entity_type is external")
       else if is_missing (Kw.location a) || is_none (Kw.location a)
       then raise (TypeError "location must be set when entity_type is external")
       else
         let metadata := <["location" := Kw.location a]> metadata in
         if is_missing (Kw.end_time a)
         then raise (TypeError "end_time must be set when entity_type is external")
         else
           tz <- attr_tzinfo (Kw.end_time a) ;;
           match tz with
           | None => raise (ValueError end_time_naive)
           | Some _ =>
               s <- call_isoformat (Kw.end_time a) ;;
               ret (<["scheduled_end_time" := s]> payload, metadata)
           end) ;;
  let '(payload, metadata) := checked in
  let payload :=
    if truthy (VDict metadata) then <["entity_metadata" := VDict metadata]> payload
    else payload in
  ret payload.

(** The transport call of [edit]: it is recorded, then answered by the
    service. *)
Definition call_edit_scheduled_event (guild_id event_id : Value)
    (payload : gmap string Value) (reason : Value)
  : Py T (gmap string Json) :=
  fun w =>
    let '(r, t) := http_edit env guild_id event_id payload reason (remote w) in
    (r, {| heap := heap w; _users_cache := _users_cache w; remote := t;
           http_log := http_log w ++
                       [edit_scheduled_event guild_id event_id payload reason] |}).

Definition edit (self : loc) (a : Kw.t) : Py T loc :=
  payload <- edit_payload self a ;;
  getattr self "_state" ;;
  guild_id <- getattr self "guild_id" ;;
  event_id <- getattr self "id" ;;
  data <- call_edit_scheduled_event guild_id event_id payload (Kw.reason a) ;;
  getattr self "_state" ;;
  s <- ScheduledEvent data ;;
  _users <- getattr self "_users" ;;
  setattr s "_users" _users ;;
  ret s.

Definition _add_user (self : loc) (user : User) : Py T unit :=
  _users <- getattr self "_users" ;;
  dict_setitem _users (user_id user) (VUser user).

Definition _pop_user (self : loc) (user_id : Z) : Py T unit :=
  _users <- getattr self "_users" ;;
  dict_pop _users user_id ;;
  ret tt.

End ScheduledEvent.

(** ** The shorthands and the alternative constructor *)

(** [v is m] for a member [m]: the members of an enumeration are single
    objects, and what [try_enum] builds for an unknown code is none of
    them. *)
Definition is_member (v : Value) (m : EnumValue) : bool :=
  match v, m with
  | VEnum (Member c n z), Member c' n' z' =>
      String.eqb c c' && String.eqb n n' && (z =? z')%Z
  | _, _ => false
  end.

(** [edit(status=..., reason=...)]. *)
Definition status_only (status reason : Value) : Kw.t :=
  {| Kw.name := VMissing; Kw.description := VMissing; Kw.channel := VMissing;
     Kw.start_time := VMissing; Kw.end_time := VMissing;
     Kw.privacy_level := VMissing; Kw.entity_type := VMissing;
     Kw.status := status; Kw.image := VMissing; Kw.location := VMissing;
     Kw.reason := reason |}.

Section Shorthands.
Context {T : Type} (env : Collaborators T).

Definition start (self : loc) (reason : Value) : Py T loc :=
  status <- getattr self "status" ;;
  if negb (is_member status (member EventStatus "scheduled" 1))
  then raise (ValueError "This scheduled event is already running.")
  else edit env self (status_only (VEnum (member EventStatus "active" 2)) reason).

(** [end]; [EventStatus.ended] is the member of code 3. *)
Definition end_ (self : loc) (reason : Value) : Py T loc :=
  status <- getattr self "status" ;;
  if negb (is_member status (member EventStatus "active" 2))
  then raise (ValueError "This scheduled event is not active.")
  else edit env self (status_only (VEnum (member EventStatus "completed" 3)) reason).

Definition cancel (self : loc) (reason : Value) : Py T loc :=
  status <- getattr self "status" ;;
  if negb (is_member status (member EventStatus "scheduled" 1))
  then raise (ValueError "This scheduled event is already running.")
  else edit env self (status_only (VEnum (member EventStatus "cancelled" 4)) reason).

(** Modelled from the spec: state.py is not under src/.  [get_user] is the
    lookup in the user cache, [None] on a miss. *)
Definition get_user (id : Z) : Py T Value :=
  fun w => (Ok (from_option VUser VNone (_users_cache w !! id)), w).

(** The class method [from_creation]; its body ends without a [return]. *)
Definition from_creation (data : gmap string Json) : Py T Value :=
  let creator_id := get data "creator_id" JNull in
  self <- ScheduledEvent env data ;;
  (if json_truthy creator_id
   then getattr self "_state" ;;
        i <- lift (int creator_id) ;;
        creator <- get_user i ;;
        setattr self "creator" creator
   else ret tt) ;;
  ret VNone.

End Shorthands.

(** ** The subscriber paginator *)

(** How a traversal stopped: the generator returned, an exception left it,
    or the model's step budget ran out before either. *)
Inductive Outcome :=
| Exhausted
| Raised (e : Exception)
| OutOfFuel.

(** Modelled from the spec: object.py is not under src/.  [Object(id=x)]
    casts [x] with [int] and reports a failed cast as [TypeError];
    [OLDEST_OBJECT] is the snowflake 0. *)
Definition new_Object (x : Json) : Result Object :=
  match int x with
  | Ok i => Ok {| oid := i |}
  | Raise (ValueError _) =>
      Raise (TypeError "id parameter must be convertable to int")
  | Raise e => Raise e
  end.

Definition OLDEST_OBJECT : Object := {| oid := 0 |}.

(** [u['user']] and [u['user']['id']] on a raw subscriber record. *)
Definition subscript (j : Json) (key : string) : Result Json :=
  match j with
  | JObj o => getitem o key
  | _ => Raise (TypeError "object is not subscriptable")
  end.

Definition raw_user_id (u : Json) : Result Json :=
  match subscript u "user" with
  | Ok user => subscript user "id"
  | Raise e => Raise e
  end.

(** [x < b] and [x > b] for a raw id [x] and an integer [b]: ordering is
    defined between integers only. *)
Definition lt_int (x : Json) (b : Z) : Result bool :=
  match x with
  | JInt a => Ok (a <? b)%Z
  | _ => Raise (TypeError "'<' not supported between these instances")
  end.

Definition gt_int (x : Json) (b : Z) : Result bool :=
  match x with
  | JInt a => Ok (b <? a)%Z
  | _ => Raise (TypeError "'>' not supported between these instances")
  end.

(** The client-side filter; [None] when no predicate is installed. *)
Inductive Predicate :=
| id_lt (b : Z)     (* lambda u: u['user']['id'] < before.id *)
| id_gt (a : Z).    (* lambda u: u['user']['id'] > after.id *)

Definition apply_predicate (p : Predicate) (u : Json) : Result bool :=
  match raw_user_id u with
  | Ok x => match p with id_lt b => lt_int x b | id_gt a => gt_int x a end
  | Raise e => Raise e
  end.

Definition choose_predicate (reverse : bool) (before after : option Object)
  : option Predicate :=
  if reverse then
    match before with
    | Some b => Some (id_lt (oid b))
    | None => None
    end
  else
    match after with
    | Some a =>
        if bool_decide (oid a ≠ oid OLDEST_OBJECT) then Some (id_gt (oid a))
        else None
    | None => None
    end.

(** [reverse]: the traversal is forward (oldest first) when [oldest_first]
    says so or, if it is [MISSING], when an [after] boundary is given. *)
Definition direction (oldest_first : option bool) (after : option Object) : bool :=
  match oldest_first with
  | None => bool_decide (after ≠ None)
  | Some b => b
  end.

(** [self.user_count or None], as the integer [min] then needs. *)
Definition default_limit (user_count : Value) : Result (option Z) :=
  if truthy user_count then
    match user_count with
    | VData (JInt n) => Ok (Some n)
    | _ => Raise (TypeError "'<' not supported between these instances")
    end
  else Ok None.

Section Paginator.
Context {T : Type} (env : Collaborators T).

Definition call_get_scheduled_event_users (guild_id event_id : Value)
    (limit : Z) (with_member : bool) (cursor : Cursor)
  : Py T (list Json) :=
  fun w =>
    let '(r, t) :=
      http_get_users env guild_id event_id limit with_member cursor (remote w) in
    (r, {| heap := heap w; _users_cache := _users_cache w; remote := t;
           http_log := http_log w ++
             [get_scheduled_event_users guild_id event_id limit with_member
                cursor] |}).

(** What both strategies do with a batch: the remaining limit goes down by
    its size and the cursor moves to the record at [pick]. *)
Definition advance (users : list Json) (pick : list Json -> option Json)
    (state : option Object) (limit : option Z)
  : Py T (list Json * option Object * option Z) :=
  match pick users with
  | Some u =>
      let limit := (fun l => l - Z.of_nat (length users)) <$> limit in
      x <- lift (raw_user_id u) ;;
      o <- lift (new_Object x) ;;
      ret (users, Some o, limit)
  | None => ret (users, state, limit)
  end.

Definition _before_strategy (self : loc) (retrieve : Z)
    (before : option Object) (limit : option Z)
  : Py T (list Json * option Object * option Z) :=
  let before_id := oid <$> before in
  getattr self "_state" ;;
  guild_id <- getattr self "guild_id" ;;
  event_id <- getattr self "id" ;;
  users <- call_get_scheduled_event_users guild_id event_id retrieve false
             (before_kw before_id) ;;
  advance users last before limit.

Definition _after_strategy (self : loc) (retrieve : Z)
    (after : option Object) (limit : option Z)
  : Py T (list Json * option Object * option Z) :=
  let after_id := oid <$> after in
  getattr self "_state" ;;
  guild_id <- getattr self "guild_id" ;;
  event_id <- getattr self "id" ;;
  users <- call_get_scheduled_event_users guild_id event_id retrieve false
             (after_kw after_id) ;;
  advance users head after limit.

(** The tail of one round: the records of a batch are filtered, resolved
    through the user cache and yielded one at a time; an exception stops the
    round after the users already yielded. *)
Fixpoint emit (self : loc) (predicate : option Predicate) (data : list Json)
  : World T -> (list Value * option Exception) * World T :=
  fun w =>
    match data with
    | [] => (([], None), w)
    | raw_user :: rest =>
        let keep :=
          match predicate with
          | Some p => apply_predicate p raw_user
          | None => Ok true
          end in
        match keep with
        | Raise e => (([], Some e), w)
        | Ok false => emit self predicate rest w
        | Ok true =>
            match (getattr self "_state" ;;
                   user <- lift (subscript raw_user "user") ;;
                   store_user user) w with
            | (Raise e, w') => (([], Some e), w')
            | (Ok user, w') =>
                let '((ys, r), w'') := emit self predicate rest w' in
                ((user :: ys, r), w'')
            end
        end
    end.

(** The [while True] loop; [fuel] bounds the number of rounds. *)
Fixpoint users_loop (fuel : nat) (self : loc) (reverse : bool)
    (predicate : option Predicate) (state : option Object) (limit : option Z)
  : World T -> (list Value * Outcome) * World T :=
  fun w =>
    match fuel with
    | O => (([], OutOfFuel), w)
    | S fuel =>
        let retrieve :=
          Z.min (match limit with None => 100 | Some l => l end) 100 in
        if (retrieve <? 1)%Z then (([], Exhausted), w)
        else
          let strategy := if reverse then _after_strategy else _before_strategy in
          match strategy self retrieve state limit w with
          | (Raise e, w1) => (([], Raised e), w1)
          | (Ok (data, state, limit), w1) =>
              let limit :=
                if (Z.of_nat (length data) <? 100)%Z then Some 0 else limit in
              let data := if reverse then rev data else data in
              match emit self predicate data w1 with
              | ((ys, Some e), w2) => ((ys, Raised e), w2)
              | ((ys, None), w2) =>
                  let '((ys', r), w3) :=
                    users_loop fuel self reverse predicate state limit w2 in
                  ((ys ++ ys', r), w3)
              end
          end
    end.

(** [users(limit=..., before=..., after=..., oldest_first=...)], consumed to
    its end; [oldest_first = None] stands for [MISSING].  The result is the
    users yielded, in order, and how the traversal stopped. *)
Definition users (self : loc) (limit : option Z) (before after : option Object)
    (oldest_first : option bool) (fuel : nat)
  : World T -> (list Value * Outcome) * World T :=
  fun w =>
    let start :=
      match limit with
      | None => user_count <- getattr self "user_count" ;;
                lift (default_limit user_count)
      | Some l => ret (Some l)
      end in
    match start w with
    | (Raise e, w0) => (([], Raised e), w0)
    | (Ok limit, w0) =>
        let reverse := direction oldest_first after in
        let predicate := choose_predicate reverse before after in
        let state := if reverse then after else before in
        users_loop fuel self reverse predicate state limit w0
    end.

End Paginator.

(** * Specification vocabulary

    The assertions the theorems are stated with. *)

(** The slot [name] of the instance at [self], when it is set. *)
Definition slot {T} (w : World T) (self : loc) (name : string) : option Value :=
  match heap w !! self with
  | Some (Instance slots) => slots !! name
  | _ => None
  end.

(** The dict a proxy's [_users] slot refers to. *)
Definition subscribers {T} (w : World T) (self : loc) : option (gmap Z Value) :=
  match slot w self "_users" with
  | Some (VRef d) =>
      match heap w !! d with
      | Some (Dict m) => Some m
      | _ => None
      end
  | _ => None
  end.

(** A triple with a normal and an exceptional postcondition. *)
Definition hoare {T A} (P : World T -> Prop) (m : Py T A)
    (Q : A -> World T -> Prop) (E : World T -> Prop) : Prop :=
  forall w, P w ->
    match m w with
    | (Ok a, w') => Q a w'
    | (Raise _, w') => E w'
    end.

(** A computation that leaves the world as it found it. *)
Definition pure {T A} (m : Py T A) : Prop := forall w, snd (m w) = w.

Definition set_heap {T} (w : World T) (h : list Cell) : World T :=
  {| heap := h; _users_cache := _users_cache w; remote := remote w;
     http_log := http_log w |}.

(** The keys [_update] looks up in a payload. *)
Definition keys_read : list string :=
  [ "id"; "guild_id"; "name"; "description"; "entity_type";
    "scheduled_start_time"; "status"; "image"; "user_count"; "creator";
    "scheduled_end_time"; "channel_id"; "metadata" ].

(** The objects of the heap [h0] are still there, unchanged. *)
Definition framed {T} (h0 : list Cell) (w : World T) : Prop :=
  forall l c, h0 !! l = Some c -> heap w !! l = Some c.

Definition is_instance {T} (w : World T) (self : loc) : Prop :=
  exists slots, heap w !! self = Some (Instance slots).

(** An assertion about the heap alone. *)
Definition heap_assertion {T} (I : World T -> Prop) : Prop :=
  forall w w' : World T, heap w' = heap w -> I w -> I w'.

(** The calls so far and the state of the service are [log] and [t]. *)
Definition quiet_since {T} (log : list Request) (t : T) (w : World T) : Prop :=
  http_log w = log /\ remote w = t.

(** What [edit] does with the reply of the service (its last three
    lines). *)
Definition edit_finish {T} (env : Collaborators T) (self : loc)
    (data : gmap string Json) : Py T loc :=
  getattr self "_state" ;;
  s <- ScheduledEvent env data ;;
  _users <- getattr self "_users" ;;
  setattr s "_users" _users ;;
  ret s.

(** The two slots hydration fills from [data['status']]. *)
Definition mirrors {T} (data : gmap string Json) (self : loc) (w : World T) : Prop :=
  is_Some (data !! "status") /\
  slot w self "privacy_level"
    = Some (VEnum (try_enum PrivacyLevel (get data "status" JNull))) /\
  slot w self "status"
    = Some (VEnum (try_enum EventStatus (get data "status" JNull))).

(** On the proxy [p], [privacy_level] and [status] are both the decoding of
    [data['status']], and both carry that raw code. *)
Definition decoded_from_status {T} (data : gmap string Json) (p : loc)
    (w : World T) : Prop :=
  exists st pl es,
    data !! "status" = Some st /\
    slot w p "privacy_level" = Some (VEnum pl) /\
    slot w p "status" = Some (VEnum es) /\
    pl = try_enum PrivacyLevel st /\ es = try_enum EventStatus st /\
    enum_value pl = st /\ enum_value es = st.

(** A batch request that passes its boundary as [after] (resp. [before]). *)
Definition through_after (r : Request) : Prop :=
  match r with
  | get_scheduled_event_users _ _ _ _ (after_kw _) => True
  | _ => False
  end.

Definition through_before (r : Request) : Prop :=
  match r with
  | get_scheduled_event_users _ _ _ _ (before_kw _) => True
  | _ => False
  end.

Definition through (reverse : bool) (r : Request) : Prop :=
  if reverse then through_after r else through_before r.

(** The keyword and boundary a strategy sends. *)
Definition cursor_of (reverse : bool) (state : option Object) : Cursor :=
  if reverse then after_kw (oid <$> state) else before_kw (oid <$> state).

(** The user cache files every user under its own id. *)
Definition cache_wf {T} (w : World T) : Prop :=
  forall k u, _users_cache w !! k = Some u -> user_id u = k.

(** The strategy of a direction. *)
Definition strategy {T} (env : Collaborators T) (reverse : bool) :=
  if reverse then _after_strategy env else _before_strategy env.

(** What the client-side filter lets through. *)
Definition passes (predicate : option Predicate) (v : Value) : Prop :=
  match predicate with
  | None => True
  | Some (id_lt b) => exists u, v = VUser u /\ user_id u < b
  | Some (id_gt a) => exists u, v = VUser u /\ a < user_id u
  end.

(** The user of a yielded value lies below (resp. above) a bound. *)
Definition id_below (b : Z) (v : Value) : Prop :=
  exists u, v = VUser u /\ user_id u < b.

Definition id_above (a : Z) (v : Value) : Prop :=
  exists u, v = VUser u /\ a < user_id u.

(** A raw record the paginator can read: [u['user']['id']] is there and is
    an integer or its decimal text. *)
Definition is_subscriber (j : Json) : bool :=
  match raw_user_id j with
  | Ok x => match int x with Ok _ => true | Raise _ => false end
  | Raise _ => false
  end.

(** From the state [t] on, the service answers the next batch requests,
    whatever they ask for, with the batches [bs], in this order. *)
Fixpoint serves {T} (env : Collaborators T) (bs : list (list Json)) (t : T)
  : Prop :=
  match bs with
  | [] => True
  | b :: bs' =>
      forall g i n m c, exists t',
        http_get_users env g i n m c t = (Ok b, t') /\ serves env bs' t'
  end.

(** The arguments [a] with [end_time=x]. *)
Definition with_end_time (a : Kw.t) (x : Value) : Kw.t :=
  {| Kw.name := Kw.name a; Kw.description := Kw.description a;
     Kw.channel := Kw.channel a; Kw.start_time := Kw.start_time a;
     Kw.end_time := x; Kw.privacy_level := Kw.privacy_level a;
     Kw.entity_type := Kw.entity_type a; Kw.status := Kw.status a;
     Kw.image := Kw.image a; Kw.location := Kw.location a;
     Kw.reason := Kw.reason a |}.

(** [next] is [prev] with, at most, the key [key] rebound. *)
Definition adds (key : string) (prev next : gmap string Value) : Prop :=
  forall k, k <> key -> next !! k = prev !! k.

(** The branch of [edit] on the effective entity type, by itself. *)
Definition entity_branch {T} (env : Collaborators T) (a : Kw.t)
    (_entity_type : Value) (payload metadata : gmap string Value)
  : Py T (gmap string Value * gmap string Value) :=
  if eq_member _entity_type (member EntityType "stage_instance" 1)
     || eq_member _entity_type (member EntityType "voice" 2)
  then
    if is_missing (Kw.channel a) || is_none (Kw.channel a)
    then raise (TypeError
           "channel must be set when entity_type is voice or stage_instance")
    else
      channel_id <- attr_id (Kw.channel a) ;;
      let payload := <["channel_id" := channel_id]> payload in
      if negb (is_missing (Kw.location a))
      then raise (TypeError
             "location cannot be set when entity_type is voice or stage_instance")
      else ret (payload, metadata)
  else
    if negb (is_missing (Kw.channel a))
    then raise (TypeError "channel cannot be set when entity_type is external")
    else if is_missing (Kw.location a) || is_none (Kw.location a)
    then raise (TypeError "location must be set when entity_type is external")
    else
      let metadata := <["location" := Kw.location a]> metadata in
      if is_missing (Kw.end_time a)
      then raise (TypeError "end_time must be set when entity_type is external")
      else
        tz <- attr_tzinfo (Kw.end_time a) ;;
        match tz with
        | None => raise (ValueError end_time_naive)
        | Some _ =>
            s <- call_isoformat env (Kw.end_time a) ;;
            ret (<["scheduled_end_time" := s]> payload, metadata)
        end.

(** The payload [p] carries a field exactly when the argument for it was
    given to [edit], and then with the value derived from the argument: the
    argument itself for the name and the description, the ISO text of an
    aware datetime, the raw code of an enum value of the right class, the
    base-64 text of the image. *)
Definition sends_what_was_given {T} (env : Collaborators T) (a : Kw.t)
    (p : gmap string Value) : Prop :=
  p !! "name" = (if is_missing (Kw.name a) then None else Some (Kw.name a)) /\
  p !! "description"
    = (if is_missing (Kw.description a) then None else Some (Kw.description a)) /\
  (if is_missing (Kw.start_time a) then p !! "scheduled_start_time" = None
   else exists d z,
     Kw.start_time a = VDatetime d /\ tzinfo d = Some z /\
     p !! "scheduled_start_time" = Some (VData (JStr (isoformat env d)))) /\
  (if is_missing (Kw.privacy_level a) then p !! "privacy_level" = None
   else exists e,
     Kw.privacy_level a = VEnum e /\ enum_cls e = cls_name PrivacyLevel /\
     p !! "privacy_level" = Some (VData (enum_value e))) /\
  (if is_missing (Kw.status a) then p !! "status" = None
   else exists e,
     Kw.status a = VEnum e /\ enum_cls e = cls_name EventStatus /\
     p !! "status" = Some (VData (enum_value e))) /\
  (if is_missing (Kw.image a) then p !! "image" = None
   else exists image_as_str,
     _bytes_to_base64_data env (Kw.image a) = Ok image_as_str /\
     p !! "image" = Some (VData (JStr image_as_str))) /\
  (if is_missing (Kw.entity_type a) then p !! "entity_type" = None
   else exists e,
     Kw.entity_type a = VEnum e /\ enum_cls e = cls_name EntityType /\
     p !! "entity_type" = Some (VData (enum_value e))).

(** [entity_type or self.entity_type]: the entity type [edit] goes by. *)
Definition effective_entity_type {T} (w : World T) (self : loc) (a : Kw.t)
  : option Value :=
  if truthy (Kw.entity_type a) then Some (Kw.entity_type a)
  else slot w self "entity_type".

(** [_entity_type in (EntityType.stage_instance, EntityType.voice)]. *)
Definition held_in_a_channel (entity_type : Value) : bool :=
  eq_member entity_type (member EntityType "stage_instance" 1)
  || eq_member entity_type (member EntityType "voice" 2).

(** The payload [p] places the event as its effective entity type asks,
    in a channel or at a location and never both.  For a stage or voice
    event: a channel was given and no location, [p] has the id of that
    channel as [channel_id] and neither [entity_metadata] nor
    [scheduled_end_time].  For any other event: no channel was given, a
    location and an aware end time were, [p] has the location under
    [entity_metadata] and the ISO text of the end time, and no
    [channel_id]. *)
Definition bound_to_one_place {T} (env : Collaborators T) (w : World T)
    (self : loc) (a : Kw.t) (p : gmap string Value) : Prop :=
  exists entity_type,
    effective_entity_type w self a = Some entity_type /\
    if held_in_a_channel entity_type then
      is_missing (Kw.channel a) = false /\ is_none (Kw.channel a) = false /\
      is_missing (Kw.location a) = true /\
      (exists channel_id,
         fst (attr_id (Kw.channel a) w) = Ok channel_id /\
         p !! "channel_id" = Some channel_id) /\
      p !! "entity_metadata" = None /\ p !! "scheduled_end_time" = None
    else
      is_missing (Kw.channel a) = true /\
      is_missing (Kw.location a) = false /\ is_none (Kw.location a) = false /\
      (exists d z, Kw.end_time a = VDatetime d /\ tzinfo d = Some z /\
         p !! "scheduled_end_time" = Some (VData (JStr (isoformat env d)))) /\
      p !! "entity_metadata" = Some (VDict {["location" := Kw.location a]}) /\
      p !! "channel_id" = None.

(** The world [w] with the instance at [self] holding the slots [s] and
    with the user cache [c]. *)
Definition at_ {T} (w : World T) (self : loc) (s : gmap string Value)
    (c : gmap Z User) : World T :=
  {| heap := <[self := Instance s]> (heap w); _users_cache := c;
     remote := remote w; http_log := http_log w |}.

(** The slots of a proxy after the assignments hydration always makes,
    given the integers read from [id] and [guild_id] and the values
    computed for the start time, the creator, the end time and the channel
    id. *)
Definition hydrated_base (data : gmap string Json) (i g : Z)
    (start_time creator end_time channel_id : Value)
    (slots : gmap string Value) : gmap string Value :=
  <["channel_id" := channel_id]> (<["end_time" := end_time]>
  (<["creator" := creator]>
  (<["user_count" := VData (get data "user_count" (JInt 0))]>
  (<["_cover_image" := VData (get data "image" JNull)]>
  (<["status" := VEnum (try_enum EventStatus (get data "status" JNull))]>
  (<["privacy_level" := VEnum (try_enum PrivacyLevel (get data "status" JNull))]>
  (<["start_time" := start_time]>
  (<["entity_id" := VData (JInt i)]>
  (<["entity_type" := VEnum (try_enum EntityType (get data "entity_type" JNull))]>
  (<["description" := VData (get data "description" (JStr ""))]>
  (<["name" := VData (get data "name" JNull)]>
  (<["guild_id" := VData (JInt g)]>
  (<["id" := VData (JInt i)]> slots))))))))))))).

(** The slots of a proxy after a hydration from [data] that returned: the
    location is assigned too when [metadata] is a non-empty object. *)
Definition hydrated (data : gmap string Json) (i g : Z)
    (start_time creator end_time channel_id : Value)
    (slots : gmap string Value) : gmap string Value :=
  let s := hydrated_base data i g start_time creator end_time channel_id slots in
  match get data "metadata" JNull with
  | JObj o =>
      if json_truthy (JObj o)
      then <["location" := VData (get o "location" JNull)]> s
      else s
  | _ => s
  end.

(** The value hydration stores as [creator], and the user cache after. *)
Definition creator_of (T : Type) (j : Json) (has_state : bool) (c : gmap Z User)
    (v : Value) (c' : gmap Z User) : Prop :=
  (json_truthy j = false /\ v = VNone /\ c' = c) \/
  (json_truthy j = true /\ has_state = true /\
   forall w2 : World T, _users_cache w2 = c ->
     fst (store_user j w2) = Ok v /\ _users_cache (snd (store_user j w2)) = c').

(** The keys hydration cannot do without. *)
Definition required_keys : list string :=
  [ "id"; "guild_id"; "name"; "entity_type"; "scheduled_start_time";
    "status"; "image" ].


(** The slots hydration writes; [location] only when the payload carries a
    non-empty [metadata] object. *)
Definition hydrated_names : list string :=
  [ "id"; "guild_id"; "name"; "description"; "entity_type"; "entity_id";
    "start_time"; "privacy_level"; "status"; "_cover_image"; "user_count";
    "creator"; "end_time"; "channel_id"; "location" ].

(** The world after the allocations of [ScheduledEvent] and the first two
    assignments of [__init__]: the new instance with [_state] and [_users]
    set, and the empty dict [_users] refers to. *)
Definition allocated {T} (w : World T) : World T :=
  {| heap := heap w ++
       [ Instance (<["_users" := VRef (S (length (heap w)))]>
                     (<["_state" := VState]> ∅));
         Dict ∅ ];
     _users_cache := _users_cache w; remote := remote w;
     http_log := http_log w |}.

(** A batch request for between one and [hi] users, members not asked
    for. *)
Definition asks (hi : Z) (r : Request) : Prop :=
  match r with
  | get_scheduled_event_users _ _ n with_member _ =>
      1 <= n <= hi /\ with_member = false
  | _ => False
  end.

(** The size a round asks for: the remaining limit, 100 at most. *)
Definition batch_size (limit : option Z) : Z :=
  Z.min (match limit with None => 100 | Some l => l end) 100.

(** The service never answers a batch request with more records than it
    was asked for. *)
Definition honours_limit {T} (env : Collaborators T) : Prop :=
  forall g i n with_member cursor t b t',
    1 <= n ->
    http_get_users env g i n with_member cursor t = (Ok b, t') ->
    Z.of_nat (length b) <= n.

(** The rounds a traversal limited to [l] users can take: one per full
    hundred, one for what is left. *)
Definition rounds (l : Z) : Z := Z.max 0 ((l + 99) / 100).

(** * A scripted service

    The transport double used to run the code on concrete inputs: batch
    requests are answered from a script, one batch per call and the empty
    batch once the script is over; [edit] is answered with a fixed reply. *)

Record Script := {
  batches : list (list Json);
  edit_reply : Result (gmap string Json);
}.

Definition scripted : Collaborators Script :=
  {| http_edit := fun _ _ _ _ t => (edit_reply t, t);
     http_get_users := fun _ _ _ _ _ t =>
       match batches t with
       | [] => (Ok [], t)
       | b :: bs => (Ok b, {| batches := bs; edit_reply := edit_reply t |})
       end;
     isoformat := fun d => "2021-11-01T00:00:00";
     fromisoformat := fun s =>
       if String.eqb s "2021-11-01T00:00:00+00:00"
       then Ok {| wall := 1635724800; tzinfo := Some 0 |}
       else Raise (ValueError "Invalid isoformat string");
     _bytes_to_base64_data := fun v =>
       match v with
       | VData (JStr s) => Ok s
       | _ => Raise (TypeError "a bytes-like object is required")
       end |}.

(** A payload with every required key, for a voice event. *)
Definition voice_payload : gmap string Json :=
  <["id" := JStr "10"]> (<["guild_id" := JStr "20"]> (<["name" := JStr "party"]>
  (<["entity_type" := JInt 2]>
  (<["scheduled_start_time" := JStr "2021-11-01T00:00:00+00:00"]>
  (<["status" := JInt 1]> (<["image" := JNull]>
  (<["channel_id" := JStr "30"]> ∅))))))).

(** The same event held at an external location, as the service sends it. *)
Definition external_payload : gmap string Json :=
  <["entity_type" := JInt 3]> (<["channel_id" := JNull]>
  (<["scheduled_end_time" := JStr "2021-11-01T00:00:00+00:00"]>
  (<["entity_metadata" := JObj {["location" := JStr "Park"]}]> voice_payload))).

Definition empty_world (t : Script) : World Script :=
  {| heap := []; _users_cache := ∅; remote := t; http_log := [] |}.

Definition quiet : Script := {| batches := []; edit_reply := Raise (HTTPException 500) |}.

(** A raw subscriber record for the user [i]. *)
Definition subscriber (i : Z) : Json :=
  JObj {["user" := JObj {["id" := JInt i]}]}.

(** The user that [store_user] builds from [{'id': i}]. *)
Definition user_of (i : Z) : User :=
  {| user_id := i; user_data := {["id" := JInt i]} |}.

Definition alice : User := user_of 5.

(** A proxy (at 0) hydrated from [voice_payload], with [alice] subscribed. *)
Definition voice_world (t : Script) : World Script :=
  snd (_add_user 0%nat alice
         (snd (ScheduledEvent scripted voice_payload (empty_world t)))).

(** The service answers every edit with [voice_payload]. *)
Definition echo : Script := {| batches := []; edit_reply := Ok voice_payload |}.

(** [edit(name='gala', channel=Object(30))]. *)
Definition rename : Kw.t :=
  {| Kw.name := VData (JStr "gala"); Kw.description := VMissing;
     Kw.channel := VObject {| oid := 30 |}; Kw.start_time := VMissing;
     Kw.end_time := VMissing; Kw.privacy_level := VMissing;
     Kw.entity_type := VMissing; Kw.status := VMissing; Kw.image := VMissing;
     Kw.location := VMissing; Kw.reason := VNone |}.

(** [edit(name='gala', channel=Object(30), image=...)]; the scripted
    encoder answers with the text it is given. *)
Definition with_image : Kw.t :=
  {| Kw.name := VData (JStr "gala"); Kw.description := VMissing;
     Kw.channel := VObject {| oid := 30 |}; Kw.start_time := VMissing;
     Kw.end_time := VMissing; Kw.privacy_level := VMissing;
     Kw.entity_type := VMissing; Kw.status := VMissing;
     Kw.image := VData (JStr "aGVsbG8="); Kw.location := VMissing;
     Kw.reason := VNone |}.

(** A datetime with no zone attached. *)
Definition naive : Value := VDatetime {| wall := 1635724800; tzinfo := None |}.

(** [edit(channel=Object(30), end_time=naive)]. *)
Definition naive_end_time : Kw.t :=
  {| Kw.name := VMissing; Kw.description := VMissing;
     Kw.channel := VObject {| oid := 30 |}; Kw.start_time := VMissing;
     Kw.end_time := naive; Kw.privacy_level := VMissing;
     Kw.entity_type := VMissing; Kw.status := VMissing; Kw.image := VMissing;
     Kw.location := VMissing; Kw.reason := VNone |}.

(** [edit(channel=Object(30), start_time=naive)]. *)
Definition naive_start_time : Kw.t :=
  {| Kw.name := VMissing; Kw.description := VMissing;
     Kw.channel := VObject {| oid := 30 |}; Kw.start_time := naive;
     Kw.end_time := VMissing; Kw.privacy_level := VMissing;
     Kw.entity_type := VMissing; Kw.status := VMissing; Kw.image := VMissing;
     Kw.location := VMissing; Kw.reason := VNone |}.

(** [edit(entity_type=EntityType.external, location='Park', end_time=naive)]. *)
Definition naive_end_time_external : Kw.t :=
  {| Kw.name := VMissing; Kw.description := VMissing;
     Kw.channel := VMissing; Kw.start_time := VMissing;
     Kw.end_time := naive; Kw.privacy_level := VMissing;
     Kw.entity_type := VEnum (member EntityType "external" 3);
     Kw.status := VMissing; Kw.image := VMissing;
     Kw.location := VData (JStr "Park"); Kw.reason := VNone |}.

(** [voice_payload] with a privacy level of its own. *)
Definition payload_with_privacy_level : gmap string Json :=
  <["privacy_level" := JInt 2]> voice_payload.

(** The service answers the first batch request with the users 12 and 5,
    whatever boundary it is asked for. *)
Definition over_fetching : Script :=
  {| batches := [[subscriber 12; subscriber 5]];
     edit_reply := Raise (HTTPException 500) |}.

(** The records of the users [from], [from + 1], ... ([n] of them). *)
Definition subscribers_from (from : Z) (n : nat) : list Json :=
  subscriber <$> seqZ from (Z.of_nat n).

(** The service holds 137 subscribers and serves them 100 at a time. *)
Definition two_batches : Script :=
  {| batches := [subscribers_from 1 100; subscribers_from 101 37];
     edit_reply := Raise (HTTPException 500) |}.

(** ** A service that answers newest first

    The service holds the subscribers [ids], listed newest first, and
    answers a batch request with the records it is asked for, newest
    first: the [n] newest below the [before] boundary, or the [n] oldest
    above the [after] boundary. *)

Definition below (c : option Z) (i : Z) : bool :=
  match c with Some b => i <? b | None => true end.

Definition above (c : option Z) (i : Z) : bool :=
  match c with Some a => a <? i | None => true end.

(** The subscribers beyond a boundary, in the order of the traversal:
    newest first backward, oldest first forward. *)
Definition beyond (reverse : bool) (c : option Z) (ids : list Z) : list Z :=
  if reverse then rev (List.filter (above c) ids) else List.filter (below c) ids.

Definition page (ids : list Z) (n : Z) (c : Cursor) : list Z :=
  match c with
  | before_kw b => take (Z.to_nat n) (beyond false b ids)
  | after_kw a => rev (take (Z.to_nat n) (beyond true a ids))
  end.

Definition newest_first (ids : list Z) : Collaborators unit :=
  {| http_edit := fun _ _ _ _ t => (Raise (HTTPException 500), t);
     http_get_users := fun _ _ n _ c t => (Ok (subscriber <$> page ids n c), t);
     isoformat := isoformat scripted;
     fromisoformat := fromisoformat scripted;
     _bytes_to_base64_data := _bytes_to_base64_data scripted |}.

(** The subscribers 137, 136, ..., 1. *)
Definition roster : list Z := rev (seqZ 1 137).

(** A proxy (at 0) hydrated from [voice_payload], facing that service. *)
Definition roster_world : World unit :=
  snd (ScheduledEvent (newest_first roster) voice_payload
         {| heap := []; _users_cache := ∅; remote := tt; http_log := [] |}).

(** [y] lies beyond [x] in the order of the traversal: it is older
    backward, newer forward. *)
Definition ahead (reverse : bool) (x y : Z) : bool :=
  if reverse then x <? y else y <? x.

(** [i] lies beyond the boundary [c], if there is one. *)
Definition past (reverse : bool) (c : option Z) (i : Z) : bool :=
  match c with Some x => ahead reverse x i | None => true end.

(** The subscribers in the order of the traversal. *)
Definition lined (reverse : bool) (ids : list Z) : list Z :=
  if reverse then rev ids else ids.

(** [ids] is listed newest first, each subscriber once. *)
Definition newest_first_order (ids : list Z) : Prop :=
  StronglySorted (fun x y => y < x) ids.

(** The service answers every batch request as [newest_first ids] does. *)
Definition answers_newest_first {T} (env : Collaborators T) (ids : list Z)
  : Prop :=
  forall g i n c t,
    1 <= n ->
    fst (http_get_users env g i n false c t) = Ok (subscriber <$> page ids n c).

(** [v] is a user of id [i]. *)
Definition is_user (i : Z) (v : Value) : Prop :=
  exists u, v = VUser u /\ user_id u = i.

(** What a limit leaves of the subscribers to come. *)
Definition cut (limit : option Z) (l : list Z) : list Z :=
  match limit with
  | None => l
  | Some n => take (Z.to_nat n) l
  end.

(** * Verification *)

(** ** Reasoning about computations *)

(** Closed decidable facts, such as membership in a list of names. *)
Ltac by_compute := apply (bool_decide_unpack _); vm_compute; exact I.

Section Rules.
Context {T : Type}.
Implicit Types (w : World T) (P E : World T -> Prop).

Lemma hoare_bind {A B} P (m : Py T A) (k : A -> Py T B) Q1 Q E :
  hoare P m Q1 E -> (forall a, hoare (Q1 a) (k a) Q E) ->
  hoare P (bind m k) Q E.
Proof.
  intros Hm Hk w HP. unfold bind. specialize (Hm w HP).
  destruct (m w) as [[a|e] w1]; [|exact Hm].
  exact (Hk a w1 Hm).
Qed.

Lemma hoare_conseq {A} P P' (m : Py T A) (Q Q' : A -> World T -> Prop) E E' :
  hoare P' m Q' E' -> (forall w, P w -> P' w) ->
  (forall a w, Q' a w -> Q a w) -> (forall w, E' w -> E w) ->
  hoare P m Q E.
Proof.
  intros H HP HQ HE w Hw. specialize (H w (HP w Hw)).
  destruct (m w) as [[a|e] w1]; auto.
Qed.

Lemma hoare_ret {A} P (a : A) : hoare P (ret a) (fun _ => P) P.
Proof. intros w HP. exact HP. Qed.

Lemma hoare_raise {A} P e : hoare P (@raise T A e) (fun _ => P) P.
Proof. intros w HP. exact HP. Qed.

Lemma hoare_lift {A} P (r : Result A) : hoare P (lift r) (fun _ => P) P.
Proof. intros w HP. unfold lift. destruct r; exact HP. Qed.

(** A pure computation keeps any assertion. *)
Lemma hoare_pure {A} P (m : Py T A) : pure m -> hoare P m (fun _ => P) P.
Proof.
  intros Hm w HP. specialize (Hm w).
  destruct (m w) as [[a|e] w1]; simpl in Hm; subst; exact HP.
Qed.

Lemma pure_ret {A} (a : A) : pure (@ret T A a).
Proof. intros w. reflexivity. Qed.

Lemma pure_raise {A} e : pure (@raise T A e).
Proof. intros w. reflexivity. Qed.

Lemma pure_lift {A} (r : Result A) : pure (@lift T A r).
Proof. intros w. reflexivity. Qed.

Lemma pure_bind {A B} (m : Py T A) (k : A -> Py T B) :
  pure m -> (forall a, pure (k a)) -> pure (bind m k).
Proof.
  intros Hm Hk w. unfold bind. specialize (Hm w).
  destruct (m w) as [[a|e] w1]; simpl in Hm; subst; [apply Hk|reflexivity].
Qed.

Lemma pure_getattr self name : pure (@getattr T self name).
Proof.
  intros w. unfold getattr.
  destruct (heap w !! self) as [[slots|d]|]; try reflexivity.
  repeat case_bool_decide; try reflexivity.
  destruct (slots !! name); reflexivity.
Qed.

Lemma pure_if {A} (b : bool) (m1 m2 : Py T A) :
  pure m1 -> pure m2 -> pure (if b then m1 else m2).
Proof. destruct b; auto. Qed.

Lemma pure_attr_id v : pure (@attr_id T v).
Proof.
  destruct v; simpl; auto using pure_ret, pure_raise, pure_getattr.
Qed.

Lemma pure_parse_time env j : pure (@parse_time T env j).
Proof.
  unfold parse_time. apply pure_if; [|apply pure_ret].
  destruct j; try apply pure_raise.
  apply pure_bind; [apply pure_lift|intros; apply pure_ret].
Qed.

Lemma pure__get_as_snowflake data key : pure (@_get_as_snowflake T data key).
Proof.
  unfold _get_as_snowflake. destruct (data !! key); [|apply pure_ret].
  apply pure_if; [|apply pure_ret].
  apply pure_bind; [apply pure_lift|intros; apply pure_ret].
Qed.

(** What a successful [getattr] tells. *)
Lemma getattr_Ok w self name v w' :
  getattr self name w = (Ok v, w') ->
  w' = w /\ (slot w self name = Some v \/ v = VBound name) /\
  exists slots, heap w !! self = Some (Instance slots).
Proof.
  unfold getattr, slot.
  destruct (heap w !! self) as [[slots|d]|]; try discriminate.
  repeat case_bool_decide.
  - destruct (slots !! name); inversion 1; subst; eauto.
  - inversion 1; subst; eauto.
  - discriminate.
Qed.

Lemma getattr_slot w self name v w' :
  name ∈ __slots__ -> getattr self name w = (Ok v, w') ->
  w' = w /\ slot w self name = Some v.
Proof.
  intros Hin. unfold getattr, slot.
  destruct (heap w !! self) as [[slots|d]|]; try discriminate.
  rewrite bool_decide_eq_true_2 by exact Hin.
  destruct (slots !! name); inversion 1; subst; eauto.
Qed.

Lemma getattr_of_slot w self name v :
  name ∈ __slots__ -> slot w self name = Some v ->
  getattr self name w = (Ok v, w).
Proof.
  intros Hin. unfold getattr, slot.
  destruct (heap w !! self) as [[slots|d]|]; try discriminate.
  rewrite bool_decide_eq_true_2 by exact Hin.
  intros ->. reflexivity.
Qed.

End Rules.

Ltac pure_steps :=
  repeat first
    [ apply pure_ret | apply pure_raise | apply pure_lift | apply pure_getattr
    | apply pure_attr_id | apply pure_parse_time | apply pure__get_as_snowflake
    | apply pure_bind; [|intros]
    | apply pure_if
    | match goal with |- pure (match ?x with _ => _ end) => destruct x end ].

(** ** The channel accessor *)

(** C1 (the code departs from it).  The accessor reads [self.guild], and
    [guild] is neither a slot nor a name of the class or of its base: on
    every proxy, in every state, reading [channel] raises [AttributeError]
    instead of returning a channel or [None]. *)
Theorem channel_raises_AttributeError {T} (w : World T) (self : loc) :
  channel self w = (Raise (AttributeError "guild"), w).
Proof.
  unfold channel, bind, getattr.
  destruct (heap w !! self) as [[slots|d]|]; reflexivity.
Qed.

(** ** The cache mutators *)

(** C10.  On a proxy whose [_users] slot refers to the dict [m]:
    [_pop_user] raises [KeyError] and changes nothing when the id is not a
    key of [m]; when it is, the entry is removed, nothing else changes, and
    the call returns nothing (the popped user is dropped). *)
Theorem _pop_user_KeyError_when_absent {T} (w : World T) self d m (user_id : Z) :
  slot w self "_users" = Some (VRef d) ->
  heap w !! d = Some (Dict m) ->
  (m !! user_id = None ->
   _pop_user self user_id w = (Raise (KeyError (JInt user_id)), w)) /\
  (forall u, m !! user_id = Some u ->
   _pop_user self user_id w =
     (Ok tt, set_heap w (<[d := Dict (delete user_id m)]> (heap w)))).
Proof.
  intros Hs Hd. unfold _pop_user, bind.
  rewrite (getattr_of_slot w self "_users" (VRef d)) by (done || by_compute).
  unfold dict_pop. rewrite Hd.
  split; [intros ->|intros u ->]; reflexivity.
Qed.

Lemma _pop_user_KeyError_when_absent_witness :
  _pop_user 0%nat 6 (voice_world quiet)
    = (Raise (KeyError (JInt 6)), voice_world quiet) /\
  fst (_pop_user 0%nat 5 (voice_world quiet)) = Ok tt /\
  subscribers (snd (_pop_user 0%nat 5 (voice_world quiet))) 0%nat = Some ∅.
Proof.
  destruct (_pop_user_KeyError_when_absent (voice_world quiet) 0%nat 1%nat
              {[5 := VUser alice]} 6) as [Habsent _];
    [vm_compute; reflexivity | vm_compute; reflexivity |].
  destruct (_pop_user_KeyError_when_absent (voice_world quiet) 0%nat 1%nat
              {[5 := VUser alice]} 5) as [_ Hpresent];
    [vm_compute; reflexivity | vm_compute; reflexivity |].
  split; [apply Habsent; vm_compute; reflexivity|].
  rewrite (Hpresent (VUser alice)) by (vm_compute; reflexivity).
  split; vm_compute; reflexivity.
Defined.

(** ** Hydration *)

(** Hydration is blind to every other key. *)
Lemma _update_ignores {T} (env : Collaborators T) self data key j :
  key ∉ keys_read ->
  _update env self (<[key := j]> data) = _update env self data.
Proof.
  intros Hkey.
  assert (Hne : forall k, k ∈ keys_read -> <[key := j]> data !! k = data !! k).
  { intros k Hk. apply lookup_insert_ne. intros ->. exact (Hkey Hk). }
  unfold _update, getitem, get, _get_as_snowflake.
  rewrite !Hne by by_compute.
  reflexivity.
Qed.

(** C2 (the code departs from it).  [_update] looks for the sub-object
    under the key [metadata]; the service, and [edit] in this same file,
    name it [entity_metadata].  A payload that carries a location under
    [entity_metadata] hydrates without error and leaves the [location] slot
    unset, so that reading it raises [AttributeError]; no value under
    [entity_metadata] ever reaches the proxy.  Under [metadata] the same
    sub-object would have been unrolled. *)
Theorem hydrate_misses_entity_metadata :
  external_payload !! "entity_metadata"
    = Some (JObj {["location" := JStr "Park"]}) /\
  (let '(r, w) := ScheduledEvent scripted external_payload (empty_world quiet) in
   r = Ok 0%nat /\
   slot w 0%nat "entity_type" = Some (VEnum (Member "EntityType" "external" 3)) /\
   slot w 0%nat "location" = None /\
   fst (getattr 0%nat "location" w) = Raise (AttributeError "location")) /\
  (forall T (env : Collaborators T) self data j,
     _update env self (<["entity_metadata" := j]> data) = _update env self data) /\
  slot (snd (ScheduledEvent scripted
               (<["metadata" := JObj {["location" := JStr "Park"]}]> voice_payload)
               (empty_world quiet))) 0%nat "location"
    = Some (VData (JStr "Park")).
Proof.
  split; [vm_compute; reflexivity|].
  split; [vm_compute; repeat split; reflexivity|].
  split; [|vm_compute; reflexivity].
  intros. apply _update_ignores. by_compute.
Qed.

(** ** Slots, allocation and the frame *)

Section Frame.
Context {T : Type}.
Implicit Types (w : World T).

Lemma framed_refl w : framed (heap w) w.
Proof. intros l c H. exact H. Qed.

Lemma framed_length (h0 : list Cell) w : framed h0 w -> (length h0 <= length (heap w))%nat.
Proof.
  intros H. destruct (decide (length h0 <= length (heap w))%nat) as [|Hlt]; [done|].
  assert (Hl : (length (heap w) < length h0)%nat) by lia.
  apply lookup_lt_is_Some in Hl as [c Hc].
  apply H in Hc. apply lookup_lt_Some in Hc. lia.
Qed.

Lemma setattr_spec w self name v r w' :
  setattr self name v w = (r, w') ->
  (exists slots, r = Ok tt /\ heap w !! self = Some (Instance slots) /\
     name ∈ __slots__ /\
     w' = set_heap w (<[self := Instance (<[name := v]> slots)]> (heap w))) \/
  (exists e, r = Raise e /\ w' = w).
Proof.
  unfold setattr.
  destruct (heap w !! self) as [[slots|d]|] eqn:Hs;
    try (inversion 1; subst; right; eauto; fail).
  case_bool_decide; inversion 1; subst; [left|right]; eauto 10.
Qed.

Lemma slot_written w self slots name v :
  heap w !! self = Some (Instance slots) ->
  slot (set_heap w (<[self := Instance (<[name := v]> slots)]> (heap w))) self name
    = Some v.
Proof.
  intros H. unfold slot. simpl.
  rewrite list_lookup_insert_eq by (eapply lookup_lt_Some; exact H).
  apply lookup_insert_eq.
Qed.

Lemma slot_other_name w self slots name name' v :
  heap w !! self = Some (Instance slots) -> name <> name' ->
  slot (set_heap w (<[self := Instance (<[name := v]> slots)]> (heap w))) self name'
    = slot w self name'.
Proof.
  intros H Hne. unfold slot. simpl.
  rewrite list_lookup_insert_eq by (eapply lookup_lt_Some; exact H).
  rewrite H. apply lookup_insert_ne. exact Hne.
Qed.

Lemma slot_other_loc w self other c name :
  self <> other ->
  slot (set_heap w (<[self := c]> (heap w))) other name = slot w other name.
Proof.
  intros Hne. unfold slot. simpl.
  rewrite list_lookup_insert_ne by exact Hne. reflexivity.
Qed.

(** Anything holds of nothing in particular. *)
Lemma hoare_any {A} (P : World T -> Prop) (m : Py T A) :
  hoare P m (fun _ _ => True) (fun _ => True).
Proof. intros w _. destruct (m w) as [[a|e] w']; exact I. Qed.

(** A lifted result is known afterwards. *)
Lemma hoare_lift_eq {A} (P : World T -> Prop) (r : Result A) :
  hoare P (lift r) (fun a w => r = Ok a /\ P w) (fun _ => True).
Proof. intros w HP. unfold lift. destruct r; auto. Qed.

Lemma hoare_setattr_frame (h0 : list Cell) self name v :
  (length h0 <= self)%nat ->
  hoare (framed h0) (@setattr T self name v) (fun _ => framed h0) (framed h0).
Proof.
  intros Hle w Hw.
  destruct (setattr self name v w) as [r w'] eqn:E.
  apply setattr_spec in E as [(slots & -> & Hs & _ & ->)|(e & -> & ->)]; [|done].
  intros l c Hl. simpl.
  rewrite list_lookup_insert_ne; [exact (Hw l c Hl)|].
  apply lookup_lt_Some in Hl. lia.
Qed.

Lemma hoare_setattr_instance other self name v :
  hoare (fun w => is_instance w other) (@setattr T self name v)
        (fun _ w => is_instance w other) (fun w => is_instance w other).
Proof.
  intros w [so Hso].
  destruct (setattr self name v w) as [r w'] eqn:E.
  apply setattr_spec in E as [(slots & -> & Hs & _ & ->)|(e & -> & ->)];
    [|exists so; done].
  unfold is_instance. simpl.
  destruct (decide (self = other)) as [->|Hne].
  - rewrite list_lookup_insert_eq by (eapply lookup_lt_Some; exact Hs). eauto.
  - rewrite list_lookup_insert_ne by exact Hne. eauto.
Qed.

Lemma hoare_alloc (h0 : list Cell) c :
  hoare (framed h0) (@alloc T c)
        (fun a w => framed h0 w /\ (length h0 <= a)%nat /\ heap w !! a = Some c)
        (framed h0).
Proof.
  intros w Hw. simpl. split; [|split].
  - intros l c' Hl. apply lookup_app_l_Some. exact (Hw l c' Hl).
  - apply framed_length. exact Hw.
  - rewrite lookup_app_r by done. rewrite Nat.sub_diag. reflexivity.
Qed.

(** [store_user] touches the user cache only. *)
Lemma store_user_heap j w : heap (snd (@store_user T j w)) = heap w.
Proof.
  unfold store_user. destruct j; try reflexivity.
  unfold bind, lift. destruct (getitem o "id") as [raw|e]; [|reflexivity].
  destruct (int raw) as [uid|e]; [|reflexivity].
  destruct (_users_cache w !! uid); reflexivity.
Qed.

Lemma store_user_log j w :
  http_log (snd (@store_user T j w)) = http_log w /\
  remote (snd (@store_user T j w)) = remote w.
Proof.
  unfold store_user. destruct j; try done.
  unfold bind, lift. destruct (getitem o "id") as [raw|e]; [|done].
  destruct (int raw) as [uid|e]; [|done].
  destruct (_users_cache w !! uid); done.
Qed.

Lemma framed_heap_assertion (h0 : list Cell) :
  heap_assertion (@framed T h0).
Proof. intros w w' Hh Hw l c Hl. rewrite Hh. exact (Hw l c Hl). Qed.

Lemma is_instance_heap_assertion self : heap_assertion (fun w => is_instance w self).
Proof. intros w w' Hh [s Hs]. exists s. rewrite Hh. exact Hs. Qed.

Lemma heap_assertion_and (I J : World T -> Prop) :
  heap_assertion I -> heap_assertion J -> heap_assertion (fun w => I w /\ J w).
Proof. intros HI HJ w w' Hh [Hi Hj]. split; eauto. Qed.

Lemma hoare_store_user I j :
  heap_assertion I -> hoare I (@store_user T j) (fun _ => I) I.
Proof.
  intros HI w Hw. pose proof (store_user_heap j w) as Hh.
  destruct (store_user j w) as [[a|e] w']; exact (HI w w' Hh Hw).
Qed.

End Frame.

(** One step of a sequence under an assertion every step keeps. *)
Ltac keep_step hsetattr hstore :=
  first
    [ apply hoare_ret | apply hoare_raise | apply hoare_lift
    | apply hsetattr | apply hstore
    | apply hoare_pure; pure_steps; fail
    | eapply hoare_bind; [|intros] ].

Section Hydration.
Context {T : Type} (env : Collaborators T).

(** An assertion that every assignment to a slot of [self] keeps, and that
    [store_user] keeps, is kept by hydration, whether it returns or
    raises. *)
Lemma _update_keeps (I : World T -> Prop) self data :
  (forall name v, hoare I (setattr self name v) (fun _ => I) I) ->
  (forall j, hoare I (@store_user T j) (fun _ => I) I) ->
  hoare I (_update env self data) (fun _ => I) I.
Proof.
  intros Hset Hstore.
  unfold _update, _unroll_metadata.
  repeat first
    [ keep_step Hset Hstore
    | match goal with
      | |- hoare _ (if ?b then _ else _) _ _ => destruct b
      | |- hoare _ (match ?x with _ => _ end) _ _ => destruct x
      end ].
Qed.

End Hydration.

(** ** edit *)

Section Edit.
Context {T : Type} (env : Collaborators T).
Implicit Types (w : World T).

Lemma hoare_and {A} (P1 P2 : World T -> Prop) (m : Py T A) Q1 Q2 E1 E2 :
  hoare P1 m Q1 E1 -> hoare P2 m Q2 E2 ->
  hoare (fun w => P1 w /\ P2 w) m (fun a w => Q1 a w /\ Q2 a w)
        (fun w => E1 w /\ E2 w).
Proof.
  intros H1 H2 w [Hp1 Hp2]. specialize (H1 w Hp1). specialize (H2 w Hp2).
  destruct (m w) as [[a|e] w']; auto.
Qed.

(** A fact the precondition implies can be used to prove the triple. *)
Lemma hoare_fact {A} (P : World T -> Prop) (phi : Prop) (m : Py T A) Q E :
  (forall w, P w -> phi) -> (phi -> hoare P m Q E) -> hoare P m Q E.
Proof. intros Hphi H w Hw. exact (H (Hphi w Hw) w Hw). Qed.

Lemma hoare_setattr_quiet log t self name v :
  hoare (quiet_since log t) (@setattr T self name v)
        (fun _ => quiet_since log t) (quiet_since log t).
Proof.
  intros w Hw. destruct (setattr self name v w) as [r w'] eqn:E.
  apply setattr_spec in E as [(slots & -> & _ & _ & ->)|(e & -> & ->)]; exact Hw.
Qed.

Lemma hoare_alloc_quiet log t c :
  hoare (quiet_since log t) (@alloc T c)
        (fun _ => quiet_since log t) (quiet_since log t).
Proof. intros w Hw. exact Hw. Qed.

Lemma hoare_store_user_quiet log t j :
  hoare (quiet_since log t) (@store_user T j)
        (fun _ => quiet_since log t) (quiet_since log t).
Proof.
  intros w [Hl Ht]. destruct (store_user_log j w) as [Hl' Ht'].
  destruct (store_user j w) as [[a|e] w']; simpl in *; split; congruence.
Qed.

Lemma hoare_alloc_instance other c :
  hoare (fun w => is_instance w other) (@alloc T c)
        (fun _ w => is_instance w other) (fun w => is_instance w other).
Proof.
  intros w [s Hs]. exists s. simpl. apply lookup_app_l_Some. exact Hs.
Qed.

(** Construction makes no call to the transport. *)
Lemma ScheduledEvent_quiet log t data :
  hoare (quiet_since log t) (ScheduledEvent env data)
        (fun _ => quiet_since log t) (quiet_since log t).
Proof.
  unfold ScheduledEvent, __init__.
  eapply hoare_bind; [apply hoare_alloc_quiet|intros self].
  repeat first
    [ apply hoare_ret | apply hoare_setattr_quiet | apply hoare_alloc_quiet
    | apply _update_keeps;
        [intros; apply hoare_setattr_quiet|intros; apply hoare_store_user_quiet]
    | eapply hoare_bind; [|intros] ].
Qed.

(** Construction returns a new instance and leaves the objects that were
    there as they were, also when it raises. *)
Lemma ScheduledEvent_spec (h0 : list Cell) data :
  hoare (framed h0) (ScheduledEvent env data)
        (fun s w => framed h0 w /\ (length h0 <= s)%nat /\ is_instance w s)
        (framed h0).
Proof.
  unfold ScheduledEvent, __init__.
  eapply hoare_bind; [apply hoare_alloc|intros self].
  apply (hoare_fact _ (length h0 <= self)%nat); [tauto|intros Hle].
  set (J := fun w : World T => framed h0 w /\ is_instance w self).
  assert (Hset : forall name v, hoare J (setattr self name v) (fun _ => J) J).
  { intros. apply hoare_and;
      [apply hoare_setattr_frame; exact Hle|apply hoare_setattr_instance]. }
  assert (Halloc : forall c, hoare J (@alloc T c) (fun _ => J) J).
  { intros c. apply hoare_and; [|apply hoare_alloc_instance].
    eapply hoare_conseq; [apply (hoare_alloc h0)|auto|intros ? ? [H _]; exact H|auto]. }
  assert (Hinit : hoare J (__init__ env self data) (fun _ => J) J).
  { unfold __init__.
    eapply hoare_bind; [apply Hset|intros ?].
    eapply hoare_bind; [apply Halloc|intros d].
    eapply hoare_bind; [apply Hset|intros ?].
    apply _update_keeps; [exact Hset|].
    intros j. apply hoare_store_user. apply heap_assertion_and;
      [apply framed_heap_assertion|apply is_instance_heap_assertion]. }
  apply (hoare_conseq _ J _ _ (fun s w => s = self /\ J w) _ J).
  - eapply hoare_bind; [exact Hinit|]. intros ? w Hw. simpl. auto.
  - intros w (Hf & _ & Hs). split; [exact Hf|]. exists ∅. exact Hs.
  - intros s w [-> [Hf Hi]]. auto.
  - intros w [Hf _]. exact Hf.
Qed.

(** The checks of [edit] read the proxy and write nothing. *)
Lemma pure_edit_payload self a : pure (edit_payload env self a).
Proof.
  unfold edit_payload, enum_argument, attr_tzinfo, call_isoformat, attr_value.
  pure_steps.
Qed.

Lemma bind_eq {A B} (m : Py T A) (k : A -> Py T B) w :
  bind m k w = match m w with
               | (Ok a, w') => k a w'
               | (Raise e, w') => (Raise e, w')
               end.
Proof. reflexivity. Qed.

Lemma pure_run {A} (m : Py T A) w : pure m -> m w = (fst (m w), w).
Proof. intros H. specialize (H w). destruct (m w); simpl in *; congruence. Qed.

Lemma edit_unfold self a :
  edit env self a =
    (payload <- edit_payload env self a ;;
     getattr self "_state" ;;
     guild_id <- getattr self "guild_id" ;;
     event_id <- getattr self "id" ;;
     data <- call_edit_scheduled_event env guild_id event_id payload (Kw.reason a) ;;
     edit_finish env self data).
Proof. reflexivity. Qed.

Lemma edit_finish_quiet log t self data :
  hoare (quiet_since log t) (edit_finish env self data)
        (fun _ => quiet_since log t) (quiet_since log t).
Proof.
  unfold edit_finish.
  eapply hoare_bind; [apply hoare_pure, pure_getattr|intros ?].
  eapply hoare_bind; [apply ScheduledEvent_quiet|intros s].
  eapply hoare_bind; [apply hoare_pure, pure_getattr|intros u].
  eapply hoare_bind; [apply hoare_setattr_quiet|intros ?].
  apply hoare_ret.
Qed.

Lemma edit_finish_frame (h0 : list Cell) self data :
  hoare (framed h0) (edit_finish env self data) (fun _ => framed h0) (framed h0).
Proof.
  unfold edit_finish.
  eapply hoare_bind; [apply hoare_pure, pure_getattr|intros ?].
  eapply hoare_bind; [apply ScheduledEvent_spec|intros s].
  apply (hoare_fact _ (length h0 <= s)%nat); [tauto|intros Hle].
  apply (hoare_conseq _ (framed h0) _ _ (fun _ => framed h0) _ (framed h0));
    [|tauto|auto|auto].
  eapply hoare_bind; [apply hoare_pure, pure_getattr|intros u].
  eapply hoare_bind; [apply hoare_setattr_frame; exact Hle|intros ?].
  apply hoare_ret.
Qed.

Lemma hoare_call_edit_frame (h0 : list Cell) g i p r :
  hoare (framed h0) (call_edit_scheduled_event env g i p r)
        (fun _ => framed h0) (framed h0).
Proof.
  intros w Hw. unfold call_edit_scheduled_event.
  destruct (http_edit env g i p r (remote w)) as [[data|e] t]; exact Hw.
Qed.

(** [edit] leaves every object that was there as it was, however it ends. *)
Lemma edit_frame (h0 : list Cell) self a :
  hoare (framed h0) (edit env self a) (fun _ => framed h0) (framed h0).
Proof.
  rewrite edit_unfold.
  eapply hoare_bind; [apply hoare_pure, pure_edit_payload|intros payload].
  eapply hoare_bind; [apply hoare_pure, pure_getattr|intros ?].
  eapply hoare_bind; [apply hoare_pure, pure_getattr|intros g].
  eapply hoare_bind; [apply hoare_pure, pure_getattr|intros i].
  eapply hoare_bind; [apply hoare_call_edit_frame|intros data].
  apply edit_finish_frame.
Qed.

(** [edit] calls the transport at most once, and only with the payload that
    passed the checks. *)
Lemma edit_log self a w :
  let w' := snd (edit env self a w) in
  (http_log w' = http_log w /\ remote w' = remote w) \/
  (exists g i p,
     fst (edit_payload env self a w) = Ok p /\
     http_log w' = http_log w ++ [edit_scheduled_event g i p (Kw.reason a)]).
Proof.
  rewrite edit_unfold. rewrite bind_eq.
  rewrite (pure_run _ w (pure_edit_payload self a)).
  destruct (fst (edit_payload env self a w)) as [p|e]; [|left; done].
  rewrite bind_eq, (pure_run _ w (pure_getattr self "_state")).
  destruct (fst (getattr self "_state" w)); [|left; done].
  rewrite bind_eq, (pure_run _ w (pure_getattr self "guild_id")).
  destruct (fst (getattr self "guild_id" w)) as [g|]; [|left; done].
  rewrite bind_eq, (pure_run _ w (pure_getattr self "id")).
  destruct (fst (getattr self "id" w)) as [i|]; [|left; done].
  right. exists g, i, p. split; [reflexivity|].
  rewrite bind_eq. unfold call_edit_scheduled_event at 1.
  destruct (http_edit env g i p (Kw.reason a) (remote w)) as [[data|e] t];
    [|reflexivity].
  set (w1 := {| heap := heap w; _users_cache := _users_cache w; remote := t;
                http_log := http_log w ++
                            [edit_scheduled_event g i p (Kw.reason a)] |}).
  pose proof (edit_finish_quiet (http_log w1) t self data w1
                (conj eq_refl eq_refl)) as H.
  destruct (edit_finish env self data w1) as [[s|e] w2]; destruct H as [H _];
    exact H.
Qed.

End Edit.

Section EditResults.
Context {T : Type} (env : Collaborators T).
Implicit Types (w : World T).

Lemma framed_lookup (h0 : list Cell) w l c :
  framed h0 w -> h0 !! l = Some c -> heap w !! l = Some c.
Proof. intros H. exact (H l c). Qed.

Lemma slot_framed w w' self name v :
  framed (heap w) w' -> slot w self name = Some v -> slot w' self name = Some v.
Proof.
  intros Hf. unfold slot.
  destruct (heap w !! self) as [c|] eqn:Hc; [|discriminate].
  rewrite (framed_lookup _ _ _ _ Hf Hc). auto.
Qed.

Lemma subscribers_framed w w' self m :
  framed (heap w) w' -> subscribers w self = Some m -> subscribers w' self = Some m.
Proof.
  intros Hf. unfold subscribers.
  destruct (slot w self "_users") as [u|] eqn:Hu; [|discriminate].
  rewrite (slot_framed w w' self "_users" u Hf Hu).
  destruct u; try discriminate.
  destruct (heap w !! l) as [c|] eqn:Hc; [|discriminate].
  rewrite (framed_lookup _ _ _ _ Hf Hc). auto.
Qed.

(** A successful [edit] went through the transport and finished from a
    world with the same heap. *)
Lemma edit_Ok_inv self a w s w' :
  edit env self a w = (Ok s, w') ->
  exists data w1,
    heap w1 = heap w /\ edit_finish env self data w1 = (Ok s, w') /\
    exists g i p, fst (http_edit env g i p (Kw.reason a) (remote w)) = Ok data.
Proof.
  rewrite edit_unfold. rewrite bind_eq.
  rewrite (pure_run _ w (pure_edit_payload env self a)).
  destruct (fst (edit_payload env self a w)) as [p|e]; [|discriminate].
  rewrite bind_eq, (pure_run _ w (pure_getattr self "_state")).
  destruct (fst (getattr self "_state" w)); [|discriminate].
  rewrite bind_eq, (pure_run _ w (pure_getattr self "guild_id")).
  destruct (fst (getattr self "guild_id" w)) as [g|]; [|discriminate].
  rewrite bind_eq, (pure_run _ w (pure_getattr self "id")).
  destruct (fst (getattr self "id" w)) as [i|]; [|discriminate].
  rewrite bind_eq. unfold call_edit_scheduled_event at 1.
  destruct (http_edit env g i p (Kw.reason a) (remote w)) as [[data|e] t] eqn:E;
    [|discriminate].
  intros H. exists data. eexists. split; [|split; [exact H|]].
  - reflexivity.
  - exists g, i, p. rewrite E. reflexivity.
Qed.

(** The proxy [edit] returns is new, and its [_users] slot holds what the
    original's holds. *)
Lemma edit_finish_shares self data w s w' u :
  slot w self "_users" = Some u ->
  edit_finish env self data w = (Ok s, w') ->
  (length (heap w) <= s)%nat /\ is_instance w' s /\ framed (heap w) w' /\
  slot w' s "_users" = Some u.
Proof.
  intros Hu. unfold edit_finish.
  rewrite bind_eq, (pure_run _ w (pure_getattr self "_state")).
  destruct (fst (getattr self "_state" w)); [|discriminate].
  rewrite bind_eq.
  pose proof (ScheduledEvent_spec env (heap w) data w (framed_refl w)) as Hnew.
  destruct (ScheduledEvent env data w) as [[s0|e] w1]; [|discriminate].
  destruct Hnew as (Hf & Hle & [slots Hs]).
  rewrite bind_eq.
  rewrite (getattr_of_slot w1 self "_users" u) by
    (by_compute || exact (slot_framed w w1 self "_users" u Hf Hu)).
  rewrite bind_eq.
  destruct (setattr s0 "_users" u w1) as [r w2] eqn:E.
  apply setattr_spec in E as [(slots' & -> & Hs' & _ & ->)|(e & -> & ->)];
    [|discriminate].
  inversion 1; subst s w'. split; [exact Hle|].
  split; [|split].
  - eexists. simpl.
    rewrite list_lookup_insert_eq by (eapply lookup_lt_Some; exact Hs').
    reflexivity.
  - intros l c Hl. simpl. rewrite list_lookup_insert_ne; [exact (Hf l c Hl)|].
    apply lookup_lt_Some in Hl. lia.
  - apply slot_written. exact Hs'.
Qed.

(** Two proxies whose [_users] slots hold the same reference see each
    other's additions. *)
Lemma _add_user_shared w p q d m user :
  slot w p "_users" = Some (VRef d) -> slot w q "_users" = Some (VRef d) ->
  heap w !! d = Some (Dict m) ->
  fst (_add_user p user w) = Ok tt /\
  subscribers (snd (_add_user p user w)) q
    = Some (<[user_id user := VUser user]> m).
Proof.
  intros Hp Hq Hd. unfold _add_user. rewrite bind_eq.
  rewrite (getattr_of_slot w p "_users" (VRef d)) by (by_compute || exact Hp).
  unfold dict_setitem. rewrite Hd. simpl. split; [reflexivity|].
  assert (Hne : d <> q).
  { intros ->. unfold slot in Hq. rewrite Hd in Hq. discriminate. }
  unfold subscribers, slot in *. simpl.
  rewrite list_lookup_insert_ne by exact Hne.
  destruct (heap w !! q) as [[slots|]|]; try discriminate.
  rewrite Hq.
  rewrite list_lookup_insert_eq by (eapply lookup_lt_Some; exact Hd).
  reflexivity.
Qed.

End EditResults.

(** C5.  Whatever [edit] is called with on a proxy: if a check of the
    payload-building part raises, [edit] raises that exception and the
    world, the transport log included, is exactly as before; the transport
    is called at most once, and only with the payload that passed every
    check; and however [edit] ends (a check fails, the transport raises,
    the reply cannot be hydrated, or it returns), the slots of the original
    proxy, its subscriber dict and every other object that existed are
    unchanged. *)
Theorem edit_checks_first_and_keeps_the_proxy {T} (env : Collaborators T)
    (w : World T) (self : loc) (a : Kw.t) :
  is_instance w self ->
  let r := fst (edit env self a w) in
  let w' := snd (edit env self a w) in
  (forall e, fst (edit_payload env self a w) = Raise e ->
             r = Raise e /\ w' = w) /\
  ((http_log w' = http_log w /\ remote w' = remote w) \/
   (exists g i p,
      fst (edit_payload env self a w) = Ok p /\
      http_log w' = http_log w ++ [edit_scheduled_event g i p (Kw.reason a)])) /\
  heap w' !! self = heap w !! self /\
  (forall name, slot w' self name = slot w self name) /\
  (forall m, subscribers w self = Some m -> subscribers w' self = Some m) /\
  framed (heap w) w'.
Proof.
  intros [slots Hself] r w'.
  assert (Hf : framed (heap w) w').
  { pose proof (edit_frame env (heap w) self a w (framed_refl w)) as H.
    subst w'. destruct (edit env self a w) as [[s|e] w1]; exact H. }
  assert (Hl : heap w' !! self = heap w !! self).
  { rewrite Hself. exact (framed_lookup _ _ _ _ Hf Hself). }
  split; [|split; [|split; [|split; [|split]]]].
  - intros e He. subst r w'. rewrite edit_unfold, bind_eq.
    rewrite (pure_run _ w (pure_edit_payload env self a)), He. done.
  - exact (edit_log env self a w).
  - exact Hl.
  - intros name. unfold slot. rewrite Hl. reflexivity.
  - intros m. apply subscribers_framed. exact Hf.
  - exact Hf.
Qed.

Lemma edit_checks_first_and_keeps_the_proxy_witness :
  is_instance (voice_world echo) 0%nat /\
  fst (edit scripted 0%nat rename (voice_world echo)) = Ok 2%nat /\
  length (http_log (snd (edit scripted 0%nat rename (voice_world echo)))) = 1%nat /\
  (forall name, slot (snd (edit scripted 0%nat rename (voice_world echo))) 0%nat name
                = slot (voice_world echo) 0%nat name) /\
  subscribers (snd (edit scripted 0%nat rename (voice_world echo))) 0%nat
    = Some {[5 := VUser alice]}.
Proof.
  assert (Hi : is_instance (voice_world echo) 0%nat)
    by (eexists; vm_compute; reflexivity).
  destruct (edit_checks_first_and_keeps_the_proxy scripted (voice_world echo)
              0%nat rename Hi) as (_ & _ & _ & Hslots & Hsubs & _).
  split; [exact Hi|].
  split; [vm_compute; reflexivity|].
  split; [vm_compute; reflexivity|].
  split; [exact Hslots|].
  apply Hsubs. vm_compute. reflexivity.
Defined.

(** C8.  When [edit] returns, on a proxy whose [_users] slot refers to a
    dict: the returned proxy is an instance that did not exist before (so it
    is not the original), the [_users] slots of both hold the same
    reference, and a user added through either of them is then found
    through both. *)
Theorem edit_shares_the_subscriber_cache {T} (env : Collaborators T)
    (w w' : World T) (self s : loc) (a : Kw.t) d m :
  edit env self a w = (Ok s, w') ->
  slot w self "_users" = Some (VRef d) ->
  heap w !! d = Some (Dict m) ->
  s <> self /\ heap w !! s = None /\ is_instance w' s /\
  slot w' self "_users" = Some (VRef d) /\
  slot w' s "_users" = Some (VRef d) /\
  subscribers w' s = Some m /\
  forall user,
    (fst (_add_user s user w') = Ok tt /\
     subscribers (snd (_add_user s user w')) self
       = Some (<[user_id user := VUser user]> m)) /\
    (fst (_add_user self user w') = Ok tt /\
     subscribers (snd (_add_user self user w')) s
       = Some (<[user_id user := VUser user]> m)).
Proof.
  intros Hedit Hu Hd.
  apply edit_Ok_inv in Hedit as (data & w1 & Hh & Hfin & _).
  assert (Hu1 : slot w1 self "_users" = Some (VRef d))
    by (unfold slot in *; rewrite Hh; exact Hu).
  destruct (edit_finish_shares env self data w1 s w' (VRef d) Hu1 Hfin)
    as (Hle & Hs & Hf & Hsu).
  rewrite Hh in Hle, Hf.
  assert (Hself : slot w' self "_users" = Some (VRef d))
    by exact (slot_framed w w' self "_users" _ Hf Hu).
  assert (Hd' : heap w' !! d = Some (Dict m))
    by exact (framed_lookup _ _ _ _ Hf Hd).
  assert (Hlt : (self < length (heap w))%nat).
  { unfold slot in Hu. destruct (heap w !! self) eqn:E; [|discriminate].
    eapply lookup_lt_Some. exact E. }
  split; [lia|]. split; [apply lookup_ge_None; lia|]. split; [exact Hs|].
  split; [exact Hself|]. split; [exact Hsu|].
  split; [unfold subscribers; rewrite Hsu, Hd'; reflexivity|].
  intros user. split.
  - exact (_add_user_shared w' s self d m user Hsu Hself Hd').
  - exact (_add_user_shared w' self s d m user Hself Hsu Hd').
Qed.

Lemma edit_shares_the_subscriber_cache_witness :
  let w' := snd (edit scripted 0%nat rename (voice_world echo)) in
  let bob := {| user_id := 6; user_data := {["id" := JInt 6]} |} in
  2%nat <> 0%nat /\
  slot w' 0%nat "_users" = Some (VRef 1%nat) /\
  slot w' 2%nat "_users" = Some (VRef 1%nat) /\
  subscribers (snd (_add_user 2%nat bob w')) 0%nat
    = Some (<[6 := VUser bob]> {[5 := VUser alice]}).
Proof.
  intros w' bob.
  destruct (edit_shares_the_subscriber_cache scripted (voice_world echo) w'
              0%nat 2%nat rename 1%nat {[5 := VUser alice]})
    as (Hne & _ & _ & Hself & Hs & _ & Hadd);
    [vm_compute; reflexivity..|].
  split; [exact Hne|]. split; [exact Hself|]. split; [exact Hs|].
  exact (proj2 (proj1 (Hadd bob))).
Defined.

Lemma bind_pure_ext {T A B} (m : Py T A) (k1 k2 : A -> Py T B) (w : World T) :
  pure m -> (forall a, k1 a w = k2 a w) -> bind m k1 w = bind m k2 w.
Proof.
  intros Hm H. rewrite !bind_eq, (pure_run _ w Hm).
  destruct (fst (m w)); auto.
Qed.

(** On a voice or stage event whose type the call does not change, the
    checks of [edit] never look at [end_time]: whatever is passed for it,
    they end the same way and build the same payload. *)
Lemma edit_payload_skips_end_time {T} (env : Collaborators T) (w : World T)
    self a x y et :
  Kw.entity_type a = VMissing ->
  slot w self "entity_type" = Some et ->
  eq_member et (member EntityType "stage_instance" 1)
    || eq_member et (member EntityType "voice" 2) = true ->
  edit_payload env self (with_end_time a x) w
    = edit_payload env self (with_end_time a y) w.
Proof.
  intros Hmissing Het Hvoice.
  unfold edit_payload, with_end_time.
  cbn [Kw.name Kw.description Kw.channel Kw.start_time Kw.end_time
       Kw.privacy_level Kw.entity_type Kw.status Kw.image Kw.location Kw.reason].
  rewrite Hmissing. cbn [truthy].
  do 5 (apply bind_pure_ext;
        [unfold enum_argument, attr_tzinfo, call_isoformat, attr_value;
         pure_steps; fail
        |intros ?]).
  rewrite !bind_eq, (getattr_of_slot w self "entity_type" et) by (by_compute || done).
  rewrite Hvoice. reflexivity.
Qed.

(** C3 (the code departs from it).  The zone of [end_time] is only looked
    at in the branch for an external event.  On a voice event,
    [edit(channel=Object(30), end_time=naive)] raises nothing: the transport
    is called, with a payload that does not even carry the end time, and a
    proxy is returned.  The same naive datetime given as [start_time] is
    refused with [ValueError] before any call, and so is it as [end_time]
    when the event is external. *)
Theorem edit_accepts_naive_end_time_on_voice :
  slot (voice_world echo) 0%nat "entity_type"
    = Some (VEnum (Member "EntityType" "voice" 2)) /\
  (let '(r, w') := edit scripted 0%nat naive_end_time (voice_world echo) in
   r = Ok 2%nat /\
   exists p,
     http_log w' = [edit_scheduled_event (VData (JInt 20)) (VData (JInt 10)) p VNone] /\
     p !! "channel_id" = Some (VData (JInt 30)) /\
     p !! "scheduled_end_time" = None) /\
  edit scripted 0%nat naive_start_time (voice_world echo)
    = (Raise (ValueError start_time_naive), voice_world echo) /\
  edit scripted 0%nat naive_end_time_external (voice_world echo)
    = (Raise (ValueError end_time_naive), voice_world echo).
Proof.
  split; [vm_compute; reflexivity|].
  split; [|split; vm_compute; reflexivity].
  vm_compute. split; [reflexivity|].
  eexists. split; [reflexivity|]. split; reflexivity.
Qed.

(** ** What hydration does with the [status] key *)

(** [try_enum] keeps the raw code. *)
Lemma try_enum_value c val : enum_value (try_enum c val) = val.
Proof.
  unfold try_enum. destruct val; try reflexivity.
  destruct (List.find _ _) as [[n code]|] eqn:E; [|reflexivity].
  apply List.find_some in E as [_ E]. simpl in *.
  apply Z.eqb_eq in E. subst. reflexivity.
Qed.

Section Status.
Context {T : Type} (env : Collaborators T).
Implicit Types (w : World T).

Lemma hoare_setattr_sets (P : World T -> Prop) self name v :
  hoare P (setattr self name v) (fun _ w => slot w self name = Some v)
        (fun _ => True).
Proof.
  intros w _. destruct (setattr self name v w) as [r w'] eqn:E.
  apply setattr_spec in E as [(slots & -> & Hs & _ & ->)|(e & -> & ->)]; [|done].
  apply slot_written. exact Hs.
Qed.

(** Assigning one slot leaves another slot, of this or another object, as
    it was. *)
Lemma hoare_setattr_keeps other self name name' x v :
  other <> self \/ name <> name' ->
  hoare (fun w => slot w other name' = Some x) (@setattr T self name v)
        (fun _ w => slot w other name' = Some x)
        (fun w => slot w other name' = Some x).
Proof.
  intros Hne w Hw. destruct (setattr self name v w) as [r w'] eqn:E.
  apply setattr_spec in E as [(slots & -> & Hs & _ & ->)|(e & -> & ->)]; [|done].
  destruct (decide (self = other)) as [->|Hloc].
  - destruct Hne as [Hne|Hne]; [done|].
    rewrite slot_other_name by done. exact Hw.
  - rewrite slot_other_loc by done. exact Hw.
Qed.

Lemma slot_heap_assertion other name x :
  heap_assertion (fun w : World T => slot w other name = Some x).
Proof. intros w w' Hh. unfold slot. rewrite Hh. auto. Qed.

Lemma mirrors_heap_assertion data self :
  heap_assertion (fun w : World T => mirrors data self w).
Proof.
  intros w w' Hh (H0 & H1 & H2). unfold mirrors, slot in *.
  rewrite Hh. auto.
Qed.

(** Assignments to other slots, or to other objects, keep [mirrors]. *)
Lemma hoare_setattr_mirrors data other self name v :
  other <> self \/ (name <> "privacy_level" /\ name <> "status") ->
  hoare (mirrors data other) (@setattr T self name v)
        (fun _ => mirrors data other) (mirrors data other).
Proof.
  intros Hne w (H0 & H1 & H2).
  pose proof (hoare_setattr_keeps other self name "privacy_level" _ v
                ltac:(tauto) w H1) as K1.
  pose proof (hoare_setattr_keeps other self name "status" _ v
                ltac:(tauto) w H2) as K2.
  destruct (setattr self name v w) as [[[]|e] w']; repeat split; assumption.
Qed.

(** Hydration, when it returns, has decoded both [privacy_level] and
    [status] from [data['status']]. *)
Lemma _update_mirrors self data :
  hoare (fun _ => True) (_update env self data)
        (fun _ => mirrors data self) (fun _ => True).
Proof.
  unfold _update.
  do 17 (eapply hoare_bind; [apply hoare_any|intros ?]).
  eapply hoare_bind; [apply hoare_lift_eq|intros st].
  apply (hoare_fact _ (getitem data "status" = Ok st)); [tauto|intros Hst].
  assert (Hdata : data !! "status" = Some st).
  { unfold getitem in Hst. destruct (data !! "status"); congruence. }
  eapply hoare_bind; [apply hoare_setattr_sets|intros ?].
  rewrite Hst.
  eapply hoare_bind; [apply hoare_lift_eq|intros st'].
  apply (hoare_fact _ (st = st')); [intros w [H _]; congruence|intros <-].
  set (X := VEnum (try_enum PrivacyLevel st)).
  set (Y := VEnum (try_enum EventStatus st)).
  apply (hoare_bind _ _ _
           (fun _ w => slot w self "privacy_level" = Some X /\
                       slot w self "status" = Some Y)).
  { intros w [_ Hp].
    pose proof (hoare_setattr_keeps self self "status" "privacy_level" X Y
                  ltac:(right; discriminate) w Hp) as K1.
    pose proof (hoare_setattr_sets (fun _ => True) self "status" Y w I) as K2.
    destruct (setattr self "status" Y w) as [[[]|e] w']; auto. }
  intros ?.
  apply (hoare_conseq _ (mirrors data self) _ _ (fun _ => mirrors data self) _
           (mirrors data self)); [| |auto|auto].
  2:{ intros w [H1 H2]. unfold mirrors, get. rewrite Hdata. simpl. eauto. }
  assert (Hstore : forall j, hoare (mirrors data self) (@store_user T j)
                               (fun _ => mirrors data self) (mirrors data self))
    by (intros; apply hoare_store_user, mirrors_heap_assertion).
  unfold _unroll_metadata.
  repeat first
    [ apply hoare_ret | apply hoare_raise | apply hoare_lift | apply Hstore
    | apply hoare_setattr_mirrors; right; split; discriminate
    | apply hoare_pure; pure_steps; fail
    | eapply hoare_bind; [|intros]
    | match goal with
      | |- hoare _ (if ?b then _ else _) _ _ => destruct b
      | |- hoare _ (match ?x with _ => _ end) _ _ => destruct x
      end ].
Qed.

Lemma ScheduledEvent_mirrors data :
  hoare (fun _ => True) (ScheduledEvent env data)
        (fun s => mirrors data s) (fun _ => True).
Proof.
  unfold ScheduledEvent, __init__.
  eapply hoare_bind; [apply hoare_any|intros self].
  eapply hoare_bind; [|intros ? w Hw; exact Hw].
  do 3 (eapply hoare_bind; [apply hoare_any|intros ?]).
  apply _update_mirrors.
Qed.

Lemma edit_finish_mirrors self data w s w' :
  edit_finish env self data w = (Ok s, w') -> mirrors data s w'.
Proof.
  unfold edit_finish.
  rewrite bind_eq, (pure_run _ w (pure_getattr self "_state")).
  destruct (fst (getattr self "_state" w)); [|discriminate].
  rewrite bind_eq.
  pose proof (ScheduledEvent_mirrors data w I) as Hm.
  destruct (ScheduledEvent env data w) as [[s0|e] w1]; [|discriminate].
  rewrite bind_eq, (pure_run _ w1 (pure_getattr self "_users")).
  destruct (fst (getattr self "_users" w1)) as [u|]; [|discriminate].
  rewrite bind_eq.
  pose proof (hoare_setattr_mirrors data s0 s0 "_users" u
                ltac:(right; split; discriminate) w1 Hm) as K.
  destruct (setattr s0 "_users" u w1) as [[[]|e] w2]; [|discriminate].
  inversion 1; subst. exact K.
Qed.

End Status.

Lemma mirrors_decoded {T} data p (w : World T) :
  mirrors data p w -> decoded_from_status data p w.
Proof.
  intros ([st Hst] & Hp & Hs). unfold get in *. rewrite Hst in *. simpl in *.
  exists st, (try_enum PrivacyLevel st), (try_enum EventStatus st).
  repeat split; auto using try_enum_value.
Qed.

(** C9.  After every hydration that returns (re-hydration by [_update],
    construction, and the proxy [edit] builds from the reply of the
    service) [privacy_level] and [status] are both decoded from the
    payload's [status] key and carry the same raw code; a [privacy_level]
    key in the payload changes nothing. *)
Theorem privacy_level_is_decoded_from_status {T} (env : Collaborators T) :
  (forall self data (w w' : World T),
     _update env self data w = (Ok tt, w') ->
     decoded_from_status data self w') /\
  (forall data s (w w' : World T),
     ScheduledEvent env data w = (Ok s, w') ->
     decoded_from_status data s w') /\
  (forall self a s (w w' : World T),
     edit env self a w = (Ok s, w') ->
     exists g i p data,
       fst (http_edit env g i p (Kw.reason a) (remote w)) = Ok data /\
       decoded_from_status data s w') /\
  (forall self data j,
     _update env self (<["privacy_level" := j]> data) = _update env self data).
Proof.
  split; [|split; [|split]].
  - intros self data w w' H. apply mirrors_decoded.
    pose proof (_update_mirrors env self data w I) as Hm.
    rewrite H in Hm. exact Hm.
  - intros data s w w' H. apply mirrors_decoded.
    pose proof (ScheduledEvent_mirrors env data w I) as Hm.
    rewrite H in Hm. exact Hm.
  - intros self a s w w' H.
    apply edit_Ok_inv in H as (data & w1 & _ & Hfin & (g & i & p & Hreply)).
    exists g, i, p, data. split; [exact Hreply|].
    apply mirrors_decoded. exact (edit_finish_mirrors env self data w1 s w' Hfin).
  - intros. apply _update_ignores. by_compute.
Qed.

Lemma privacy_level_is_decoded_from_status_witness :
  decoded_from_status payload_with_privacy_level 0%nat
    (snd (ScheduledEvent scripted payload_with_privacy_level (empty_world quiet))) /\
  (exists pl,
     slot (snd (ScheduledEvent scripted payload_with_privacy_level
                  (empty_world quiet))) 0%nat "privacy_level"
       = Some (VEnum pl) /\
     payload_with_privacy_level !! "privacy_level" = Some (JInt 2) /\
     enum_value pl = JInt 1) /\
  exists data,
    decoded_from_status data 2%nat
      (snd (edit scripted 0%nat rename (voice_world echo))).
Proof.
  destruct (privacy_level_is_decoded_from_status scripted) as (_ & Hnew & Hedit & _).
  split; [|split].
  - apply (Hnew _ _ (empty_world quiet)). vm_compute. reflexivity.
  - eexists. split; [vm_compute; reflexivity|]. split; vm_compute; reflexivity.
  - destruct (Hedit 0%nat rename 2%nat (voice_world echo)
                (snd (edit scripted 0%nat rename (voice_world echo))))
      as (g & i & p & data & Hreply & Hd); [vm_compute; reflexivity|].
    exists data. exact Hd.
Defined.

(** ** The paginator: what a round does to the world *)

Section Rounds.
Context {T : Type} (env : Collaborators T).
Implicit Types (w : World T).

Lemma pure_advance users pick state limit : pure (@advance T users pick state limit).
Proof. unfold advance. pure_steps. Qed.

(** A strategy makes at most one call, through its own keyword, and touches
    neither the heap nor the user cache. *)
Lemma strategy_effect reverse self retrieve state limit w :
  let w1 := snd (strategy env reverse self retrieve state limit w) in
  heap w1 = heap w /\ _users_cache w1 = _users_cache w /\
  ((http_log w1 = http_log w /\ remote w1 = remote w /\
    exists e, fst (strategy env reverse self retrieve state limit w) = Raise e) \/
   exists g i,
     http_log w1 = http_log w ++
       [get_scheduled_event_users g i retrieve false (cursor_of reverse state)]).
Proof.
  assert (H : forall kw,
    let m := (getattr self "_state" ;;
              guild_id <- getattr self "guild_id" ;;
              event_id <- getattr self "id" ;;
              users <- call_get_scheduled_event_users env guild_id event_id
                         retrieve false kw ;;
              advance users (if reverse then head else last) state limit) in
    let w1 := snd (m w) in
    heap w1 = heap w /\ _users_cache w1 = _users_cache w /\
    ((http_log w1 = http_log w /\ remote w1 = remote w /\
      exists e, fst (m w) = Raise e) \/
     exists g i, http_log w1 = http_log w ++
                   [get_scheduled_event_users g i retrieve false kw])).
  { intros kw. cbv zeta.
    rewrite bind_eq, (pure_run _ w (pure_getattr self "_state")).
    destruct (fst (getattr self "_state" w)); [|simpl; eauto 7].
    rewrite bind_eq, (pure_run _ w (pure_getattr self "guild_id")).
    destruct (fst (getattr self "guild_id" w)) as [g|]; [|simpl; eauto 7].
    rewrite bind_eq, (pure_run _ w (pure_getattr self "id")).
    destruct (fst (getattr self "id" w)) as [i|]; [|simpl; eauto 7].
    rewrite bind_eq. unfold call_get_scheduled_event_users.
    destruct (http_get_users env g i retrieve false kw (remote w)) as [[b|e] t];
      [|simpl; split; [|split]; [reflexivity..|right; eauto]].
    rewrite (pure_run _ _ (pure_advance b _ state limit)). simpl.
    split; [|split]; [reflexivity..|right; eauto]. }
  destruct reverse; exact (H _).
Qed.

Lemma store_user_effect j w :
  let w1 := snd (@store_user T j w) in
  heap w1 = heap w /\ http_log w1 = http_log w /\ remote w1 = remote w /\
  (cache_wf w -> cache_wf w1) /\
  (forall v, fst (store_user j w) = Ok v -> cache_wf w ->
     exists u o x, v = VUser u /\ j = JObj o /\ o !! "id" = Some x /\
                   int x = Ok (user_id u)).
Proof.
  unfold store_user. destruct j; try (simpl; repeat split; auto; discriminate).
  unfold bind, lift, getitem.
  destruct (o !! "id") as [x|] eqn:Hx; [|simpl; repeat split; auto; discriminate].
  destruct (int x) as [uid|e] eqn:Hi; [|simpl; repeat split; auto; discriminate].
  destruct (_users_cache w !! uid) as [u|] eqn:Hc; simpl.
  - repeat split; auto. intros v [= <-] Hwf.
    exists u, o, x. rewrite (Hwf uid u Hc). auto.
  - repeat split; auto.
    + intros Hwf k u. simpl. destruct (decide (uid = k)) as [->|Hne].
      * rewrite lookup_insert_eq. intros [= <-]. reflexivity.
      * rewrite lookup_insert_ne by done. apply Hwf.
    + intros v [= <-] _. eexists _, o, x. simpl. auto.
Qed.

End Rounds.

Section Traversal.
Context {T : Type} (env : Collaborators T).
Implicit Types (w : World T).

Lemma apply_predicate_true p raw user o x :
  apply_predicate p raw = Ok true ->
  subscript raw "user" = Ok user -> user = JObj o -> o !! "id" = Some x ->
  exists a, x = JInt a /\
    match p with id_lt b => a < b | id_gt c => c < a end.
Proof.
  unfold apply_predicate, raw_user_id. intros H Hu -> Hx.
  rewrite Hu in H. simpl in H. unfold getitem in H. rewrite Hx in H.
  destruct p, x; simpl in H; try discriminate;
    injection H as H; apply Z.ltb_lt in H; eauto.
Qed.

(** Yielding a batch: no call, no write to the heap, and every user yielded
    passed the filter. *)
Lemma emit_effect self predicate data w :
  let '((ys, r), w') := emit self predicate data w in
  heap w' = heap w /\ http_log w' = http_log w /\ remote w' = remote w /\
  (cache_wf w -> cache_wf w' /\ Forall (passes predicate) ys).
Proof.
  revert w. induction data as [|raw rest IH]; intros w; simpl.
  { repeat split; auto. }
  destruct (match predicate with
            | Some p => apply_predicate p raw
            | None => Ok true
            end) as [[|]|e] eqn:Hkeep; [|exact (IH w)|repeat split; auto].
  rewrite bind_eq, (pure_run _ w (pure_getattr self "_state")).
  destruct (fst (getattr self "_state" w)); [|repeat split; auto].
  unfold bind at 1, lift at 1.
  destruct (subscript raw "user") as [user|e] eqn:Hu; [|repeat split; auto].
  destruct (store_user_effect user w) as (Hh & Hl & Hr & Hwf & Hv).
  destruct (store_user user w) as [[v|e] w1]; simpl in *; [|repeat split; auto].
  specialize (IH w1).
  destruct (emit self predicate rest w1) as [[ys r] w2].
  destruct IH as (Hh2 & Hl2 & Hr2 & Hwf2).
  split; [congruence|]. split; [congruence|]. split; [congruence|].
  intros Hc. split; [apply Hwf2; auto|].
  - constructor; [|apply Hwf2; auto].
    destruct (Hv v eq_refl Hc) as (u & o & x & -> & -> & Hx & Hint).
    destruct predicate as [p|]; [|exact I].
    destruct (apply_predicate_true p raw _ o x Hkeep Hu eq_refl Hx)
      as (n & -> & Ha).
    simpl in Hint. injection Hint as Hint.
    destruct p; simpl; exists u; (split; [reflexivity|lia]).
Qed.

(** The whole traversal: the heap is not written; every call goes through
    the keyword of the direction, the first with the boundary given; and
    every user yielded passed the filter. *)
Lemma users_loop_effect fuel self reverse predicate state limit w :
  let '((ys, r), w') := users_loop env fuel self reverse predicate state limit w in
  heap w' = heap w /\
  (cache_wf w -> cache_wf w' /\ Forall (passes predicate) ys) /\
  exists calls,
    http_log w' = http_log w ++ calls /\ Forall (through reverse) calls /\
    (calls = [] \/
     exists g i n rest,
       calls = get_scheduled_event_users g i n false (cursor_of reverse state)
               :: rest).
Proof.
  revert state limit w.
  induction fuel as [|fuel IH]; intros state limit w; simpl.
  { repeat split; auto. exists []. rewrite app_nil_r. auto. }
  destruct (Z.min _ 100 <? 1)%Z.
  { repeat split; auto. exists []. rewrite app_nil_r. auto. }
  set (retrieve := Z.min _ 100).
  pose proof (strategy_effect env reverse self retrieve state limit w) as Hs.
  unfold strategy in Hs. cbv zeta in Hs.
  destruct ((if reverse then _after_strategy env else _before_strategy env)
              self retrieve state limit w) as [[[[data state'] limit']|e] w1];
    simpl in Hs; destruct Hs as (Hh1 & Hc1 & Hlog1).
  2:{ split; [exact Hh1|]. split.
      - intros Hwf. split; [|constructor]. intros k u. rewrite Hc1. apply Hwf.
      - destruct Hlog1 as [(Hl & _)|(g & i & Hl)].
        + exists []. rewrite app_nil_r. auto.
        + eexists. split; [exact Hl|]. split; [|right; eauto].
          constructor; [|constructor]. destruct reverse; exact I. }
  set (data' := if reverse then rev data else data).
  set (limit'' := if (Z.of_nat (length data) <? 100)%Z then Some 0 else limit').
  pose proof (emit_effect self predicate data' w1) as He.
  destruct (emit self predicate data' w1) as [[ys oe] w2].
  destruct He as (Hh2 & Hl2 & Hr2 & Hwf2).
  assert (Hwf1 : cache_wf w -> cache_wf w1).
  { intros Hwf k u. rewrite Hc1. apply Hwf. }
  assert (Hcalls1 : exists g i,
            http_log w2 = http_log w ++
              [get_scheduled_event_users g i retrieve false
                 (cursor_of reverse state)]).
  { rewrite Hl2. destruct Hlog1 as [(_ & _ & e & He)|Hl]; [discriminate|exact Hl]. }
  destruct Hcalls1 as (g & i & Hl1).
  assert (Hthrough : through reverse
            (get_scheduled_event_users g i retrieve false (cursor_of reverse state)))
    by (destruct reverse; exact I).
  destruct oe as [e|].
  { split; [congruence|]. split; [intros Hwf; apply Hwf2; auto|].
    eexists. split; [exact Hl1|]. split; [|right; eauto].
    constructor; [exact Hthrough|constructor]. }
  specialize (IH state' limit'' w2).
  destruct (users_loop env fuel self reverse predicate state' limit'' w2)
    as [[ys' r] w3].
  destruct IH as (Hh3 & Hwf3 & (calls3 & Hl3 & Hall3 & _)).
  split; [congruence|]. split.
  - intros Hwf. destruct (Hwf2 (Hwf1 Hwf)) as [Hw2 Hys].
    destruct (Hwf3 Hw2) as [Hw3 Hys']. split; [exact Hw3|].
    apply Forall_app. auto.
  - eexists (_ :: calls3). rewrite Hl3, Hl1, <- app_assoc.
    split; [reflexivity|]. split; [constructor; auto|right; eauto].
Qed.

End Traversal.

Section Users.
Context {T : Type} (env : Collaborators T).
Implicit Types (w : World T).

(** [users], consumed with any step budget: the calls it makes and the
    users it yields. *)
Lemma users_effect self limit before after oldest_first fuel w :
  let reverse := direction oldest_first after in
  let '((ys, r), w') := users env self limit before after oldest_first fuel w in
  heap w' = heap w /\
  (cache_wf w -> Forall (passes (choose_predicate reverse before after)) ys) /\
  exists calls,
    http_log w' = http_log w ++ calls /\ Forall (through reverse) calls /\
    (calls = [] \/
     exists g i n rest,
       calls = get_scheduled_event_users g i n false
                 (cursor_of reverse (if reverse then after else before)) :: rest).
Proof.
  intros reverse. unfold users. fold reverse.
  set (start := match limit with
                | None => _
                | Some l => ret (Some l)
                end).
  assert (Hstart : pure start) by (subst start; destruct limit; pure_steps).
  rewrite (pure_run _ w Hstart).
  destruct (fst (start w)) as [limit'|e].
  - pose proof (users_loop_effect env fuel self reverse
                  (choose_predicate reverse before after)
                  (if reverse then after else before) limit' w) as H.
    destruct (users_loop env fuel self reverse _ _ limit' w) as [[ys r] w'].
    destruct H as (Hh & Hys & Hcalls). split; [exact Hh|]. split; [|exact Hcalls].
    intros Hwf. apply Hys. exact Hwf.
  - split; [reflexivity|]. split; [constructor|].
    exists []. rewrite app_nil_r. auto.
Qed.

End Users.

Section FirstCall.
Context {T : Type} (env : Collaborators T).
Implicit Types (w : World T).

(** On a hydrated proxy a strategy reaches the transport, whatever the
    service answers: its call is recorded with the cursor it was given. *)
Lemma strategy_calls reverse self retrieve state limit w st g i :
  slot w self "_state" = Some st -> slot w self "guild_id" = Some g ->
  slot w self "id" = Some i ->
  http_log (snd (strategy env reverse self retrieve state limit w))
    = http_log w ++
        [get_scheduled_event_users g i retrieve false (cursor_of reverse state)].
Proof.
  intros Hst Hg Hi.
  assert (H : forall kw pick,
    http_log (snd ((getattr self "_state" ;;
                    guild_id <- getattr self "guild_id" ;;
                    event_id <- getattr self "id" ;;
                    users <- call_get_scheduled_event_users env guild_id event_id
                               retrieve false kw ;;
                    advance users pick state limit) w))
    = http_log w ++ [get_scheduled_event_users g i retrieve false kw]).
  { intros kw pick.
    rewrite bind_eq, (getattr_of_slot w self "_state" st) by (by_compute || done).
    rewrite bind_eq, (getattr_of_slot w self "guild_id" g) by (by_compute || done).
    rewrite bind_eq, (getattr_of_slot w self "id" i) by (by_compute || done).
    rewrite bind_eq. unfold call_get_scheduled_event_users.
    destruct (http_get_users env g i retrieve false kw (remote w)) as [[b|e] t];
      [|reflexivity].
    rewrite (pure_run _ _ (pure_advance b pick state limit)).
    destruct (fst (advance b pick state limit _)); reflexivity. }
  unfold strategy, cursor_of.
  destruct reverse; unfold _after_strategy, _before_strategy; apply H.
Qed.

(** The first round of the loop, when there is something to ask for: its
    request is recorded first, and what follows keeps to the keyword of the
    direction. *)
Lemma users_loop_first_call fuel self reverse predicate state limit w st g i :
  slot w self "_state" = Some st -> slot w self "guild_id" = Some g ->
  slot w self "id" = Some i -> 1 <= batch_size limit ->
  exists rest,
    http_log (snd (users_loop env (S fuel) self reverse predicate state limit w))
      = http_log w ++
          get_scheduled_event_users g i (batch_size limit) false
            (cursor_of reverse state) :: rest /\
    Forall (through reverse) rest.
Proof.
  intros Hst Hg Hi Hn.
  pose proof (strategy_calls reverse self (batch_size limit) state limit w
                st g i Hst Hg Hi) as Hcall.
  change (users_loop env (S fuel) self reverse predicate state limit w)
    with (if (batch_size limit <? 1)%Z then (([], Exhausted), w)
          else
            match strategy env reverse self (batch_size limit) state limit w with
            | (Raise e, w1) => (([], Raised e), w1)
            | (Ok (data, state, limit), w1) =>
                let limit :=
                  if (Z.of_nat (length data) <? 100)%Z then Some 0 else limit in
                let data := if reverse then rev data else data in
                match emit self predicate data w1 with
                | ((ys, Some e), w2) => ((ys, Raised e), w2)
                | ((ys, None), w2) =>
                    let '((ys', r), w3) :=
                      users_loop env fuel self reverse predicate state limit w2 in
                    ((ys ++ ys', r), w3)
                end
            end).
  replace (batch_size limit <? 1) with false by (symmetry; apply Z.ltb_ge; lia).
  destruct (strategy env reverse self (batch_size limit) state limit w)
    as [[[[data state'] limit']|e] w1]; cbn [snd] in Hcall.
  2:{ exists []. split; [exact Hcall|constructor]. }
  cbv zeta.
  pose proof (emit_effect self predicate (if reverse then rev data else data) w1)
    as He.
  destruct (emit self predicate (if reverse then rev data else data) w1)
    as [[ys oe] w2].
  destruct He as (_ & Hl2 & _).
  destruct oe as [e|].
  { exists []. cbn [snd]. rewrite Hl2. split; [exact Hcall|constructor]. }
  pose proof (users_loop_effect env fuel self reverse predicate state'
                (if (Z.of_nat (length data) <? 100)%Z then Some 0 else limit') w2)
    as Hrest.
  destruct (users_loop env fuel self reverse predicate state' _ w2)
    as [[ys' r] w3].
  destruct Hrest as (_ & _ & calls & Hl3 & Hall & _).
  exists calls. cbn [snd]. rewrite Hl3, Hl2, Hcall, <- app_assoc.
  split; [reflexivity|exact Hall].
Qed.

(** The same for [users]: on a hydrated proxy, consumed for a round at
    least and with something to ask for, the first request carries the
    boundary of the direction. *)
Lemma users_first_call self limit before after oldest_first fuel w
    st g i uc dflt :
  slot w self "_state" = Some st -> slot w self "guild_id" = Some g ->
  slot w self "id" = Some i -> slot w self "user_count" = Some uc ->
  default_limit uc = Ok dflt ->
  1 <= batch_size (match limit with Some l => Some l | None => dflt end) ->
  (1 <= fuel)%nat ->
  let reverse := direction oldest_first after in
  exists rest,
    http_log (snd (users env self limit before after oldest_first fuel w))
      = http_log w ++
          get_scheduled_event_users g i
            (batch_size (match limit with Some l => Some l | None => dflt end))
            false (cursor_of reverse (if reverse then after else before))
          :: rest /\
    Forall (through reverse) rest.
Proof.
  intros Hst Hg Hi Huc Hdflt Hn Hfuel reverse.
  destruct fuel as [|fuel]; [lia|].
  assert (Hstart :
    users env self limit before after oldest_first (S fuel) w
    = users_loop env (S fuel) self reverse
        (choose_predicate reverse before after)
        (if reverse then after else before)
        (match limit with Some l => Some l | None => dflt end) w).
  { unfold users. fold reverse. destruct limit as [l|]; [reflexivity|].
    rewrite bind_eq.
    rewrite (getattr_of_slot w self "user_count" uc) by (by_compute || exact Huc).
    unfold lift. rewrite Hdflt. reflexivity. }
  rewrite Hstart.
  apply (users_loop_first_call fuel self reverse _ _ _ w st g i Hst Hg Hi Hn).
Qed.

End FirstCall.

(** C7.  With [oldest_first] unspecified and an [after] boundary given,
    every batch request of the traversal passes its boundary as [after],
    and the first one passes the id of the boundary given; with
    [oldest_first] set, every request goes through [after] when it is true
    and through [before] when it is false, whatever boundaries are given;
    with neither [oldest_first] nor [after], every request goes through
    [before].  This holds of every invocation.  And the requests are made:
    on a hydrated proxy, consumed for one round at least and with a limit
    (or, in its place, a user count) that leaves a user to ask for, the
    traversal starts with a request for the batch size that passes the
    boundary given through the keyword of its direction. *)
Theorem users_direction_follows_oldest_first_then_after {T}
    (env : Collaborators T) (w : World T) (self : loc) (limit : option Z)
    (before after : option Object) (fuel : nat) :
  ((forall a, exists calls,
      http_log (snd (users env self limit before (Some a) None fuel w))
        = http_log w ++ calls /\
      Forall through_after calls /\
      (calls = [] \/
       exists g i n rest,
         calls = get_scheduled_event_users g i n false (after_kw (Some (oid a)))
                 :: rest)) /\
   (exists calls,
      http_log (snd (users env self limit before after (Some true) fuel w))
        = http_log w ++ calls /\
      Forall through_after calls) /\
   (exists calls,
      http_log (snd (users env self limit before after (Some false) fuel w))
        = http_log w ++ calls /\
      Forall through_before calls) /\
   (exists calls,
      http_log (snd (users env self limit before None None fuel w))
        = http_log w ++ calls /\
      Forall through_before calls)) /\
  (forall st g i uc dflt,
     slot w self "_state" = Some st -> slot w self "guild_id" = Some g ->
     slot w self "id" = Some i -> slot w self "user_count" = Some uc ->
     default_limit uc = Ok dflt ->
     let n := batch_size (match limit with Some l => Some l | None => dflt end) in
     1 <= n -> (1 <= fuel)%nat ->
     (forall a, exists rest,
        http_log (snd (users env self limit before (Some a) None fuel w))
          = http_log w ++
              get_scheduled_event_users g i n false (after_kw (Some (oid a)))
              :: rest /\
        Forall through_after rest) /\
     (exists rest,
        http_log (snd (users env self limit before after (Some true) fuel w))
          = http_log w ++
              get_scheduled_event_users g i n false (after_kw (oid <$> after))
              :: rest /\
        Forall through_after rest) /\
     (exists rest,
        http_log (snd (users env self limit before after (Some false) fuel w))
          = http_log w ++
              get_scheduled_event_users g i n false (before_kw (oid <$> before))
              :: rest /\
        Forall through_before rest) /\
     (exists rest,
        http_log (snd (users env self limit before None None fuel w))
          = http_log w ++
              get_scheduled_event_users g i n false (before_kw (oid <$> before))
              :: rest /\
        Forall through_before rest)).
Proof.
  split.
  - split; [|split; [|split]].
    + intros a.
      pose proof (users_effect env self limit before (Some a) None fuel w) as H.
      destruct (users env self limit before (Some a) None fuel w) as [[ys r] w'].
      destruct H as (_ & _ & calls & Hl & Hall & Hfirst).
      exists calls. auto.
    + pose proof (users_effect env self limit before after (Some true) fuel w) as H.
      destruct (users env self limit before after (Some true) fuel w) as [[ys r] w'].
      destruct H as (_ & _ & calls & Hl & Hall & _). exists calls. auto.
    + pose proof (users_effect env self limit before after (Some false) fuel w) as H.
      destruct (users env self limit before after (Some false) fuel w) as [[ys r] w'].
      destruct H as (_ & _ & calls & Hl & Hall & _). exists calls. auto.
    + pose proof (users_effect env self limit before None None fuel w) as H.
      destruct (users env self limit before None None fuel w) as [[ys r] w'].
      destruct H as (_ & _ & calls & Hl & Hall & _). exists calls. auto.
  - intros st g i uc dflt Hst Hg Hi Huc Hdflt n Hn Hfuel.
    split; [|split; [|split]].
    + intros a.
      exact (users_first_call env self limit before (Some a) None fuel w
               st g i uc dflt Hst Hg Hi Huc Hdflt Hn Hfuel).
    + exact (users_first_call env self limit before after (Some true) fuel w
               st g i uc dflt Hst Hg Hi Huc Hdflt Hn Hfuel).
    + exact (users_first_call env self limit before after (Some false) fuel w
               st g i uc dflt Hst Hg Hi Huc Hdflt Hn Hfuel).
    + exact (users_first_call env self limit before None None fuel w
               st g i uc dflt Hst Hg Hi Huc Hdflt Hn Hfuel).
Qed.

Lemma users_direction_follows_oldest_first_then_after_witness :
  exists rest,
    http_log (snd (users scripted 0%nat None None (Some {| oid := 3 |}) None 5%nat
                     (voice_world two_batches)))
      = http_log (voice_world two_batches) ++
          get_scheduled_event_users (VData (JInt 20)) (VData (JInt 10)) 100 false
            (after_kw (Some 3)) :: rest /\
    Forall through_after rest.
Proof.
  destruct (users_direction_follows_oldest_first_then_after scripted
              (voice_world two_batches) 0%nat None None None 5%nat) as [_ H].
  destruct (H VState (VData (JInt 20)) (VData (JInt 10)) (VData (JInt 0)) None)
    as [Hafter _]; try (vm_compute; reflexivity).
  - vm_compute. discriminate.
  - lia.
  - exact (Hafter {| oid := 3 |}).
Defined.

(** On a run: [users(after=Object(3))] goes forward, and both of its calls
    carry their boundary as [after]. *)
Example users_after_goes_forward :
  http_log (snd (users scripted 0%nat None None (Some {| oid := 3 |}) None 5%nat
                   (voice_world two_batches)))
    = [get_scheduled_event_users (VData (JInt 20)) (VData (JInt 10)) 100 false
         (after_kw (Some 3));
       get_scheduled_event_users (VData (JInt 20)) (VData (JInt 10)) 100 false
         (after_kw (Some 1))].
Proof. vm_compute. reflexivity. Qed.

(** C4, as stated, fails: in a backward traversal with [before=Object(10)]
    the user 12 of an over-full batch is yielded. *)
Lemma backward_traversal_does_not_filter_before :
  direction None None = false /\
  fst (fst (users scripted 0%nat None (Some {| oid := 10 |}) None None 3%nat
              (voice_world over_fetching)))
    = [VUser (user_of 12); VUser (user_of 5)] /\
  ~ Forall (id_below 10)
      (fst (fst (users scripted 0%nat None (Some {| oid := 10 |}) None None 3%nat
                   (voice_world over_fetching)))).
Proof.
  assert (Hys : fst (fst (users scripted 0%nat None (Some {| oid := 10 |}) None
                            None 3%nat (voice_world over_fetching)))
                = [VUser (user_of 12); VUser (user_of 5)])
    by (vm_compute; reflexivity).
  split; [reflexivity|]. split; [exact Hys|].
  rewrite Hys. intros H.
  apply Forall_cons in H as [(u & Hu & Hlt) _].
  injection Hu as <-. simpl in Hlt. lia.
Qed.

(** C4, amended.  The client-side filter guards the boundary that is not
    the cursor.  On a world whose user cache files users under their ids:
    in a forward traversal with a [before] boundary every user yielded has
    an id strictly below that boundary's, whatever the batches contain; in
    a backward traversal with an [after] boundary other than the snowflake
    0 every user yielded has an id strictly above it. *)
Theorem users_filters_the_boundary_that_is_not_the_cursor {T}
    (env : Collaborators T) (w : World T) (self : loc) (limit : option Z)
    (before after : option Object) (oldest_first : option bool) (fuel : nat) :
  cache_wf w ->
  let ys := fst (fst (users env self limit before after oldest_first fuel w)) in
  (forall b, direction oldest_first after = true -> before = Some b ->
             Forall (id_below (oid b)) ys) /\
  (forall a, direction oldest_first after = false -> after = Some a ->
             oid a <> 0 -> Forall (id_above (oid a)) ys).
Proof.
  intros Hwf ys.
  pose proof (users_effect env self limit before after oldest_first fuel w) as H.
  subst ys.
  destruct (users env self limit before after oldest_first fuel w) as [[ys r] w'].
  destruct H as (_ & Hys & _). specialize (Hys Hwf). simpl.
  split.
  - intros b Hdir ->. rewrite Hdir in Hys. exact Hys.
  - intros a Hdir -> Ha. rewrite Hdir in Hys. simpl in Hys.
    rewrite bool_decide_eq_true_2 in Hys by exact Ha. exact Hys.
Qed.

Lemma users_filters_the_boundary_that_is_not_the_cursor_witness :
  let ys := fst (fst (users scripted 0%nat None (Some {| oid := 10 |}) None
                        (Some true) 3%nat (voice_world over_fetching))) in
  cache_wf (voice_world over_fetching) /\
  length ys = 1%nat /\ Forall (id_below 10) ys.
Proof.
  intros ys.
  assert (Hwf : cache_wf (voice_world over_fetching)).
  { intros k u H. vm_compute in H. discriminate. }
  split; [exact Hwf|]. split; [vm_compute; reflexivity|].
  destruct (users_filters_the_boundary_that_is_not_the_cursor scripted
              (voice_world over_fetching) 0%nat None (Some {| oid := 10 |}) None
              (Some true) 3%nat Hwf) as [Hfwd _].
  exact (Hfwd {| oid := 10 |} eq_refl eq_refl).
Defined.

(** ** The paginator against a service that answers in full batches *)

Section Batches.
Context {T : Type} (env : Collaborators T).
Implicit Types (w : World T).

Lemma is_subscriber_inv raw :
  is_subscriber raw = true ->
  exists o x z, subscript raw "user" = Ok (JObj o) /\ o !! "id" = Some x /\
                int x = Ok z /\ raw_user_id raw = Ok x.
Proof.
  unfold is_subscriber, raw_user_id.
  destruct (subscript raw "user") as [user|] eqn:Hu; [|discriminate].
  destruct user as [| | |o]; simpl; try discriminate.
  unfold getitem. destruct (o !! "id") as [x|] eqn:Hx; [|discriminate].
  destruct (int x) as [z|] eqn:Hz; [|discriminate]. eauto 8.
Qed.

Lemma advance_unbounded users (pick : list Json -> option Json) state w :
  (forall u, pick users = Some u -> u ∈ users) ->
  Forall (fun j => is_subscriber j = true) users ->
  exists state', advance users pick state None w = (Ok (users, state', None), w).
Proof.
  intros Hpick Hall. unfold advance.
  destruct (pick users) as [u|] eqn:Hp; [|eexists; reflexivity].
  rewrite Forall_forall in Hall.
  destruct (is_subscriber_inv u (Hall u (Hpick u eq_refl)))
    as (o & x & z & _ & _ & Hz & Hx).
  unfold bind, lift, new_Object. rewrite Hx, Hz. eexists. reflexivity.
Qed.

Lemma store_user_ok o x z w :
  o !! "id" = Some x -> int x = Ok z ->
  exists v w1, store_user (JObj o) w = (Ok v, w1) /\ heap w1 = heap w.
Proof.
  intros Hx Hz. unfold store_user, bind, lift, getitem. rewrite Hx, Hz.
  destruct (_users_cache w !! z); eexists _, _; split; reflexivity.
Qed.

(** With no filter, every record of a readable batch is yielded. *)
Lemma emit_all self data w st :
  slot w self "_state" = Some st ->
  Forall (fun j => is_subscriber j = true) data ->
  exists ys w',
    emit self None data w = ((ys, None), w') /\ length ys = length data.
Proof.
  revert w. induction data as [|raw rest IH]; intros w Hst Hall.
  { exists [], w. split; reflexivity. }
  apply Forall_cons in Hall as [Hraw Hrest].
  destruct (is_subscriber_inv raw Hraw) as (o & x & z & Hu & Hx & Hz & _).
  destruct (store_user_ok o x z w Hx Hz) as (v & w1 & Hstore & Hh).
  assert (Hst1 : slot w1 self "_state" = Some st).
  { unfold slot in *. rewrite Hh. exact Hst. }
  destruct (IH w1 Hst1 Hrest) as (ys & w' & Hemit & Hlen).
  exists (v :: ys), w'. simpl. rewrite bind_eq.
  rewrite (getattr_of_slot w self "_state" st) by (by_compute || exact Hst).
  unfold bind at 1, lift at 1. rewrite Hu, Hstore, Hemit.
  simpl. rewrite Hlen. auto.
Qed.

Lemma strategy_ok reverse self retrieve state w st g i b t' :
  slot w self "_state" = Some st -> slot w self "guild_id" = Some g ->
  slot w self "id" = Some i ->
  http_get_users env g i retrieve false (cursor_of reverse state) (remote w)
    = (Ok b, t') ->
  Forall (fun j => is_subscriber j = true) b ->
  exists state',
    strategy env reverse self retrieve state None w
    = (Ok (b, state', None),
       {| heap := heap w; _users_cache := _users_cache w; remote := t';
          http_log := http_log w ++
            [get_scheduled_event_users g i retrieve false
               (cursor_of reverse state)] |}).
Proof.
  intros Hst Hg Hi Hhttp Hall.
  unfold strategy, cursor_of in *.
  destruct reverse; unfold _after_strategy, _before_strategy;
    rewrite bind_eq, (getattr_of_slot w self "_state" st) by (by_compute || done);
    rewrite bind_eq, (getattr_of_slot w self "guild_id" g) by (by_compute || done);
    rewrite bind_eq, (getattr_of_slot w self "id" i) by (by_compute || done);
    rewrite bind_eq; unfold call_get_scheduled_event_users; rewrite Hhttp;
    apply advance_unbounded; try exact Hall; intros u Hu.
  - eapply head_Some_elem_of. exact Hu.
  - eapply last_Some_elem_of. exact Hu.
Qed.

Lemma users_loop_S fuel self reverse predicate state limit w :
  users_loop env (S fuel) self reverse predicate state limit w =
    let retrieve := Z.min (match limit with None => 100 | Some l => l end) 100 in
    if (retrieve <? 1)%Z then (([], Exhausted), w)
    else
      match strategy env reverse self retrieve state limit w with
      | (Raise e, w1) => (([], Raised e), w1)
      | (Ok (data, state, limit), w1) =>
          let limit :=
            if (Z.of_nat (length data) <? 100)%Z then Some 0 else limit in
          let data := if reverse then rev data else data in
          match emit self predicate data w1 with
          | ((ys, Some e), w2) => ((ys, Raised e), w2)
          | ((ys, None), w2) =>
              let '((ys', r), w3) :=
                users_loop env fuel self reverse predicate state limit w2 in
              ((ys ++ ys', r), w3)
          end
      end.
Proof. reflexivity. Qed.

(** One round against a service that answers with the readable batch [b]:
    one call, every record yielded, and the world is otherwise as it was. *)
Lemma round_ok reverse self state w st g i b t' :
  slot w self "_state" = Some st -> slot w self "guild_id" = Some g ->
  slot w self "id" = Some i ->
  http_get_users env g i 100 false (cursor_of reverse state) (remote w)
    = (Ok b, t') ->
  Forall (fun j => is_subscriber j = true) b ->
  exists state' ys w2 call,
    strategy env reverse self 100 state None w
      = (Ok (b, state', None),
         {| heap := heap w; _users_cache := _users_cache w; remote := t';
            http_log := http_log w ++ [call] |}) /\
    emit self None (if reverse then rev b else b)
      {| heap := heap w; _users_cache := _users_cache w; remote := t';
         http_log := http_log w ++ [call] |} = ((ys, None), w2) /\
    length ys = length b /\ heap w2 = heap w /\ remote w2 = t' /\
    http_log w2 = http_log w ++ [call].
Proof.
  intros Hst Hg Hi Hhttp Hall.
  destruct (strategy_ok reverse self 100 state w st g i b t' Hst Hg Hi Hhttp Hall)
    as (state' & Hstrat).
  set (w1 := {| heap := heap w; _users_cache := _users_cache w; remote := t';
                http_log := http_log w ++ _ |}) in *.
  assert (Hall' : Forall (fun j => is_subscriber j = true)
                    (if reverse then rev b else b)).
  { destruct reverse; [apply List.Forall_rev|]; exact Hall. }
  destruct (emit_all self _ w1 st Hst Hall') as (ys & w2 & Hemit & Hlen).
  pose proof (emit_effect self None (if reverse then rev b else b) w1) as He.
  rewrite Hemit in He. destruct He as (Hh & Hl & Hr & _).
  exists state', ys, w2, (get_scheduled_event_users g i 100 false
                            (cursor_of reverse state)).
  split; [exact Hstrat|]. split; [exact Hemit|].
  split; [|auto].
  rewrite Hlen. destruct reverse; [apply List.length_rev|reflexivity].
Qed.

Lemma users_loop_full_batches self reverse st g i full :
  forall short fuel state w,
    slot w self "_state" = Some st -> slot w self "guild_id" = Some g ->
    slot w self "id" = Some i ->
    Forall (fun b => length b = 100%nat) full -> (length short < 100)%nat ->
    Forall (Forall (fun j => is_subscriber j = true)) (full ++ [short]) ->
    serves env (full ++ [short]) (remote w) ->
    (length full + 2 <= fuel)%nat ->
    exists ys w' calls,
      users_loop env fuel self reverse None state None w
        = ((ys, Exhausted), w') /\
      length ys = (100 * length full + length short)%nat /\
      http_log w' = http_log w ++ calls /\
      length calls = S (length full).
Proof.
  induction full as [|b full IH];
    intros short fuel state w Hst Hg Hi Hfull Hshort Hsub Hserves Hfuel.
  - destruct fuel as [|[|fuel]]; try (simpl in Hfuel; lia).
    simpl in Hserves, Hsub.
    destruct (Hserves g i 100 false (cursor_of reverse state)) as (t' & Hhttp & _).
    apply Forall_cons in Hsub as [Hsub _].
    destruct (round_ok reverse self state w st g i short t' Hst Hg Hi Hhttp Hsub)
      as (state' & ys & w2 & call & Hstrat & Hemit & Hlen & Hh & Hr & Hl).
    exists ys, w2, [call].
    rewrite users_loop_S. cbv zeta.
    change (Z.min 100 100 <? 1)%Z with false. cbv iota.
    change (Z.min 100 100) with 100. rewrite Hstrat.
    replace (Z.of_nat (length short) <? 100)%Z with true
      by (symmetry; apply Z.ltb_lt; lia).
    rewrite Hemit. rewrite users_loop_S. cbv zeta.
    change (Z.min 0 100 <? 1)%Z with true. cbv iota.
    rewrite app_nil_r. simpl. auto.
  - destruct fuel as [|fuel]; [simpl in Hfuel; lia|].
    simpl in Hserves, Hsub.
    destruct (Hserves g i 100 false (cursor_of reverse state))
      as (t' & Hhttp & Hrest).
    apply Forall_cons in Hsub as [Hsubb Hsub].
    apply Forall_cons in Hfull as [Hb Hfull].
    destruct (round_ok reverse self state w st g i b t' Hst Hg Hi Hhttp Hsubb)
      as (state' & ys & w2 & call & Hstrat & Hemit & Hlen & Hh & Hr & Hl).
    assert (Hslots : forall name v, slot w self name = Some v ->
                                    slot w2 self name = Some v).
    { intros name v. unfold slot. rewrite Hh. auto. }
    rewrite <- Hr in Hrest.
    destruct (IH short fuel state' w2 (Hslots _ _ Hst) (Hslots _ _ Hg)
                (Hslots _ _ Hi) Hfull Hshort Hsub Hrest
                ltac:(simpl in Hfuel; lia))
      as (ys' & w' & calls & Hloop & Hlen' & Hl' & Hcalls).
    exists (ys ++ ys'), w', (call :: calls).
    rewrite users_loop_S. cbv zeta.
    change (Z.min 100 100 <? 1)%Z with false. cbv iota.
    change (Z.min 100 100) with 100. rewrite Hstrat.
    replace (Z.of_nat (length b) <? 100)%Z with false
      by (symmetry; apply Z.ltb_ge; lia).
    rewrite Hemit, Hloop. split; [reflexivity|].
    split; [rewrite length_app, Hlen, Hlen', Hb; simpl; lia|].
    split; [rewrite Hl', Hl, <- app_assoc; reflexivity|].
    simpl. rewrite Hcalls. reflexivity.
Qed.

End Batches.

(** C6.  A proxy whose [user_count] is falsy, a service that answers the
    batch requests with [k] batches of exactly 100 readable records and
    then one of 37, and a call with [limit=None] that installs no
    client-side filter (as when no boundary is given): consumed with any
    budget of at least [k + 2] rounds, the traversal ends by itself having
    yielded exactly [100 * k + 37] users and made exactly [k + 1] calls;
    the round after the short batch makes none. *)
Theorem users_unbounded_takes_every_batch {T} (env : Collaborators T)
    (w : World T) (self : loc) (full : list (list Json)) (short : list Json)
    (before after : option Object) (oldest_first : option bool) (fuel : nat)
    (st g i uc : Value) :
  slot w self "_state" = Some st ->
  slot w self "guild_id" = Some g ->
  slot w self "id" = Some i ->
  slot w self "user_count" = Some uc ->
  truthy uc = false ->
  Forall (fun b => length b = 100%nat) full ->
  length short = 37%nat ->
  Forall (Forall (fun j => is_subscriber j = true)) (full ++ [short]) ->
  serves env (full ++ [short]) (remote w) ->
  choose_predicate (direction oldest_first after) before after = None ->
  (length full + 2 <= fuel)%nat ->
  exists ys w' calls,
    users env self None before after oldest_first fuel w = ((ys, Exhausted), w') /\
    length ys = (100 * length full + 37)%nat /\
    http_log w' = http_log w ++ calls /\
    length calls = (length full + 1)%nat.
Proof.
  intros Hst Hg Hi Huc Hfalsy Hfull Hshort Hsub Hserves Hpred Hfuel.
  destruct (users_loop_full_batches env self (direction oldest_first after)
              st g i full short fuel
              (if direction oldest_first after then after else before) w
              Hst Hg Hi Hfull ltac:(lia) Hsub Hserves Hfuel)
    as (ys & w' & calls & Hloop & Hlen & Hl & Hcalls).
  exists ys, w', calls. unfold users.
  rewrite bind_eq.
  rewrite (getattr_of_slot w self "user_count" uc) by (by_compute || exact Huc).
  unfold lift, default_limit. rewrite Hfalsy, Hpred, Hloop.
  split; [reflexivity|]. split; [lia|]. split; [exact Hl|lia].
Qed.

Lemma users_unbounded_takes_every_batch_witness :
  exists ys w' calls,
    users scripted 0%nat None None None None 3%nat (voice_world two_batches)
      = ((ys, Exhausted), w') /\
    length ys = 137%nat /\
    http_log w' = http_log (voice_world two_batches) ++ calls /\
    length calls = 2%nat.
Proof.
  apply (users_unbounded_takes_every_batch scripted (voice_world two_batches)
           0%nat [subscribers_from 1 100] (subscribers_from 101 37)
           None None None 3%nat VState (VData (JInt 20)) (VData (JInt 10))
           (VData (JInt 0))).
  - vm_compute. reflexivity.
  - vm_compute. reflexivity.
  - vm_compute. reflexivity.
  - vm_compute. reflexivity.
  - vm_compute. reflexivity.
  - by_compute.
  - vm_compute. reflexivity.
  - by_compute.
  - simpl. intros g i n m c. eexists. split; [reflexivity|].
    intros g' i' n' m' c'. eexists. split; [reflexivity|exact I].
  - reflexivity.
  - simpl. lia.
Defined.

(** * More of the code

    ** What [edit] sends *)

Lemma bind_pure_Ok {T A B} (m : Py T A) (k : A -> Py T B) (w : World T) b :
  pure m -> fst (bind m k w) = Ok b ->
  exists a, fst (m w) = Ok a /\ fst (k a w) = Ok b.
Proof.
  intros Hm. rewrite bind_eq, (pure_run _ w Hm).
  destruct (fst (m w)) as [a|e]; [eauto|discriminate].
Qed.

Lemma adds_refl key p : adds key p p.
Proof. intros k _. reflexivity. Qed.

Lemma adds_insert key v p : adds key p (<[key := v]> p).
Proof. intros k Hk. apply lookup_insert_ne. congruence. Qed.

Section Payload.
Context {T : Type} (env : Collaborators T).
Implicit Types (w : World T).

Lemma enum_argument_Ok key v c msg payload w x :
  fst (enum_argument key v c msg payload w) = Ok x ->
  adds key payload x /\
  (is_missing v = true -> x = payload) /\
  (is_missing v = false ->
   exists e, v = VEnum e /\ enum_cls e = cls_name c /\
             x = <[key := VData (enum_value e)]> payload).
Proof.
  unfold enum_argument. destruct (is_missing v) eqn:Hm.
  { intros [= <-]. split; [apply adds_refl|]. split; [auto|discriminate]. }
  destruct (isinstance v c) eqn:Hi; [|discriminate].
  destruct v; try discriminate. simpl in Hi. apply String.eqb_eq in Hi.
  simpl. intros [= <-]. split; [apply adds_insert|]. split; [discriminate|].
  eauto.
Qed.


Lemma start_time_step payload st w x :
  fst ((if is_missing st then ret payload
        else
          tz <- attr_tzinfo st ;;
          match tz with
          | None => raise (ValueError start_time_naive)
          | Some _ =>
              s <- call_isoformat env st ;;
              ret (<["scheduled_start_time" := s]> payload)
          end) w) = Ok x ->
  adds "scheduled_start_time" payload x /\
  (is_missing st = true -> x = payload) /\
  (is_missing st = false ->
   exists d z, st = VDatetime d /\ tzinfo d = Some z /\
     x = <["scheduled_start_time" := VData (JStr (isoformat env d))]> payload).
Proof.
  destruct (is_missing st) eqn:Hm.
  { intros [= <-]. split; [apply adds_refl|]. split; [auto|discriminate]. }
  destruct st; try discriminate. unfold bind. simpl.
  destruct (tzinfo d) as [z|] eqn:Hz; [|discriminate].
  simpl. intros [= <-]. split; [apply adds_insert|]. split; [discriminate|].
  eauto.
Qed.

Lemma image_step payload im w x :
  fst ((if is_missing im then ret payload
        else
          image_as_str <- lift (_bytes_to_base64_data env im) ;;
          ret (<["image" := VData (JStr image_as_str)]> payload)) w) = Ok x ->
  adds "image" payload x /\ (is_missing im = true -> x = payload) /\
  (is_missing im = false ->
   exists image_as_str,
     _bytes_to_base64_data env im = Ok image_as_str /\
     x = <["image" := VData (JStr image_as_str)]> payload).
Proof.
  destruct (is_missing im) eqn:Hm.
  { intros [= <-]. split; [apply adds_refl|]. split; [auto|discriminate]. }
  unfold bind, lift.
  destruct (_bytes_to_base64_data env im) as [image_as_str|]; [|discriminate].
  simpl. intros [= <-]. split; [apply adds_insert|]. split; [discriminate|].
  eauto.
Qed.

Lemma entity_branch_Ok a et payload w p' md :
  fst (entity_branch env a et payload ∅ w) = Ok (p', md) ->
  (held_in_a_channel et = true /\
   is_missing (Kw.channel a) = false /\ is_none (Kw.channel a) = false /\
   is_missing (Kw.location a) = true /\ md = ∅ /\
   exists cid, fst (attr_id (Kw.channel a) w) = Ok cid /\
               p' = <["channel_id" := cid]> payload) \/
  (held_in_a_channel et = false /\
   is_missing (Kw.channel a) = true /\
   is_missing (Kw.location a) = false /\ is_none (Kw.location a) = false /\
   md = {["location" := Kw.location a]} /\
   exists d z, Kw.end_time a = VDatetime d /\ tzinfo d = Some z /\
     p' = <["scheduled_end_time" := VData (JStr (isoformat env d))]> payload).
Proof.
  unfold entity_branch. fold (held_in_a_channel et).
  destruct (held_in_a_channel et).
  - destruct (is_missing (Kw.channel a)) eqn:Hc; [discriminate|].
    destruct (is_none (Kw.channel a)) eqn:Hn; [discriminate|]. simpl.
    intros H. apply bind_pure_Ok in H as (cid & Hcid & H); [|apply pure_attr_id].
    destruct (is_missing (Kw.location a)) eqn:Hl; [|discriminate].
    simpl in H. injection H as <- <-. left. eauto 10.
  - destruct (is_missing (Kw.channel a)) eqn:Hc; [|discriminate]. simpl.
    destruct (is_missing (Kw.location a)) eqn:Hl; [discriminate|].
    destruct (is_none (Kw.location a)) eqn:Hn; [discriminate|]. simpl.
    destruct (is_missing (Kw.end_time a)) eqn:He; [discriminate|].
    destruct (Kw.end_time a) as [| | |d| | | | | | | |]; try discriminate.
    unfold bind. simpl. destruct (tzinfo d) as [z|] eqn:Hz; [|discriminate].
    simpl. intros [= <- <-]. right. eauto 12.
Qed.

Lemma truthy_singleton key (v : Value) :
  truthy (VDict {[key := v]}) = true.
Proof.
  simpl. rewrite bool_decide_eq_false_2; [reflexivity|].
  rewrite dom_singleton_L. set_solver.
Qed.

Lemma truthy_empty : truthy (VDict ∅) = false.
Proof.
  simpl. rewrite bool_decide_eq_true_2; [reflexivity|apply dom_empty_L].
Qed.

Ltac chase :=
  repeat match goal with
         | H : adds _ ?prev ?next |- context [?next !! ?k] =>
             rewrite (H k) by discriminate
         end.

Lemma edit_payload_Ok self a w p :
  fst (edit_payload env self a w) = Ok p ->
  sends_what_was_given env a p /\ bound_to_one_place env w self a p.
Proof.
  intros H. unfold edit_payload in H.
  apply bind_pure_Ok in H as (p1 & H1 & H);
    [|unfold attr_tzinfo, call_isoformat; pure_steps].
  apply start_time_step in H1 as (A1 & M1 & G1).
  apply bind_pure_Ok in H as (p2 & H2 & H);
    [|unfold enum_argument, attr_value; pure_steps].
  apply enum_argument_Ok in H2 as (A2 & M2 & G2).
  apply bind_pure_Ok in H as (p3 & H3 & H);
    [|unfold enum_argument, attr_value; pure_steps].
  apply enum_argument_Ok in H3 as (A3 & M3 & G3).
  apply bind_pure_Ok in H as (p4 & H4 & H); [|pure_steps].
  apply image_step in H4 as (A4 & M4 & G4).
  apply bind_pure_Ok in H as (p5 & H5 & H);
    [|unfold enum_argument, attr_value; pure_steps].
  apply enum_argument_Ok in H5 as (A5 & M5 & G5).
  apply bind_pure_Ok in H as (et & Het & H); [|pure_steps].
  assert (Heff : effective_entity_type w self a = Some et).
  { unfold effective_entity_type.
    destruct (truthy (Kw.entity_type a)); [injection Het as <-; reflexivity|].
    destruct (getattr self "entity_type" w) as [r w'] eqn:Hget.
    cbn [fst] in Het. subst r.
    apply getattr_slot in Hget as [_ Hslot]; [exact Hslot|by_compute]. }
  change (fst ((checked <- entity_branch env a et p5 ∅ ;;
                let '(payload, metadata) := checked in
                ret (if truthy (VDict metadata)
                     then <["entity_metadata" := VDict metadata]> payload
                     else payload)) w) = Ok p) in H.
  apply bind_pure_Ok in H as ([p6 md] & H6 & H).
  2:{ unfold entity_branch, attr_tzinfo, call_isoformat. pure_steps. }
  change (Ok (if truthy (VDict md)
              then <["entity_metadata" := VDict md]> p6 else p6) = Ok p) in H.
  set (p0 := if is_missing (Kw.name a) then ∅ else <["name" := Kw.name a]> ∅) in *.
  set (p1' := if is_missing (Kw.description a) then p1
              else <["description" := Kw.description a]> p1) in *.
  assert (A0 : adds "name" ∅ p0)
    by (subst p0; destruct (is_missing (Kw.name a)); [apply adds_refl|apply adds_insert]).
  assert (A1' : adds "description" p1 p1')
    by (subst p1'; destruct (is_missing (Kw.description a));
        [apply adds_refl|apply adds_insert]).
  assert (A6 : forall k, k <> "channel_id" -> k <> "scheduled_end_time" ->
                         k <> "entity_metadata" -> p !! k = p5 !! k).
  { intros k K1 K2 K3.
    apply entity_branch_Ok in H6 as
      [(_ & _ & _ & _ & -> & cid & _ & ->)|(_ & _ & _ & _ & -> & d & z & _ & _ & ->)].
    - rewrite truthy_empty in H. injection H as <-.
      rewrite lookup_insert_ne by congruence. done.
    - rewrite truthy_singleton in H. injection H as <-.
      rewrite !lookup_insert_ne by congruence. done. }
  split.
  - unfold sends_what_was_given.
    split; [|split; [|split; [|split; [|split; [|split]]]]].
    + rewrite A6 by discriminate. chase. subst p0.
      destruct (is_missing (Kw.name a)); [apply lookup_empty|apply lookup_insert_eq].
    + rewrite A6 by discriminate. chase. subst p1'.
      destruct (is_missing (Kw.description a)); [|apply lookup_insert_eq].
      chase. apply lookup_empty.
    + destruct (is_missing (Kw.start_time a)) eqn:Hm.
      * rewrite A6 by discriminate. chase. rewrite (M1 eq_refl). chase.
        apply lookup_empty.
      * destruct (G1 eq_refl) as (d & z & Hd & Hz & Hp1).
        exists d, z. split; [exact Hd|]. split; [exact Hz|].
        rewrite A6 by discriminate. chase. rewrite Hp1. apply lookup_insert_eq.
    + destruct (is_missing (Kw.privacy_level a)) eqn:Hm.
      * rewrite A6 by discriminate. chase. rewrite (M2 eq_refl). chase.
        apply lookup_empty.
      * destruct (G2 eq_refl) as (e & He & Hc & Hp2).
        exists e. split; [exact He|]. split; [exact Hc|].
        rewrite A6 by discriminate. chase. rewrite Hp2. apply lookup_insert_eq.
    + destruct (is_missing (Kw.status a)) eqn:Hm.
      * rewrite A6 by discriminate. chase. rewrite (M3 eq_refl). chase.
        apply lookup_empty.
      * destruct (G3 eq_refl) as (e & He & Hc & Hp3).
        exists e. split; [exact He|]. split; [exact Hc|].
        rewrite A6 by discriminate. chase. rewrite Hp3. apply lookup_insert_eq.
    + destruct (is_missing (Kw.image a)) eqn:Hm.
      * rewrite A6 by discriminate. chase. rewrite (M4 eq_refl). chase.
        apply lookup_empty.
      * destruct (G4 eq_refl) as (image_as_str & Hi & Hp4).
        exists image_as_str. split; [exact Hi|].
        rewrite A6 by discriminate. chase. rewrite Hp4. apply lookup_insert_eq.
    + destruct (is_missing (Kw.entity_type a)) eqn:Hm.
      * rewrite A6 by discriminate. rewrite (M5 eq_refl). chase.
        apply lookup_empty.
      * destruct (G5 eq_refl) as (e & He & Hc & Hp5).
        exists e. split; [exact He|]. split; [exact Hc|].
        rewrite A6 by discriminate. rewrite Hp5. apply lookup_insert_eq.
  - assert (Hnone : forall k, k <> "name" -> k <> "description" ->
              k <> "scheduled_start_time" -> k <> "privacy_level" ->
              k <> "status" -> k <> "image" -> k <> "entity_type" ->
              p5 !! k = None).
    { intros k ? ? ? ? ? ? ?.
      rewrite (A5 k), (A4 k), (A3 k), (A2 k), (A1' k), (A1 k), (A0 k) by done.
      apply lookup_empty. }
    exists et. split; [exact Heff|].
    apply entity_branch_Ok in H6 as
      [(-> & Hc & Hn & Hl & -> & cid & Hcid & ->)
      |(-> & Hc & Hl & Hn & -> & d & z & Hd & Hz & ->)].
    + rewrite truthy_empty in H. injection H as <-.
      split; [exact Hc|]. split; [exact Hn|]. split; [exact Hl|].
      split; [|split].
      * exists cid. split; [exact Hcid|apply lookup_insert_eq].
      * rewrite lookup_insert_ne by discriminate. apply Hnone; discriminate.
      * rewrite lookup_insert_ne by discriminate. apply Hnone; discriminate.
    + rewrite truthy_singleton in H. injection H as <-.
      split; [exact Hc|]. split; [exact Hl|]. split; [exact Hn|].
      split; [|split].
      * exists d, z. split; [exact Hd|]. split; [exact Hz|].
        rewrite lookup_insert_ne by discriminate. apply lookup_insert_eq.
      * apply lookup_insert_eq.
      * rewrite !lookup_insert_ne by discriminate. apply Hnone; discriminate.
Qed.
End Payload.

Section EditRequests.
Context {T : Type} (env : Collaborators T).
Implicit Types (w : World T).

(** The payload of the one call [edit] makes is the one its checks
    built. *)
Lemma edit_request self a w g i p :
  http_log (snd (edit env self a w))
    = http_log w ++ [edit_scheduled_event g i p (Kw.reason a)] ->
  fst (edit_payload env self a w) = Ok p.
Proof.
  intros Hlog.
  destruct (edit_log env self a w) as [[Hsame _]|(g' & i' & p' & Hp & Hlog')].
  - rewrite Hsame in Hlog. apply (f_equal length) in Hlog.
    rewrite length_app in Hlog. simpl in Hlog. lia.
  - rewrite Hlog' in Hlog. apply app_inv_head in Hlog.
    injection Hlog as _ _ ->. exact Hp.
Qed.

(** With only [status] and [reason] given, the checks of [edit] cannot
    pass. *)
Lemma edit_status_only_raises self st reason w :
  exists e, edit env self (status_only st reason) w = (Raise e, w).
Proof.
  rewrite edit_unfold, bind_eq.
  rewrite (pure_run _ w (pure_edit_payload env self _)).
  destruct (fst (edit_payload env self (status_only st reason) w)) as [p|e] eqn:E;
    [|eauto].
  apply edit_payload_Ok in E as [_ (et & _ & Hplace)].
  destruct (held_in_a_channel et);
    [destruct Hplace as (Hc & _)|destruct Hplace as (_ & Hl & _)]; discriminate.
Qed.

End EditRequests.

(** X1.  [start], [end] and [cancel] never succeed: whatever the state of
    the proxy, each of them raises, and leaves the world, the transport
    log included, exactly as it was.  (When the status allows the
    transition they call [edit] with a status only, and [edit] then asks
    for a channel or a location.) *)
Theorem start_end_cancel_always_raise {T} (env : Collaborators T)
    (w : World T) (self : loc) (reason : Value) :
  (exists e, start env self reason w = (Raise e, w)) /\
  (exists e, end_ env self reason w = (Raise e, w)) /\
  (exists e, cancel env self reason w = (Raise e, w)).
Proof.
  unfold start, end_, cancel.
  repeat split;
    rewrite bind_eq, (pure_run _ w (pure_getattr self "status"));
    (destruct (fst (getattr self "status" w)) as [status|e]; [|eauto]);
    match goal with
    | |- context [negb ?b] => destruct b
    end; simpl; eauto using edit_status_only_raises.
Qed.

(** X2.  Whenever [edit] reaches the transport, the payload it sends
    places the event as the effective entity type ([entity_type] when
    given, the proxy's otherwise) asks.  For a stage or voice event it
    carries [channel_id], the id of the channel given, and neither
    [entity_metadata] nor [scheduled_end_time]; for any other event it
    carries the location given under [entity_metadata] and the ISO text of
    the aware [end_time] given, and no [channel_id]. *)
Theorem edit_sends_a_channel_or_a_location {T} (env : Collaborators T)
    (w : World T) (self : loc) (a : Kw.t) g i p :
  http_log (snd (edit env self a w))
    = http_log w ++ [edit_scheduled_event g i p (Kw.reason a)] ->
  bound_to_one_place env w self a p.
Proof.
  intros H. apply edit_request in H. apply edit_payload_Ok in H. tauto.
Qed.

Lemma edit_sends_a_channel_or_a_location_witness :
  held_in_a_channel (VEnum (member EntityType "voice" 2)) = true /\
  slot (voice_world echo) 0%nat "entity_type"
    = Some (VEnum (member EntityType "voice" 2)) /\
  bound_to_one_place scripted (voice_world echo) 0%nat rename
    (<["channel_id" := VData (JInt 30)]> {["name" := VData (JStr "gala")]}).
Proof.
  split; [reflexivity|]. split; [vm_compute; reflexivity|].
  apply (edit_sends_a_channel_or_a_location scripted (voice_world echo) 0%nat
           rename (VData (JInt 20)) (VData (JInt 10))).
  vm_compute. reflexivity.
Defined.

(** X3.  Whenever [edit] reaches the transport, the payload carries
    [name], [description], [scheduled_start_time], [privacy_level],
    [status], [image] and [entity_type] exactly for the arguments that were
    given: a field whose argument was left out is absent, and a field whose
    argument was given is there with the value derived from it (the name
    and the description as given, the ISO text of the aware start time, the
    raw code of an enum value of the right class, the base-64 text of the
    image). *)
Theorem edit_sends_only_what_was_given {T} (env : Collaborators T)
    (w : World T) (self : loc) (a : Kw.t) g i p :
  http_log (snd (edit env self a w))
    = http_log w ++ [edit_scheduled_event g i p (Kw.reason a)] ->
  sends_what_was_given env a p.
Proof.
  intros H. apply edit_request in H. apply edit_payload_Ok in H. tauto.
Qed.

Lemma edit_sends_only_what_was_given_witness :
  sends_what_was_given scripted with_image
    (<["channel_id" := VData (JInt 30)]>
       (<["image" := VData (JStr "aGVsbG8=")]>
          {["name" := VData (JStr "gala")]})).
Proof.
  apply (edit_sends_only_what_was_given scripted (voice_world echo) 0%nat
           with_image (VData (JInt 20)) (VData (JInt 10))).
  vm_compute. reflexivity.
Defined.

(** ** Hydration and construction, slot by slot *)

Section Hydrated.
Context {T : Type} (env : Collaborators T).
Implicit Types (w : World T).

Lemma at_init w self slots :
  heap w !! self = Some (Instance slots) ->
  w = at_ w self slots (_users_cache w).
Proof.
  intros H. destruct w as [h c t l]. unfold at_. simpl in *.
  rewrite list_insert_id by exact H. reflexivity.
Qed.

Lemma setattr_at w self s c name v :
  (self < length (heap w))%nat -> name ∈ __slots__ ->
  setattr self name v (at_ w self s c)
    = (Ok tt, at_ w self (<[name := v]> s) c).
Proof.
  intros Hlt Hin. unfold setattr, at_. simpl.
  rewrite list_lookup_insert_eq by exact Hlt.
  rewrite bool_decide_eq_true_2 by exact Hin.
  rewrite list_insert_insert_eq. reflexivity.
Qed.

Lemma getattr_at w self s c name :
  (self < length (heap w))%nat -> name ∈ __slots__ ->
  getattr self name (at_ w self s c)
    = (match s !! name with
       | Some v => Ok v
       | None => Raise (AttributeError name)
       end, at_ w self s c).
Proof.
  intros Hlt Hin. unfold getattr, at_. simpl.
  rewrite list_lookup_insert_eq by exact Hlt.
  rewrite bool_decide_eq_true_2 by exact Hin.
  destruct (s !! name); reflexivity.
Qed.

(** [store_user] reads and writes the user cache only. *)
Lemma store_user_at j w self s c :
  store_user j (at_ w self s c)
    = (fst (store_user j (at_ w self s c)),
       at_ w self s (_users_cache (snd (store_user j (at_ w self s c))))).
Proof.
  unfold store_user. destruct j; try reflexivity.
  unfold bind, lift. destruct (getitem o "id") as [raw|e]; [|reflexivity].
  destruct (int raw) as [uid|e]; [|reflexivity].
  simpl. destruct (c !! uid); reflexivity.
Qed.

Lemma store_user_cache j (w1 w2 : World T) :
  _users_cache w1 = _users_cache w2 ->
  fst (store_user j w1) = fst (store_user j w2) /\
  _users_cache (snd (store_user j w1)) = _users_cache (snd (store_user j w2)).
Proof.
  intros Hc. unfold store_user. destruct j; try (split; [reflexivity|exact Hc]).
  unfold bind, lift. destruct (getitem o "id") as [raw|e]; [|split; [reflexivity|exact Hc]].
  destruct (int raw) as [uid|e]; [|split; [reflexivity|exact Hc]].
  rewrite Hc. destruct (_users_cache w2 !! uid); simpl; split; congruence.
Qed.

Lemma parse_time_fst j (w1 w2 : World T) :
  fst (parse_time env j w1) = fst (parse_time env j w2).
Proof.
  unfold parse_time. destruct (json_truthy j); [|reflexivity].
  destruct j; try reflexivity.
  unfold bind, lift. destruct (fromisoformat env s); reflexivity.
Qed.

Lemma _get_as_snowflake_fst data key (w1 w2 : World T) :
  fst (_get_as_snowflake data key w1) = fst (_get_as_snowflake data key w2).
Proof.
  unfold _get_as_snowflake. destruct (data !! key) as [v|]; [|reflexivity].
  destruct (json_truthy v); [|reflexivity].
  unfold bind, lift. destruct (int v); reflexivity.
Qed.

Ltac step_lift H :=
  rewrite bind_eq in H; unfold lift at 1 in H; cbv beta iota in H;
  try match type of H with
      | match ?r with Ok _ => _ | Raise _ => _ end = _ =>
          let E := fresh "E" in destruct r eqn:E; [|discriminate H]
      end; cbv beta iota in H.

Ltac step_set H Hlt :=
  rewrite bind_eq in H; rewrite (setattr_at _ _ _ _ _ _ Hlt) in H by by_compute;
  cbv beta iota in H.


Ltac step_pure H Hp :=
  rewrite bind_eq, (pure_run _ _ Hp) in H; cbv beta iota in H;
  match type of H with
  | match ?r with Ok _ => _ | Raise _ => _ end = _ =>
      let E := fresh "E" in destruct r eqn:E; [|discriminate H]
  end; cbv beta iota in H.

Lemma getitem_get data key v :
  getitem data key = Ok v -> data !! key = Some v /\ forall d, get data key d = v.
Proof.
  unfold getitem, get. destruct (data !! key); [|discriminate].
  intros [= ->]. auto.
Qed.

Lemma creator_step j self w s c :
  (self < length (heap w))%nat ->
  let m : Py T Value :=
    if json_truthy j then (getattr self "_state" ;; store_user j) else ret VNone in
  exists c',
    m (at_ w self s c) = (fst (m (at_ w self s c)), at_ w self s c') /\
    forall v, fst (m (at_ w self s c)) = Ok v ->
              creator_of T j (bool_decide (is_Some (s !! "_state"))) c v c'.
Proof.
  intros Hlt m. subst m. destruct (json_truthy j) eqn:Hj.
  - rewrite bind_eq, getattr_at by (exact Hlt || by_compute).
    destruct (s !! "_state") as [st|] eqn:Hst.
    + exists (_users_cache (snd (store_user j (at_ w self s c)))).
      split; [apply store_user_at|].
      intros v Hv. right. split; [exact Hj|].
      split; [apply bool_decide_eq_true_2; eauto|].
      intros w2 Hc.
      destruct (store_user_cache j w2 (at_ w self s c) Hc) as [H1 H2].
      rewrite H1, H2. auto.
    + exists c. split; [reflexivity|]. discriminate.
  - exists c. split; [reflexivity|]. intros v [= <-]. left. auto.
Qed.


Lemma _update_Ok self data w w' slots :
  heap w !! self = Some (Instance slots) ->
  _update env self data w = (Ok tt, w') ->
  exists i g start creator end_ cid c',
    (exists j, data !! "id" = Some j /\ int j = Ok i) /\
    (exists j, data !! "guild_id" = Some j /\ int j = Ok g) /\
    Forall (fun k => is_Some (data !! k)) required_keys /\
    (forall w2, fst (parse_time env (get data "scheduled_start_time" JNull) w2)
                = Ok start) /\
    (forall w2, fst (parse_time env (get data "scheduled_end_time" JNull) w2)
                = Ok end_) /\
    (forall w2, fst (_get_as_snowflake data "channel_id" w2) = Ok cid) /\
    creator_of T (get data "creator" JNull)
      (bool_decide (is_Some (slots !! "_state"))) (_users_cache w) creator c' /\
    match get data "metadata" JNull with
    | JObj _ => True
    | j => json_truthy j = false
    end /\
    w' = at_ w self (hydrated data i g start creator end_ cid slots) c'.
Proof.
  intros Hself H.
  assert (Hlt : (self < length (heap w))%nat) by (eapply lookup_lt_Some; exact Hself).
  rewrite (at_init w self slots Hself) in H at 1.
  unfold _update in H.
  step_lift H. step_lift H. step_set H Hlt.
  step_lift H. step_lift H. step_set H Hlt.
  step_lift H. step_set H Hlt. step_set H Hlt.
  step_lift H. step_set H Hlt.
  step_lift H. step_lift H. step_set H Hlt.
  step_lift H.
  step_pure H (pure_parse_time env a6).
  step_set H Hlt.
  step_lift H. step_set H Hlt. step_lift H. step_set H Hlt.
  step_lift H. step_set H Hlt. step_set H Hlt.
  rewrite bind_eq in H.
  match type of H with
  | context [(if json_truthy ?j then _ else _) (at_ w self ?s ?c)] =>
      destruct (creator_step j self w s c Hlt) as (c' & Hrun & Hcreator)
  end.
  cbv zeta in Hrun, Hcreator. rewrite Hrun in H. clear Hrun. cbv beta iota in H.
  match type of H with
  | match ?r with Ok _ => _ | Raise _ => _ end = _ =>
      destruct r as [creator|] eqn:Ecreator; [|discriminate H]
  end.
  specialize (Hcreator creator eq_refl). cbv beta iota in H.
  step_set H Hlt.
  step_pure H (pure_parse_time env (get data "scheduled_end_time" JNull)).
  step_set H Hlt.
  step_pure H (@pure__get_as_snowflake T data "channel_id").
  step_set H Hlt.
  injection E0 as ->.
  destruct (getitem_get _ _ _ E) as [Kid _].
  destruct (getitem_get _ _ _ E1) as [Kguild _].
  destruct (getitem_get _ _ _ E3) as [Kname Gname].
  destruct (getitem_get _ _ _ E4) as [Ktype Gtype].
  destruct (getitem_get _ _ _ E6) as [Kstart Gstart].
  destruct (getitem_get _ _ _ E8) as [Kstatus Gstatus].
  destruct (getitem_get _ _ _ E9) as [Kimage Gimage].
  exists a0, a2, a7, creator, a10, a11, c'.
  split; [eauto|]. split; [eauto|].
  split; [repeat constructor; eauto|].
  split; [intros w2; rewrite Gstart, <- E7; apply parse_time_fst|].
  split; [intros w2; rewrite <- E10; apply parse_time_fst|].
  split; [intros w2; rewrite <- E11; apply _get_as_snowflake_fst|].
  split.
  { repeat rewrite lookup_insert_ne in Hcreator by by_compute. exact Hcreator. }
  unfold hydrated, hydrated_base. rewrite Gname, Gtype, Gstatus, Gimage.
  destruct (get data "metadata" JNull) as [| z | str | o] eqn:Hmd;
    try (destruct (json_truthy _) eqn:Htr in H;
         [discriminate H | injection H as <-; split; [exact Htr || exact I | reflexivity]]).
  destruct (json_truthy (JObj o)) eqn:Htr.
  - unfold _unroll_metadata in H.
    rewrite (setattr_at _ _ _ _ _ _ Hlt) in H by by_compute.
    injection H as <-. split; [exact I|reflexivity].
  - injection H as <-. split; [exact I|reflexivity].
Qed.
End Hydrated.

Section HydratedSlots.
Context {T : Type} (env : Collaborators T).
Implicit Types (w : World T).

Lemma at_slot w self s c name :
  (self < length (heap w))%nat -> slot (at_ w self s c) self name = s !! name.
Proof.
  intros Hlt. unfold slot, at_. simpl.
  rewrite list_lookup_insert_eq by exact Hlt. reflexivity.
Qed.

Lemma at_other w self s c l :
  l <> self -> heap (at_ w self s c) !! l = heap w !! l.
Proof. intros Hne. unfold at_. simpl. apply list_lookup_insert_ne. congruence. Qed.

Lemma hydrated_other data i g st cr en cid slots name :
  name ∉ hydrated_names ->
  hydrated data i g st cr en cid slots !! name = slots !! name.
Proof.
  intros Hn.
  assert (Hne : forall k, k ∈ hydrated_names -> k <> name).
  { intros k Hk ->. exact (Hn Hk). }
  unfold hydrated, hydrated_base.
  destruct (get data "metadata" JNull) as [| z | str | o];
    try destruct (json_truthy (JObj o));
    repeat (rewrite lookup_insert_ne by (apply Hne; by_compute)); reflexivity.
Qed.

Lemma hydrated_location data i g st cr en cid slots :
  json_truthy (get data "metadata" JNull) = false ->
  hydrated data i g st cr en cid slots !! "location" = slots !! "location".
Proof.
  intros Hm. unfold hydrated, hydrated_base.
  destruct (get data "metadata" JNull) as [| z | str | o];
    try rewrite Hm;
    repeat (rewrite lookup_insert_ne by by_compute); reflexivity.
Qed.

Lemma hydrated_slot data i g st cr en cid slots name :
  name <> "location" ->
  hydrated data i g st cr en cid slots !! name
    = hydrated_base data i g st cr en cid slots !! name.
Proof.
  intros Hn. unfold hydrated.
  destruct (get data "metadata" JNull) as [| z | str | o];
    try destruct (json_truthy (JObj o));
    try rewrite lookup_insert_ne by congruence; reflexivity.
Qed.

End HydratedSlots.

Section HydrationResults.
Context {T : Type} (env : Collaborators T).
Implicit Types (w : World T).

(** Hydration returns on an instance only. *)
Lemma _update_Ok_instance self data w w' :
  _update env self data w = (Ok tt, w') -> is_instance w self.
Proof.
  intros H. unfold is_instance.
  destruct (heap w !! self) as [[slots|d]|] eqn:Hself; [eauto| |];
    exfalso; revert H; unfold _update;
    rewrite bind_eq; unfold lift at 1; cbv beta iota;
    (destruct (getitem data "id"); [|discriminate]);
    rewrite bind_eq; unfold lift at 1; cbv beta iota;
    (destruct (int _); [|discriminate]);
    rewrite bind_eq; unfold setattr at 1; rewrite Hself; discriminate.
Qed.

Lemma _update_inv self data w w' :
  _update env self data w = (Ok tt, w') ->
  exists slots i g start creator end_ cid c',
    heap w !! self = Some (Instance slots) /\
    (self < length (heap w))%nat /\
    (exists j, data !! "id" = Some j /\ int j = Ok i) /\
    Forall (fun k => is_Some (data !! k)) required_keys /\
    (forall w2, fst (parse_time env (get data "scheduled_end_time" JNull) w2)
                = Ok end_) /\
    (forall w2, fst (_get_as_snowflake data "channel_id" w2) = Ok cid) /\
    creator_of T (get data "creator" JNull)
      (bool_decide (is_Some (slots !! "_state"))) (_users_cache w) creator c' /\
    w' = at_ w self (hydrated data i g start creator end_ cid slots) c'.
Proof.
  intros H. destruct (_update_Ok_instance _ _ _ _ H) as [slots Hself].
  destruct (_update_Ok env _ _ _ _ _ Hself H)
    as (i & g & st & cr & en & cid & c' & Hi & _ & Hreq & _ & Hen & Hcid & Hcr & _ & ->).
  exists slots, i, g, st, cr, en, cid, c'.
  repeat split; try assumption.
  eapply lookup_lt_Some; exact Hself.
Qed.

Lemma slot_instance w self slots name :
  heap w !! self = Some (Instance slots) -> slot w self name = slots !! name.
Proof. intros H. unfold slot. rewrite H. reflexivity. Qed.

Lemma subscribers_at w self s c slots :
  heap w !! self = Some (Instance slots) ->
  s !! "_users" = slots !! "_users" ->
  subscribers (at_ w self s c) self = subscribers w self.
Proof.
  intros Hself Hs.
  assert (Hlt : (self < length (heap w))%nat) by (eapply lookup_lt_Some; exact Hself).
  unfold subscribers. rewrite at_slot by exact Hlt.
  rewrite (slot_instance _ _ _ _ Hself), Hs.
  destruct (slots !! "_users") as [[]|]; try reflexivity.
  destruct (decide (l = self)) as [->|Hne].
  - unfold at_; simpl. rewrite list_lookup_insert_eq by exact Hlt.
    rewrite Hself. reflexivity.
  - rewrite at_other by exact Hne. reflexivity.
Qed.

End HydrationResults.

(** X4.  A hydration that returns writes the slots it hydrates and nothing
    else: every other slot of the proxy ([_state] and [_users] among them)
    keeps its value, [location] too when the payload has no non-empty
    [metadata], every other object of the heap is as it was, the proxy
    still refers to the same subscribers, and no call reached the
    transport. *)
Theorem _update_leaves_the_rest {T} (env : Collaborators T) self data
    (w w' : World T) :
  _update env self data w = (Ok tt, w') ->
  (forall name, name ∉ hydrated_names -> slot w' self name = slot w self name) /\
  (json_truthy (get data "metadata" JNull) = false ->
     slot w' self "location" = slot w self "location") /\
  (forall l, l <> self -> heap w' !! l = heap w !! l) /\
  subscribers w' self = subscribers w self /\
  http_log w' = http_log w /\ remote w' = remote w.
Proof.
  intros H.
  destruct (_update_inv env _ _ _ _ H)
    as (slots & i & g & st & cr & en & cid & c' & Hself & Hlt & _ & _ & _ & _ & _ & ->).
  split; [|split; [|split; [|split; [|split]]]].
  - intros name Hn. rewrite at_slot by exact Hlt.
    rewrite (slot_instance _ _ _ _ Hself). apply hydrated_other. exact Hn.
  - intros Hm. rewrite at_slot by exact Hlt.
    rewrite (slot_instance _ _ _ _ Hself). apply hydrated_location. exact Hm.
  - intros l Hne. apply at_other. exact Hne.
  - apply (subscribers_at _ _ _ _ slots); [exact Hself|].
    apply hydrated_other. by_compute.
  - reflexivity.
  - reflexivity.
Qed.

Lemma _update_leaves_the_rest_witness :
  let w := voice_world quiet in
  let w' := snd (_update scripted 0%nat voice_payload w) in
  slot w' 0%nat "_state" = slot w 0%nat "_state" /\
  subscribers w' 0%nat = subscribers w 0%nat.
Proof.
  intros w w'.
  assert (H : _update scripted 0%nat voice_payload w = (Ok tt, w'))
    by (vm_compute; reflexivity).
  destruct (_update_leaves_the_rest scripted 0%nat voice_payload w w' H)
    as (Hs & _ & _ & Hu & _).
  split; [apply Hs; by_compute|exact Hu].
Defined.

(** X5.  After a hydration that returns, [entity_id] holds the integer read
    from the payload's [id], the same as the slot [id]; a key [entity_id]
    of the payload is not looked at. *)
Theorem _update_takes_entity_id_from_id {T} (env : Collaborators T) self data
    (w w' : World T) :
  _update env self data w = (Ok tt, w') ->
  (exists j i, data !! "id" = Some j /\ int j = Ok i /\
     slot w' self "id" = Some (VData (JInt i)) /\
     slot w' self "entity_id" = Some (VData (JInt i))) /\
  (forall j, _update env self (<["entity_id" := j]> data) w = (Ok tt, w')).
Proof.
  intros H. split.
  - destruct (_update_inv env _ _ _ _ H)
      as (slots & i & g & st & cr & en & cid & c' & Hself & Hlt & (j & Hj & Hi) & _ & _ & _ & _ & ->).
    exists j, i. split; [exact Hj|]. split; [exact Hi|].
    rewrite !at_slot by exact Hlt.
    rewrite !hydrated_slot by discriminate.
    unfold hydrated_base.
    split; repeat (rewrite lookup_insert_ne by by_compute); apply lookup_insert_eq.
  - intros j. rewrite _update_ignores by by_compute. exact H.
Qed.

Lemma _update_takes_entity_id_from_id_witness :
  let w' := snd (_update scripted 0%nat voice_payload (voice_world quiet)) in
  exists i, slot w' 0%nat "id" = Some (VData (JInt i)) /\
            slot w' 0%nat "entity_id" = Some (VData (JInt i)).
Proof.
  intros w'.
  assert (H : _update scripted 0%nat voice_payload (voice_world quiet) = (Ok tt, w'))
    by (vm_compute; reflexivity).
  destruct (_update_takes_entity_id_from_id scripted 0%nat voice_payload _ _ H)
    as [(j & i & _ & _ & Hid & He) _].
  exists i. split; [exact Hid|exact He].
Defined.

(** X6.  Hydration does not return on a payload that lacks one of [id],
    [guild_id], [name], [entity_type], [scheduled_start_time], [status] and
    [image]: it raises, whatever else the payload holds. *)
Theorem _update_raises_without_a_required_key {T} (env : Collaborators T)
    self data (w : World T) key :
  key ∈ required_keys -> data !! key = None ->
  exists e, fst (_update env self data w) = Raise e.
Proof.
  intros Hkey Hnone.
  destruct (_update env self data w) as [[[]|e] w'] eqn:H; [|simpl; eauto].
  exfalso.
  destruct (_update_inv env _ _ _ _ H)
    as (slots & i & g & st & cr & en & cid & c' & _ & _ & _ & Hreq & _).
  rewrite Forall_forall in Hreq. destruct (Hreq key Hkey) as [j Hj]. congruence.
Qed.

Lemma _update_raises_without_a_required_key_witness :
  exists e, fst (_update scripted 0%nat (delete "image" voice_payload)
                   (voice_world quiet)) = Raise e.
Proof.
  apply (_update_raises_without_a_required_key scripted 0%nat
           (delete "image" voice_payload) (voice_world quiet) "image").
  - by_compute.
  - vm_compute. reflexivity.
Defined.

(** X7.  What a hydration that returns stores for the optional keys the
    payload does not carry: the empty string for [description], 0 for
    [user_count], [None] for [creator], [end_time] and [channel_id], and
    the user cache is as it was when there is no creator.  The default of
    [description] is for an absent key only: a null is stored as it is. *)
Theorem _update_defaults {T} (env : Collaborators T) self data (w w' : World T) :
  _update env self data w = (Ok tt, w') ->
  (data !! "description" = None ->
     slot w' self "description" = Some (VData (JStr ""))) /\
  (data !! "description" = Some JNull -> slot w' self "description" = Some VNone) /\
  (data !! "user_count" = None ->
     slot w' self "user_count" = Some (VData (JInt 0))) /\
  (data !! "creator" = None ->
     slot w' self "creator" = Some VNone /\ _users_cache w' = _users_cache w) /\
  (data !! "scheduled_end_time" = None -> slot w' self "end_time" = Some VNone) /\
  (data !! "channel_id" = None -> slot w' self "channel_id" = Some VNone).
Proof.
  intros H.
  destruct (_update_inv env _ _ _ _ H)
    as (slots & i & g & st & cr & en & cid & c' & Hself & Hlt & _ & _ & Hen & Hcid & Hcr & ->).
  assert (Hslot : forall name, name <> "location" ->
            slot (at_ w self (hydrated data i g st cr en cid slots) c') self name
            = hydrated_base data i g st cr en cid slots !! name).
  { intros name Hn. rewrite at_slot by exact Hlt. apply hydrated_slot. exact Hn. }
  repeat split.
  - intros Hd. rewrite Hslot by discriminate. unfold hydrated_base, get. rewrite Hd.
    repeat (rewrite lookup_insert_ne by by_compute). apply lookup_insert_eq.
  - intros Hd. rewrite Hslot by discriminate. unfold hydrated_base, get. rewrite Hd.
    repeat (rewrite lookup_insert_ne by by_compute). apply lookup_insert_eq.
  - intros Hd. rewrite Hslot by discriminate. unfold hydrated_base, get. rewrite Hd.
    repeat (rewrite lookup_insert_ne by by_compute). apply lookup_insert_eq.
  - rewrite Hslot by discriminate. unfold get in Hcr. rewrite H0 in Hcr.
    destruct Hcr as [(_ & -> & _)|(Habs & _)]; [|discriminate Habs].
    unfold hydrated_base.
    repeat (rewrite lookup_insert_ne by by_compute). apply lookup_insert_eq.
  - unfold get in Hcr. rewrite H0 in Hcr.
    destruct Hcr as [(_ & _ & ->)|(Habs & _)]; [reflexivity|discriminate Habs].
  - intros Hd. rewrite Hslot by discriminate.
    specialize (Hen w). unfold get in Hen. rewrite Hd in Hen.
    injection Hen as <-. unfold hydrated_base.
    repeat (rewrite lookup_insert_ne by by_compute). apply lookup_insert_eq.
  - intros Hd. rewrite Hslot by discriminate.
    specialize (Hcid w). unfold _get_as_snowflake in Hcid. rewrite Hd in Hcid.
    injection Hcid as <-. unfold hydrated_base. apply lookup_insert_eq.
Qed.

Lemma _update_defaults_witness :
  let w' := snd (_update scripted 0%nat (delete "channel_id" voice_payload)
                   (voice_world quiet)) in
  slot w' 0%nat "description" = Some (VData (JStr "")) /\
  slot w' 0%nat "channel_id" = Some VNone.
Proof.
  intros w'.
  assert (H : _update scripted 0%nat (delete "channel_id" voice_payload)
                (voice_world quiet) = (Ok tt, w'))
    by (vm_compute; reflexivity).
  destruct (_update_defaults scripted 0%nat _ _ _ H) as (Hd & _ & _ & _ & _ & Hc).
  split; [apply Hd|apply Hc]; vm_compute; reflexivity.
Defined.

(** X8.  A hydration that raises does not roll back: on a payload with
    [id] and [guild_id] but no [name] it raises [KeyError('name')] after
    the proxy took the new [id] and [guild_id]; the other slots, the name
    among them, are the old ones. *)
Theorem _update_is_not_atomic {T} (env : Collaborators T) self data
    (w : World T) slots j i j' g :
  heap w !! self = Some (Instance slots) ->
  data !! "id" = Some j -> int j = Ok i ->
  data !! "guild_id" = Some j' -> int j' = Ok g ->
  data !! "name" = None ->
  exists w',
    _update env self data w = (Raise (KeyError (JStr "name")), w') /\
    slot w' self "id" = Some (VData (JInt i)) /\
    slot w' self "guild_id" = Some (VData (JInt g)) /\
    (forall name, name <> "id" -> name <> "guild_id" ->
       slot w' self name = slot w self name).
Proof.
  intros Hself Hid Hi Hguild Hg Hname.
  assert (Hlt : (self < length (heap w))%nat) by (eapply lookup_lt_Some; exact Hself).
  exists (at_ w self (<["guild_id" := VData (JInt g)]>
                       (<["id" := VData (JInt i)]> slots)) (_users_cache w)).
  split; [|split; [|split]].
  - rewrite (at_init w self slots Hself) at 1.
    unfold _update, getitem. rewrite Hid, Hguild, Hname.
    rewrite bind_eq. unfold lift at 1. cbv beta iota.
    rewrite bind_eq. unfold lift at 1. rewrite Hi. cbv beta iota.
    rewrite bind_eq, (setattr_at _ _ _ _ _ _ Hlt) by by_compute. cbv beta iota.
    rewrite bind_eq. unfold lift at 1. cbv beta iota.
    rewrite bind_eq. unfold lift at 1. rewrite Hg. cbv beta iota.
    rewrite bind_eq, (setattr_at _ _ _ _ _ _ Hlt) by by_compute. cbv beta iota.
    rewrite bind_eq. unfold lift at 1. cbv beta iota.
    reflexivity.
  - rewrite at_slot by exact Hlt.
    rewrite lookup_insert_ne by by_compute. apply lookup_insert_eq.
  - rewrite at_slot by exact Hlt. apply lookup_insert_eq.
  - intros name H1 H2. rewrite at_slot by exact Hlt.
    rewrite !lookup_insert_ne by congruence.
    symmetry. apply slot_instance. exact Hself.
Qed.

Lemma _update_is_not_atomic_witness :
  exists w',
    _update scripted 0%nat {["id" := JStr "11"; "guild_id" := JStr "21"]}
      (voice_world quiet) = (Raise (KeyError (JStr "name")), w') /\
    slot w' 0%nat "id" = Some (VData (JInt 11)) /\
    slot w' 0%nat "name" = Some (VData (JStr "party")).
Proof.
  destruct (_update_is_not_atomic scripted 0%nat
              {["id" := JStr "11"; "guild_id" := JStr "21"]} (voice_world quiet)
              (default ∅ (match heap (voice_world quiet) !! 0%nat with
                          | Some (Instance s) => Some s | _ => None end))
              (JStr "11") 11 (JStr "21") 21)
    as (w' & Hrun & Hid & _ & Hrest);
    try (vm_compute; reflexivity).
  exists w'. split; [exact Hrun|]. split; [exact Hid|].
  rewrite Hrest by discriminate. vm_compute. reflexivity.
Defined.

Section Construction.
Context {T : Type} (env : Collaborators T).
Implicit Types (w : World T).

(** Construction is hydration of a new instance whose [_state] and
    [_users] are set. *)
Lemma ScheduledEvent_eq data w :
  ScheduledEvent env data w =
    (match fst (_update env (length (heap w)) data (allocated w)) with
     | Ok _ => Ok (length (heap w))
     | Raise e => Raise e
     end, snd (_update env (length (heap w)) data (allocated w))).
Proof.
  unfold ScheduledEvent, __init__.
  rewrite bind_eq. unfold alloc at 1. cbv beta iota.
  rewrite bind_eq, bind_eq.
  unfold setattr at 1. cbn [heap _users_cache remote http_log].
  rewrite lookup_app_r by done. rewrite Nat.sub_diag. cbn [lookup list_lookup].
  rewrite bool_decide_eq_true_2 by by_compute.
  rewrite bind_eq. unfold alloc at 1. cbn [heap _users_cache remote http_log].
  rewrite bind_eq. unfold setattr at 1. cbn [heap _users_cache remote http_log].
  rewrite length_insert, length_app, Nat.add_1_r.
  rewrite lookup_app_l by (rewrite length_insert, length_app; simpl; lia).
  rewrite list_lookup_insert_eq by (rewrite length_app; simpl; lia).
  rewrite bool_decide_eq_true_2 by by_compute.
  replace (<[length (heap w) := Instance (<["_users" := VRef (S (length (heap w)))]>
                                            (<["_state" := VState]> ∅))]>
             (<[length (heap w) := Instance (<["_state" := VState]> ∅)]>
                (heap w ++ [Instance ∅]) ++ [Dict ∅]))
    with (heap (allocated w)).
  2:{ unfold allocated. cbn [heap].
      rewrite insert_app_l by (rewrite length_insert, length_app; simpl; lia).
      rewrite list_insert_insert_eq.
      rewrite insert_app_r_alt by lia. rewrite Nat.sub_diag. cbn [insert list_insert].
      rewrite <- app_assoc. reflexivity. }
  change {| heap := heap (allocated w); _users_cache := _users_cache w;
            remote := remote w; http_log := http_log w |} with (allocated w).
  destruct (_update env (length (heap w)) data (allocated w)) as [[[]|e] w'];
    reflexivity.
Qed.

Lemma ScheduledEvent_inv data w s w' :
  ScheduledEvent env data w = (Ok s, w') ->
  s = length (heap w) /\ _update env s data (allocated w) = (Ok tt, w').
Proof.
  rewrite ScheduledEvent_eq.
  destruct (_update env (length (heap w)) data (allocated w)) as [[[]|e] w1] eqn:E;
    cbn [fst snd]; intros Heq; [|discriminate Heq].
  injection Heq as <- <-. auto.
Qed.

End Construction.

(** X9.  A construction that returns gives a new object, one the heap did
    not hold, whose [_state] is set and whose [_users] refers to a new
    dict, empty and referred to by nothing that was there: the proxy starts
    with no subscriber.  The objects that were there are unchanged and no
    call reached the transport. *)
Theorem ScheduledEvent_starts_without_subscribers {T} (env : Collaborators T)
    data (w w' : World T) s :
  ScheduledEvent env data w = (Ok s, w') ->
  heap w !! s = None /\
  slot w' s "_state" = Some VState /\
  (exists d, slot w' s "_users" = Some (VRef d) /\ heap w !! d = None /\
             heap w' !! d = Some (Dict ∅)) /\
  subscribers w' s = Some ∅ /\
  (forall l c, heap w !! l = Some c -> heap w' !! l = Some c) /\
  http_log w' = http_log w.
Proof.
  intros H. destruct (ScheduledEvent_inv env _ _ _ _ H) as [-> Hup].
  destruct (_update_inv env _ _ _ _ Hup)
    as (slots & i & g & st0 & cr & en & cid & c' & Hself & Hlt & _ & _ & _ & _ & _ & Hw').
  assert (Hs : forall name, name ∉ hydrated_names ->
            slot w' (length (heap w)) name
            = slot (allocated w) (length (heap w)) name).
  { intros name Hn. rewrite Hw', at_slot by exact Hlt.
    rewrite (slot_instance _ _ _ _ Hself). apply hydrated_other. exact Hn. }
  assert (Hh : forall l, l <> length (heap w) ->
            heap w' !! l = heap (allocated w) !! l).
  { intros l Hne. rewrite Hw'. apply at_other. exact Hne. }
  assert (Hsub : subscribers w' (length (heap w))
                 = subscribers (allocated w) (length (heap w))).
  { rewrite Hw'. apply (subscribers_at _ _ _ _ slots); [exact Hself|].
    apply hydrated_other. by_compute. }
  assert (Hlog : http_log w' = http_log (allocated w)) by (rewrite Hw'; reflexivity).
  assert (Hstate : slot (allocated w) (length (heap w)) "_state" = Some VState).
  { unfold slot, allocated. cbn [heap].
    rewrite lookup_app_r by done. rewrite Nat.sub_diag. reflexivity. }
  assert (Husers : slot (allocated w) (length (heap w)) "_users"
                   = Some (VRef (S (length (heap w))))).
  { unfold slot, allocated. cbn [heap].
    rewrite lookup_app_r by done. rewrite Nat.sub_diag. reflexivity. }
  assert (Hdict : heap (allocated w) !! S (length (heap w)) = Some (Dict ∅)).
  { unfold allocated. cbn [heap].
    rewrite lookup_app_r by lia.
    replace (S (length (heap w)) - length (heap w))%nat with 1%nat by lia.
    reflexivity. }
  split; [apply lookup_ge_None_2; lia|].
  split; [rewrite Hs by by_compute; exact Hstate|].
  split.
  { exists (S (length (heap w))).
    split; [rewrite Hs by by_compute; exact Husers|].
    split; [apply lookup_ge_None_2; lia|].
    rewrite Hh by lia. exact Hdict. }
  split.
  { rewrite Hsub. unfold subscribers. rewrite Husers, Hdict. reflexivity. }
  split; [|rewrite Hlog; reflexivity].
  intros l c Hl.
  assert (l < length (heap w))%nat by (eapply lookup_lt_Some; exact Hl).
  rewrite Hh by lia. unfold allocated. cbn [heap].
  apply lookup_app_l_Some. exact Hl.
Qed.

Lemma ScheduledEvent_starts_without_subscribers_witness :
  subscribers (snd (ScheduledEvent scripted voice_payload (voice_world quiet))) 2%nat
    = Some ∅.
Proof.
  assert (H : ScheduledEvent scripted voice_payload (voice_world quiet)
              = (Ok 2%nat, snd (ScheduledEvent scripted voice_payload (voice_world quiet))))
    by (vm_compute; reflexivity).
  destruct (ScheduledEvent_starts_without_subscribers scripted _ _ _ _ H)
    as (_ & _ & _ & Hsub & _).
  exact Hsub.
Defined.

Lemma hydrated_location_set data i g st cr en cid slots o :
  get data "metadata" JNull = JObj o -> json_truthy (JObj o) = true ->
  hydrated data i g st cr en cid slots !! "location"
    = Some (VData (get o "location" JNull)).
Proof.
  intros Hm Ht. unfold hydrated. rewrite Hm, Ht. apply lookup_insert_eq.
Qed.

(** X10.  The [location] of a proxy that construction returned is what the
    payload holds under [metadata]: with a non-empty object there,
    [location] is that object's [location] ([None] when it has none); with
    no [metadata], a null or an empty object, the slot is never assigned
    and reading [location] raises [AttributeError]. *)
Theorem ScheduledEvent_location_follows_metadata {T} (env : Collaborators T)
    data (w w' : World T) s :
  ScheduledEvent env data w = (Ok s, w') ->
  (json_truthy (get data "metadata" JNull) = false ->
     getattr s "location" w' = (Raise (AttributeError "location"), w')) /\
  (forall o, get data "metadata" JNull = JObj o -> json_truthy (JObj o) = true ->
     getattr s "location" w' = (Ok (VData (get o "location" JNull)), w')).
Proof.
  intros H. destruct (ScheduledEvent_inv env _ _ _ _ H) as [-> Hup].
  destruct (_update_inv env _ _ _ _ Hup)
    as (slots & i & g & st & cr & en & cid & c' & Hself & Hlt & _ & _ & _ & _ & _ & ->).
  assert (Hslots : slots !! "location" = None).
  { revert Hself. unfold allocated. cbn [heap].
    rewrite lookup_app_r by done. rewrite Nat.sub_diag.
    intros [= <-]. vm_compute. reflexivity. }
  split.
  - intros Hm. rewrite getattr_at by (exact Hlt || by_compute).
    rewrite hydrated_location by exact Hm. rewrite Hslots. reflexivity.
  - intros o Hm Ht. rewrite getattr_at by (exact Hlt || by_compute).
    rewrite (hydrated_location_set _ _ _ _ _ _ _ _ o Hm Ht). reflexivity.
Qed.

Lemma ScheduledEvent_location_follows_metadata_witness :
  fst (getattr 2%nat "location"
         (snd (ScheduledEvent scripted external_payload (voice_world quiet))))
    = Raise (AttributeError "location").
Proof.
  assert (H : ScheduledEvent scripted external_payload (voice_world quiet)
              = (Ok 2%nat, snd (ScheduledEvent scripted external_payload (voice_world quiet))))
    by (vm_compute; reflexivity).
  destruct (ScheduledEvent_location_follows_metadata scripted _ _ _ _ H) as [Hno _].
  rewrite Hno by (vm_compute; reflexivity). reflexivity.
Defined.

(** ** The alternative constructor and the subscriber cache *)

Section Subscribers.
Context {T : Type}.
Implicit Types (w : World T).

(** What [subscribers] reads: the instance, its [_users] slot and the dict
    the slot refers to. *)
Lemma subscribers_inv w self m :
  subscribers w self = Some m ->
  exists slots d,
    heap w !! self = Some (Instance slots) /\ slots !! "_users" = Some (VRef d) /\
    heap w !! d = Some (Dict m).
Proof.
  unfold subscribers, slot.
  destruct (heap w !! self) as [[slots|]|] eqn:Hs; try discriminate.
  destruct (slots !! "_users") as [[]|] eqn:Hu; try discriminate.
  destruct (heap w !! l) as [[|m']|] eqn:Hd; try discriminate.
  intros [= <-]. eauto.
Qed.

Lemma _add_user_run w self u m :
  subscribers w self = Some m ->
  exists d, heap w !! d = Some (Dict m) /\
    slot w self "_users" = Some (VRef d) /\
    @_add_user T self u w
      = (Ok tt, set_heap w (<[d := Dict (<[user_id u := VUser u]> m)]> (heap w))).
Proof.
  intros H. destruct (subscribers_inv _ _ _ H) as (slots & d & Hs & Hu & Hd).
  exists d. split; [exact Hd|].
  assert (Hslot : slot w self "_users" = Some (VRef d))
    by (unfold slot; rewrite Hs; exact Hu).
  split; [exact Hslot|].
  unfold _add_user. rewrite bind_eq.
  rewrite (getattr_of_slot w self "_users" (VRef d)) by (by_compute || exact Hslot).
  unfold dict_setitem. rewrite Hd. reflexivity.
Qed.

Lemma _pop_user_run w self k m v :
  subscribers w self = Some m -> m !! k = Some v ->
  exists d, heap w !! d = Some (Dict m) /\
    slot w self "_users" = Some (VRef d) /\
    @_pop_user T self k w
      = (Ok tt, set_heap w (<[d := Dict (delete k m)]> (heap w))).
Proof.
  intros H Hk. destruct (subscribers_inv _ _ _ H) as (slots & d & Hs & Hu & Hd).
  exists d. split; [exact Hd|].
  assert (Hslot : slot w self "_users" = Some (VRef d))
    by (unfold slot; rewrite Hs; exact Hu).
  split; [exact Hslot|].
  unfold _pop_user. rewrite bind_eq.
  rewrite (getattr_of_slot w self "_users" (VRef d)) by (by_compute || exact Hslot).
  rewrite bind_eq. unfold dict_pop. rewrite Hd, Hk. reflexivity.
Qed.

(** Writing the dict a proxy refers to changes what [subscribers] reads,
    and nothing else of the proxy. *)
Lemma subscribers_written w self d m m' :
  slot w self "_users" = Some (VRef d) -> heap w !! d = Some (Dict m) ->
  subscribers (set_heap w (<[d := Dict m']> (heap w))) self = Some m'.
Proof.
  intros Hslot Hd.
  assert (Hne : d <> self).
  { intros ->. unfold slot in Hslot. rewrite Hd in Hslot. discriminate. }
  unfold subscribers, slot in *. cbn [heap set_heap].
  rewrite list_lookup_insert_ne by exact Hne.
  destruct (heap w !! self) as [[slots|]|]; try discriminate.
  rewrite Hslot.
  rewrite list_lookup_insert_eq by (eapply lookup_lt_Some; exact Hd).
  reflexivity.
Qed.

End Subscribers.

(** X11.  [_add_user] files the user under its own id, replacing whoever
    was there, and [_pop_user] of that id then returns and takes the entry
    out again; when the id was not subscribed before, the two calls leave
    the world exactly as it was. *)
Theorem _add_user_then__pop_user {T} (w : World T) self u m :
  subscribers w self = Some m ->
  exists w1 w2,
    _add_user self u w = (Ok tt, w1) /\
    subscribers w1 self = Some (<[user_id u := VUser u]> m) /\
    _pop_user self (user_id u) w1 = (Ok tt, w2) /\
    subscribers w2 self = Some (delete (user_id u) m) /\
    (m !! user_id u = None -> w2 = w).
Proof.
  intros H.
  destruct (_add_user_run w self u m H) as (d & Hd & Hslot & Hadd).
  set (w1 := set_heap w (<[d := Dict (<[user_id u := VUser u]> m)]> (heap w))) in *.
  assert (H1 : subscribers w1 self = Some (<[user_id u := VUser u]> m))
    by (apply (subscribers_written w self d m); assumption).
  destruct (_pop_user_run w1 self (user_id u) _ (VUser u) H1 (lookup_insert_eq _ _ _))
    as (d' & Hd' & Hslot' & Hpop).
  assert (Hlt : (d < length (heap w))%nat) by (eapply lookup_lt_Some; exact Hd).
  assert (Hne : d <> self).
  { intros ->. unfold slot in Hslot. rewrite Hd in Hslot. discriminate. }
  assert (d' = d).
  { unfold slot, w1 in Hslot'. cbn [heap set_heap] in Hslot'.
    rewrite list_lookup_insert_ne in Hslot' by exact Hne.
    unfold slot in Hslot. congruence. }
  subst d'.
  exists w1, (set_heap w1 (<[d := Dict (delete (user_id u) (<[user_id u := VUser u]> m))]> (heap w1))).
  split; [exact Hadd|]. split; [exact H1|]. split; [exact Hpop|].
  rewrite delete_insert_eq.
  split.
  - apply (subscribers_written w1 self d (<[user_id u := VUser u]> m));
      [exact Hslot'|exact Hd'].
  - intros Hnone. unfold w1, set_heap. cbn [heap _users_cache remote http_log].
    rewrite list_insert_insert_eq.
    rewrite delete_id by exact Hnone.
    rewrite list_insert_id by exact Hd.
    destruct w; reflexivity.
Qed.

Lemma _add_user_then__pop_user_witness :
  exists w1 w2,
    _add_user 0%nat (user_of 12) (voice_world quiet) = (Ok tt, w1) /\
    _pop_user 0%nat 12 w1 = (Ok tt, w2) /\ w2 = voice_world quiet.
Proof.
  destruct (_add_user_then__pop_user (voice_world quiet) 0%nat (user_of 12)
              {[5 := VUser alice]})
    as (w1 & w2 & Hadd & _ & Hpop & _ & Hback).
  - vm_compute. reflexivity.
  - exists w1, w2. split; [exact Hadd|]. split; [exact Hpop|].
    apply Hback. vm_compute. reflexivity.
Defined.

Section Creation.
Context {T : Type} (env : Collaborators T).
Implicit Types (w : World T).

Lemma from_creation_inv data w v w' :
  from_creation env data w = (Ok v, w') ->
  exists w1,
    ScheduledEvent env data w = (Ok (length (heap w)), w1) /\
    v = VNone /\
    (json_truthy (get data "creator_id" JNull) = false -> w' = w1) /\
    (json_truthy (get data "creator_id" JNull) = true ->
       exists i slots,
         int (get data "creator_id" JNull) = Ok i /\
         heap w1 !! length (heap w) = Some (Instance slots) /\
         w' = set_heap w1
                (<[length (heap w) :=
                     Instance (<["creator" :=
                                   from_option VUser VNone (_users_cache w1 !! i)]>
                                 slots)]> (heap w1))).
Proof.
  unfold from_creation. rewrite bind_eq.
  destruct (ScheduledEvent env data w) as [[s|e] w1] eqn:Hc; [|discriminate].
  destruct (ScheduledEvent_inv env _ _ _ _ Hc) as [-> Hup].
  intros H. exists w1. split; [reflexivity|].
  rewrite bind_eq in H.
  destruct (json_truthy (get data "creator_id" JNull)) eqn:Hj.
  - rewrite bind_eq, (pure_run _ w1 (pure_getattr (length (heap w)) "_state")) in H.
    destruct (fst (getattr (length (heap w)) "_state" w1)); [|discriminate H].
    rewrite bind_eq in H. unfold lift at 1 in H.
    destruct (int (get data "creator_id" JNull)) as [i|] eqn:Hi; [|discriminate H].
    rewrite bind_eq in H. unfold get_user at 1 in H.
    destruct (setattr (length (heap w)) "creator"
                (from_option VUser VNone (_users_cache w1 !! i)) w1)
      as [r w2] eqn:Hset.
    destruct (setattr_spec _ _ _ _ _ _ Hset)
      as [(slots & -> & Hs & _ & ->)|(e & -> & _)]; [|discriminate H].
    injection H as <- <-.
    split; [reflexivity|]. split; [discriminate|].
    intros _. exists i, slots. auto.
  - injection H as <- <-. split; [reflexivity|]. split; [auto|discriminate].
Qed.

End Creation.

(** X12.  [from_creation] builds a proxy and drops it: when it returns, it
    returns [None], and the proxy it built is the new object of the heap.
    With a [creator_id] in the payload, that proxy's [creator] is whoever
    the user cache holds under this id once the payload is hydrated, [None]
    when it holds nobody. *)
Theorem from_creation_returns_None {T} (env : Collaborators T) data
    (w w' : World T) v :
  from_creation env data w = (Ok v, w') ->
  v = VNone /\
  heap w !! length (heap w) = None /\
  is_instance w' (length (heap w)) /\
  (json_truthy (get data "creator_id" JNull) = true ->
     exists i, int (get data "creator_id" JNull) = Ok i /\
       slot w' (length (heap w)) "creator"
         = Some (from_option VUser VNone (_users_cache w' !! i))).
Proof.
  intros H.
  destruct (from_creation_inv env _ _ _ _ H) as (w1 & Hc & -> & Hno & Hyes).
  split; [reflexivity|]. split; [apply lookup_ge_None_2; lia|].
  destruct (ScheduledEvent_inv env _ _ _ _ Hc) as [_ Hup].
  destruct (_update_inv env _ _ _ _ Hup)
    as (slots & i & g & st & cr & en & cid & c' & Hself & Hlt & _ & _ & _ & _ & _ & Hw1).
  assert (Hinst : is_instance w1 (length (heap w))).
  { rewrite Hw1. eexists. unfold at_. cbn [heap].
    apply list_lookup_insert_eq. exact Hlt. }
  destruct (json_truthy (get data "creator_id" JNull)) eqn:Hj.
  - destruct (Hyes eq_refl) as (k & slots' & Hk & Hs' & ->).
    split.
    + eexists. unfold set_heap. cbn [heap].
      apply list_lookup_insert_eq. eapply lookup_lt_Some. exact Hs'.
    + intros _. exists k. split; [exact Hk|].
      rewrite (slot_written w1 _ slots') by exact Hs'. reflexivity.
  - rewrite (Hno eq_refl). split; [exact Hinst|discriminate].
Qed.

Lemma from_creation_returns_None_witness :
  let w := voice_world quiet in
  let data := <["creator_id" := JStr "5"]> voice_payload in
  is_instance (snd (from_creation scripted data w)) (length (heap w)).
Proof.
  intros w data.
  assert (H : from_creation scripted data w
              = (Ok VNone, snd (from_creation scripted data w)))
    by (vm_compute; reflexivity).
  destruct (from_creation_returns_None scripted _ _ _ _ H) as (_ & _ & Hi & _).
  exact Hi.
Defined.

(** ** The paginator against any service *)

Section AnyService.
Context {T : Type} (env : Collaborators T).
Implicit Types (w : World T).

Lemma advance_inv users (pick : list Json -> option Json) state limit w r w' :
  (pick users = None -> users = []) ->
  advance users pick state limit w = (Ok r, w') ->
  w' = w /\
  exists state',
    r = (users, state', (fun l => l - Z.of_nat (length users)) <$> limit) /\
    match pick users with
    | Some u => exists x o, raw_user_id u = Ok x /\ new_Object x = Ok o /\
                            state' = Some o
    | None => state' = state
    end.
Proof.
  intros Hpick. unfold advance.
  destruct (pick users) as [u|] eqn:Hp.
  - unfold bind, lift.
    destruct (raw_user_id u) as [x|] eqn:Hx; [|discriminate].
    destruct (new_Object x) as [o|] eqn:Ho; [|discriminate].
    intros [= <- <-]. split; [reflexivity|]. eauto 8.
  - intros [= <- <-]. split; [reflexivity|]. exists state.
    split; [|reflexivity]. rewrite (Hpick eq_refl).
    destruct limit; simpl; [rewrite Z.sub_0_r|]; reflexivity.
Qed.

(** A strategy that returns made one call, for [retrieve] users through its
    own keyword; it took the batch off the limit and moved the cursor to
    the first record (forward) or the last (backward). *)
Lemma strategy_inv reverse self retrieve state limit w data state' limit' w1 :
  strategy env reverse self retrieve state limit w
    = (Ok (data, state', limit'), w1) ->
  exists g i t',
    http_get_users env g i retrieve false (cursor_of reverse state) (remote w)
      = (Ok data, t') /\
    slot w self "guild_id" = Some g /\ slot w self "id" = Some i /\
    w1 = {| heap := heap w; _users_cache := _users_cache w; remote := t';
            http_log := http_log w ++
              [get_scheduled_event_users g i retrieve false
                 (cursor_of reverse state)] |} /\
    limit' = (fun l => l - Z.of_nat (length data)) <$> limit /\
    match (if reverse then head data else last data) with
    | Some u => exists x o, raw_user_id u = Ok x /\ new_Object x = Ok o /\
                            state' = Some o
    | None => state' = state
    end.
Proof.
  assert (H : forall kw pick,
    (pick = @head Json \/ pick = @last Json) ->
    (getattr self "_state" ;;
     guild_id <- getattr self "guild_id" ;;
     event_id <- getattr self "id" ;;
     users <- call_get_scheduled_event_users env guild_id event_id
                retrieve false kw ;;
     advance users pick state limit) w = (Ok (data, state', limit'), w1) ->
    exists g i t',
      http_get_users env g i retrieve false kw (remote w) = (Ok data, t') /\
      slot w self "guild_id" = Some g /\ slot w self "id" = Some i /\
      w1 = {| heap := heap w; _users_cache := _users_cache w; remote := t';
              http_log := http_log w ++
                [get_scheduled_event_users g i retrieve false kw] |} /\
      limit' = (fun l => l - Z.of_nat (length data)) <$> limit /\
      match pick data with
      | Some u => exists x o, raw_user_id u = Ok x /\ new_Object x = Ok o /\
                              state' = Some o
      | None => state' = state
      end).
  { intros kw pick Hpick.
    rewrite bind_eq, (pure_run _ w (pure_getattr self "_state")).
    destruct (fst (getattr self "_state" w)); [|discriminate].
    rewrite bind_eq.
    destruct (getattr self "guild_id" w) as [[g|] wg] eqn:Hg; [|discriminate].
    assert (Hin1 : "guild_id" ∈ __slots__) by by_compute.
    destruct (getattr_slot _ _ _ _ _ Hin1 Hg) as [-> Hsg].
    rewrite bind_eq.
    destruct (getattr self "id" w) as [[i|] wi] eqn:Hi; [|discriminate].
    assert (Hin2 : "id" ∈ __slots__) by by_compute.
    destruct (getattr_slot _ _ _ _ _ Hin2 Hi) as [-> Hsi].
    rewrite bind_eq. unfold call_get_scheduled_event_users.
    destruct (http_get_users env g i retrieve false kw (remote w))
      as [[b|e] t'] eqn:Hhttp; [|discriminate].
    intros Hadv.
    apply advance_inv in Hadv as [-> (st' & Hr & Hst)].
    2:{ destruct Hpick as [-> | ->]; intros Hn.
        - destruct b; [reflexivity|discriminate].
        - apply last_None in Hn. exact Hn. }
    injection Hr as <- <- <-.
    exists g, i, t'. repeat split; auto. }
  unfold strategy, cursor_of.
  destruct reverse; unfold _after_strategy, _before_strategy; apply H; auto.
Qed.

(** A round yields at most one user per record of its batch. *)
Lemma emit_length self predicate data w :
  (length (fst (fst (emit self predicate data w))) <= length data)%nat.
Proof.
  revert w. induction data as [|raw rest IH]; intros w; simpl; [lia|].
  destruct (match predicate with
            | Some p => apply_predicate p raw
            | None => Ok true
            end) as [[|]|e]; [|specialize (IH w); lia|simpl; lia].
  destruct ((getattr self "_state" ;;
             user <- lift (subscript raw "user") ;; store_user user) w)
    as [[v|e] w1]; [|simpl; lia].
  specialize (IH w1).
  destruct (emit self predicate rest w1) as [[ys r] w2]. simpl in *. lia.
Qed.

Lemma asks_mono hi hi' r : hi <= hi' -> asks hi r -> asks hi' r.
Proof. destruct r; simpl; try tauto. intros ? [? ?]. split; [lia|assumption]. Qed.

Lemma rounds_step l n :
  1 <= l -> 100 <= n -> 1 + rounds (l - n) <= rounds l.
Proof. unfold rounds. intros Hl Hn. Z.div_mod_to_equations. lia. Qed.

Lemma rounds_pos l : 1 <= l -> 1 <= rounds l.
Proof. unfold rounds. intros Hl. Z.div_mod_to_equations. lia. Qed.

Lemma rounds_zero : rounds 0 = 0.
Proof. reflexivity. Qed.

(** Whatever the service answers, every request of a traversal asks for
    between one user and the batch size; a traversal with a limit makes no
    more calls than the limit has rounds, ends within one round more, and
    yields no more users than the limit when the service sends no more
    than it is asked for. *)
Lemma users_loop_bounded fuel self reverse predicate state limit w :
  let '((ys, r), w') :=
    users_loop env fuel self reverse predicate state limit w in
  exists calls,
    http_log w' = http_log w ++ calls /\
    Forall (asks (batch_size limit)) calls /\
    forall l, limit = Some l ->
      Z.of_nat (length calls) <= rounds l /\
      (rounds l < Z.of_nat fuel -> r <> OutOfFuel) /\
      (honours_limit env -> Z.of_nat (length ys) <= Z.max 0 l).
Proof.
  revert state limit w.
  induction fuel as [|fuel IH]; intros state limit w.
  { simpl. exists []. rewrite app_nil_r. split; [reflexivity|].
    split; [constructor|]. intros l _. unfold rounds. simpl. lia. }
  rewrite users_loop_S. cbv zeta. fold (batch_size limit).
  destruct (batch_size limit <? 1) eqn:Hsmall.
  { exists []. rewrite app_nil_r. split; [reflexivity|].
    split; [constructor|]. intros l _. unfold rounds. simpl.
    split; [lia|]. split; [discriminate|lia]. }
  apply Z.ltb_ge in Hsmall.
  assert (Hl1 : forall l, limit = Some l -> 1 <= l /\ batch_size limit <= l).
  { intros l ->. unfold batch_size in *. lia. }
  assert (Hask : forall g i c,
            asks (batch_size limit)
              (get_scheduled_event_users g i (batch_size limit) false c)).
  { intros. simpl. split; [lia|reflexivity]. }
  destruct (strategy env reverse self (batch_size limit) state limit w)
    as [[[[data state'] limit']|e] w1] eqn:Hs.
  2:{ pose proof (strategy_effect env reverse self (batch_size limit) state limit w)
        as He.
      cbv zeta in He. rewrite Hs in He. cbn [fst snd] in He.
      destruct He as (_ & _ & [(Hlog & _)|(g & i & Hlog)]).
      - exists []. rewrite app_nil_r. split; [exact Hlog|].
        split; [constructor|]. intros l Hl. unfold rounds. simpl.
        split; [lia|]. split; [discriminate|lia].
      - eexists. split; [exact Hlog|]. split; [constructor; [apply Hask|constructor]|].
        intros l Hl. destruct (Hl1 l Hl) as [Hl' _].
        pose proof (rounds_pos l Hl'). simpl.
        split; [lia|]. split; [discriminate|lia]. }
  destruct (strategy_inv _ _ _ _ _ _ _ _ _ _ Hs)
    as (g & i & t' & Hhttp & _ & _ & -> & -> & _).
  set (w1 := {| heap := heap w; _users_cache := _users_cache w; remote := t';
                http_log := http_log w ++ _ |}).
  set (data' := if reverse then rev data else data).
  assert (Hlen' : length data' = length data).
  { subst data'. destruct reverse; [apply length_rev|reflexivity]. }
  pose proof (emit_effect self predicate data' w1) as He.
  pose proof (emit_length self predicate data' w1) as Hys.
  destruct (emit self predicate data' w1) as [[ys oe] w2].
  destruct He as (_ & Hlog2 & _). cbn [fst] in Hys. rewrite Hlen' in Hys.
  destruct oe as [e|].
  { eexists. split; [exact Hlog2|]. split; [constructor; [apply Hask|constructor]|].
    intros l Hl. destruct (Hl1 l Hl) as [Hl' Hb].
    pose proof (rounds_pos l Hl'). simpl.
    split; [lia|]. split; [discriminate|].
    intros Hhon. specialize (Hhon _ _ _ _ _ _ _ _ Hsmall Hhttp). lia. }
  set (limit'' := if (Z.of_nat (length data) <? 100)%Z then Some 0
                  else (fun l => l - Z.of_nat (length data)) <$> limit).
  specialize (IH state' limit'' w2).
  destruct (users_loop env fuel self reverse predicate state' limit'' w2)
    as [[ys' r] w3].
  destruct IH as (calls3 & Hlog3 & Hasks3 & Hlim3).
  assert (Hmono : batch_size limit'' <= batch_size limit).
  { subst limit''. unfold batch_size in *.
    destruct (Z.of_nat (length data) <? 100); [lia|].
    destruct limit; simpl; lia. }
  eexists (_ :: calls3). rewrite Hlog3, Hlog2. unfold w1 at 1. cbn [http_log].
  rewrite <- app_assoc. split; [reflexivity|].
  split.
  { constructor; [apply Hask|].
    eapply Forall_impl; [exact Hasks3|]. intros r0. apply asks_mono. exact Hmono. }
  intros l ->. destruct (Hl1 l eq_refl) as [Hl' Hb].
  subst limit''. cbn [fmap option_fmap option_map] in Hlim3.
  destruct (Z.of_nat (length data) <? 100) eqn:Hshort.
  - destruct (Hlim3 0 eq_refl) as (Hc & Hf & Hy).
    rewrite rounds_zero in Hc, Hf. pose proof (rounds_pos l Hl').
    cbn [length]. rewrite length_app.
    split; [lia|]. split; [intros Hfuel; apply Hf; lia|].
    intros Hhon. specialize (Hy Hhon).
    specialize (Hhon _ _ _ _ _ _ _ _ Hsmall Hhttp). lia.
  - apply Z.ltb_ge in Hshort.
    destruct (Hlim3 _ eq_refl) as (Hc & Hf & Hy).
    pose proof (rounds_step l _ Hl' Hshort).
    cbn [length]. rewrite length_app.
    split; [lia|]. split; [intros Hfuel; apply Hf; lia|].
    intros Hhon. specialize (Hy Hhon).
    specialize (Hhon _ _ _ _ _ _ _ _ Hsmall Hhttp). lia.
Qed.

(** With an explicit limit the traversal starts from it. *)
Lemma users_limited self l before after oldest_first fuel w :
  users env self (Some l) before after oldest_first fuel w
    = users_loop env fuel self (direction oldest_first after)
        (choose_predicate (direction oldest_first after) before after)
        (if direction oldest_first after then after else before) (Some l) w.
Proof. reflexivity. Qed.

End AnyService.

(** X13.  Whatever the service answers and however long the traversal is
    consumed, [users] writes nothing to the heap, and every call it makes
    is a batch request for between 1 and 100 users, members not asked for;
    with a limit given, no request asks for more users than the limit. *)
Theorem users_asks_for_batches {T} (env : Collaborators T) self limit
    before after oldest_first fuel (w : World T) :
  let '((ys, r), w') := users env self limit before after oldest_first fuel w in
  heap w' = heap w /\
  exists calls,
    http_log w' = http_log w ++ calls /\ Forall (asks 100) calls /\
    forall l, limit = Some l -> Forall (asks l) calls.
Proof.
  pose proof (users_effect env self limit before after oldest_first fuel w) as He.
  cbv zeta in He.
  assert (Hloop : forall limit0,
    let '((ys, r), w') :=
      users_loop env fuel self (direction oldest_first after)
        (choose_predicate (direction oldest_first after) before after)
        (if direction oldest_first after then after else before) limit0 w in
    exists calls,
      http_log w' = http_log w ++ calls /\ Forall (asks 100) calls /\
      forall l, limit0 = Some l -> Forall (asks l) calls).
  { intros limit0.
    pose proof (users_loop_bounded env fuel self (direction oldest_first after)
                  (choose_predicate (direction oldest_first after) before after)
                  (if direction oldest_first after then after else before)
                  limit0 w) as Hb.
    destruct (users_loop env fuel self _ _ _ limit0 w) as [[ys r] w'].
    destruct Hb as (calls & Hlog & Hasks & _).
    exists calls. split; [exact Hlog|].
    split; [|intros l ->]; (eapply Forall_impl; [exact Hasks|]);
      intros r0; apply asks_mono; unfold batch_size; lia. }
  destruct limit as [l|].
  - rewrite users_limited in *. specialize (Hloop (Some l)).
    destruct (users_loop env fuel self _ _ _ (Some l) w) as [[ys r] w'].
    destruct He as (Hh & _). split; [exact Hh|exact Hloop].
  - unfold users in *.
    set (start := (user_count <- getattr self "user_count" ;;
                   lift (default_limit user_count))) in *.
    assert (Hstart : pure start) by (subst start; pure_steps).
    rewrite (pure_run _ w Hstart) in *.
    destruct (fst (start w)) as [limit0|e].
    + specialize (Hloop limit0).
      destruct (users_loop env fuel self _ _ _ limit0 w) as [[ys r] w'].
      destruct He as (Hh & _). split; [exact Hh|].
      destruct Hloop as (calls & Hlog & Hasks & _).
      exists calls. split; [exact Hlog|]. split; [exact Hasks|discriminate].
    + split; [reflexivity|]. exists []. rewrite app_nil_r.
      split; [reflexivity|]. split; [constructor|intros; constructor].
Qed.

(** X14.  A traversal with a limit ends by itself, whatever the service
    answers: consumed with a budget of more rounds than the limit has, it
    does not run out of budget, and it has made no more calls than the
    limit has rounds (one per hundred users, started ones included; none
    for a limit below 1). *)
Theorem users_with_a_limit_ends {T} (env : Collaborators T) self l
    before after oldest_first fuel (w : World T) :
  rounds l < Z.of_nat fuel ->
  let '((ys, r), w') :=
    users env self (Some l) before after oldest_first fuel w in
  r <> OutOfFuel /\
  exists calls,
    http_log w' = http_log w ++ calls /\ Z.of_nat (length calls) <= rounds l.
Proof.
  intros Hfuel. rewrite users_limited.
  pose proof (users_loop_bounded env fuel self (direction oldest_first after)
                (choose_predicate (direction oldest_first after) before after)
                (if direction oldest_first after then after else before)
                (Some l) w) as Hb.
  destruct (users_loop env fuel self _ _ _ (Some l) w) as [[ys r] w'].
  destruct Hb as (calls & Hlog & _ & Hlim).
  destruct (Hlim l eq_refl) as (Hc & Hf & _).
  split; [apply Hf; exact Hfuel|]. exists calls. auto.
Qed.

Lemma users_with_a_limit_ends_witness :
  snd (fst (users scripted 0%nat (Some 150) None None None 3%nat
              (voice_world two_batches))) <> OutOfFuel.
Proof.
  pose proof (users_with_a_limit_ends scripted 0%nat 150 None None None 3%nat
                (voice_world two_batches) ltac:(vm_compute; reflexivity)) as H.
  destruct (users scripted 0%nat (Some 150) None None None 3%nat
              (voice_world two_batches)) as [[ys r] w'].
  destruct H as [H _]. exact H.
Defined.

(** X15.  Against a service that sends no more records than a request
    asks for, a traversal with a limit yields no more users than the
    limit, however long it is consumed. *)
Theorem users_yields_at_most_the_limit {T} (env : Collaborators T) self l
    before after oldest_first fuel (w : World T) :
  honours_limit env ->
  let '((ys, r), w') :=
    users env self (Some l) before after oldest_first fuel w in
  Z.of_nat (length ys) <= Z.max 0 l.
Proof.
  intros Hhon. rewrite users_limited.
  pose proof (users_loop_bounded env fuel self (direction oldest_first after)
                (choose_predicate (direction oldest_first after) before after)
                (if direction oldest_first after then after else before)
                (Some l) w) as Hb.
  destruct (users_loop env fuel self _ _ _ (Some l) w) as [[ys r] w'].
  destruct Hb as (calls & _ & _ & Hlim).
  destruct (Hlim l eq_refl) as (_ & _ & Hy). apply Hy. exact Hhon.
Qed.


Lemma newest_first_honours_limit ids : honours_limit (newest_first ids).
Proof.
  intros g i n wm c t b t' Hn. simpl. intros [= <- _].
  rewrite length_fmap. unfold page.
  destruct c; [|rewrite length_rev]; rewrite length_take; lia.
Qed.

Lemma users_yields_at_most_the_limit_witness :
  Z.of_nat (length (fst (fst (users (newest_first roster) 0%nat (Some 120)
                                 None None None 5%nat roster_world)))) <= 120.
Proof.
  pose proof (users_yields_at_most_the_limit (newest_first roster) 0%nat 120
                None None None 5%nat roster_world
                (newest_first_honours_limit roster)) as H.
  destruct (users (newest_first roster) 0%nat (Some 120) None None None 5%nat
              roster_world) as [[ys r] w'].
  exact H.
Defined.

(** ** The paginator against a service that answers newest first *)

Section Order.

Lemma filter_filter_implied (f g : Z -> bool) l :
  (forall x, f x = true -> g x = true) ->
  List.filter f (List.filter g l) = List.filter f l.
Proof.
  intros H. induction l as [|x l IH]; simpl; [reflexivity|].
  destruct (g x) eqn:Hg; simpl.
  - rewrite IH. reflexivity.
  - destruct (f x) eqn:Hf; [|exact IH]. rewrite (H x Hf) in Hg. discriminate.
Qed.

Lemma filter_all (f : Z -> bool) l :
  Forall (fun x => f x = true) l -> List.filter f l = l.
Proof.
  induction 1 as [|x l Hx _ IH]; simpl; [reflexivity|]. rewrite Hx, IH. reflexivity.
Qed.

Lemma filter_none (f : Z -> bool) l :
  Forall (fun x => f x = false) l -> List.filter f l = [].
Proof.
  induction 1 as [|x l Hx _ IH]; simpl; [reflexivity|]. rewrite Hx, IH. reflexivity.
Qed.

Lemma StronglySorted_filter (R : Z -> Z -> Prop) (f : Z -> bool) l :
  StronglySorted R l -> StronglySorted R (List.filter f l).
Proof.
  induction 1 as [|x l _ IH Hx]; simpl; [constructor|].
  destruct (f x); [|exact IH]. constructor; [exact IH|].
  rewrite Forall_forall in *. intros y Hy.
  apply Hx. apply list_elem_of_In. apply list_elem_of_In in Hy.
  apply List.filter_In in Hy. tauto.
Qed.

Lemma lined_sorted reverse ids :
  newest_first_order ids ->
  StronglySorted (fun x y => ahead reverse x y = true) (lined reverse ids).
Proof.
  unfold newest_first_order, lined, ahead. intros H. destruct reverse.
  - induction H as [|x l _ IH Hx]; simpl; [constructor|].
    apply StronglySorted_app_2; [|exact IH|repeat constructor].
    intros x1 x2 H1 H2. apply list_elem_of_singleton in H2 as ->.
    rewrite Forall_forall in Hx. apply Z.ltb_lt. apply Hx.
    apply list_elem_of_In in H1. apply List.in_rev in H1.
    apply list_elem_of_In. exact H1.
  - induction H as [|x l _ IH Hx]; constructor; [exact IH|].
    eapply Forall_impl; [exact Hx|]. intros y Hy. apply Z.ltb_lt. exact Hy.
Qed.

Lemma beyond_lined reverse c ids :
  beyond reverse c ids = List.filter (past reverse c) (lined reverse ids).
Proof.
  unfold beyond, lined, past, ahead, above, below.
  destruct reverse; [rewrite filter_rev|]; reflexivity.
Qed.

(** Past the last record of a batch lies what the batch left. *)
Lemma beyond_last reverse c ids k x :
  newest_first_order ids ->
  last (take k (beyond reverse c ids)) = Some x ->
  beyond reverse (Some x) ids = drop k (beyond reverse c ids).
Proof.
  intros Hs Hlast. rewrite !beyond_lined in *.
  set (L := lined reverse ids) in *.
  pose proof (lined_sorted reverse ids Hs) as HL. fold L in HL.
  set (R := List.filter (past reverse c) L) in *.
  assert (HR : StronglySorted (fun x y => ahead reverse x y = true) R)
    by (apply StronglySorted_filter; exact HL).
  apply last_Some in Hlast as [t Ht].
  assert (HRt : R = t ++ x :: drop k R).
  { rewrite <- (take_drop k R) at 1. rewrite Ht, <- app_assoc. reflexivity. }
  assert (Hx : past reverse c x = true).
  { assert (Hin : List.In x R).
    { rewrite HRt. apply List.in_or_app. right. left. reflexivity. }
    apply List.filter_In in Hin. tauto. }
  assert (Himp : forall y, past reverse (Some x) y = true -> past reverse c y = true).
  { intros y. unfold past in *. destruct c as [b|]; [|reflexivity].
    unfold ahead in *. destruct reverse; rewrite !Z.ltb_lt in *; lia. }
  rewrite <- (filter_filter_implied _ _ L Himp). fold R.
  rewrite HRt at 1.
  rewrite HRt in HR.
  rewrite List.filter_app. simpl.
  rewrite filter_none, filter_all.
  - replace (ahead reverse x x) with false; [reflexivity|].
    unfold ahead. destruct reverse; symmetry; apply Z.ltb_irrefl.
  - apply StronglySorted_app_1_r in HR. inversion HR; subst. assumption.
  - rewrite Forall_forall. intros y Hy.
    assert (Hyx : ahead reverse y x = true).
    { eapply (StronglySorted_app_1_elem_of _ _ _ y x HR); [exact Hy|].
      apply list_elem_of_here. }
    simpl. unfold ahead in *. destruct reverse; rewrite Z.ltb_lt in Hyx;
      apply Z.ltb_ge; lia.
Qed.

End Order.

Section NewestFirst.
Context {T : Type} (env : Collaborators T).
Implicit Types (w : World T).

Lemma last_fmap {A B} (f : A -> B) (l : list A) : last (f <$> l) = f <$> last l.
Proof.
  destruct (last l) as [x|] eqn:Hl.
  - apply last_Some in Hl as [t ->]. rewrite fmap_app. simpl. apply last_snoc.
  - apply last_None in Hl as ->. reflexivity.
Qed.

Lemma head_rev {A} (l : list A) : head (rev l) = last l.
Proof.
  destruct (last l) as [x|] eqn:Hl.
  - apply last_Some in Hl as [t ->]. rewrite rev_app_distr. reflexivity.
  - apply last_None in Hl as ->. reflexivity.
Qed.

Lemma fmap_rev {A B} (f : A -> B) (l : list A) : f <$> rev l = rev (f <$> l).
Proof.
  induction l as [|x l IH]; simpl; [reflexivity|].
  rewrite fmap_app, IH. reflexivity.
Qed.

Lemma head_fmap {A B} (f : A -> B) (l : list A) : head (f <$> l) = f <$> head l.
Proof. destruct l; reflexivity. Qed.

Lemma subscript_subscriber i :
  subscript (subscriber i) "user" = Ok (JObj {["id" := JInt i]}).
Proof. unfold subscriber, subscript, getitem. rewrite lookup_singleton_eq. reflexivity. Qed.

Lemma raw_user_id_subscriber i : raw_user_id (subscriber i) = Ok (JInt i).
Proof.
  unfold raw_user_id. rewrite subscript_subscriber.
  unfold subscript, getitem. rewrite lookup_singleton_eq. reflexivity.
Qed.

Lemma slot_heap w w' self name :
  heap w' = heap w -> slot w' self name = slot w self name.
Proof. intros H. unfold slot. rewrite H. reflexivity. Qed.

Lemma emit_cons self raw rest w :
  emit (T := T) self None (raw :: rest) w =
    match (getattr self "_state" ;;
           user <- lift (subscript raw "user") ;;
           store_user user) w with
    | (Raise e, w') => (([], Some e), w')
    | (Ok user, w') =>
        let '((ys, r), w'') := emit self None rest w' in
        ((user :: ys, r), w'')
    end.
Proof. reflexivity. Qed.

(** The records of a batch are yielded as the users of their ids, in the
    order of the batch. *)
Lemma emit_subscribers self l w st :
  slot w self "_state" = Some st -> cache_wf w ->
  exists ys w',
    emit self None (subscriber <$> l) w = ((ys, None), w') /\
    Forall2 is_user l ys /\ heap w' = heap w /\ remote w' = remote w /\
    http_log w' = http_log w /\ cache_wf w'.
Proof.
  revert w. induction l as [|i l IH]; intros w Hst Hwf.
  { exists [], w. repeat split; auto. }
  pose proof (store_user_effect (JObj {["id" := JInt i]}) w) as He.
  cbv zeta in He. destruct He as (Hh & Hl & Hr & Hwf1 & Hv).
  destruct (store_user_ok (T := T) {["id" := JInt i]} (JInt i) i w
              (lookup_singleton_eq _ _) eq_refl) as (v & w1 & Hstore & _).
  rewrite Hstore in *. cbn [fst snd] in *.
  destruct (Hv v eq_refl Hwf) as (u & o & x & -> & Ho & Hx & Hint).
  injection Ho as <-. rewrite lookup_singleton_eq in Hx. injection Hx as <-.
  injection Hint as Hint.
  destruct (IH w1) as (ys & w' & Hemit & Hys & Hh' & Hr' & Hl' & Hwf');
    [rewrite (slot_heap w w1) by exact Hh; exact Hst|apply Hwf1; exact Hwf|].
  exists (VUser u :: ys), w'.
  change (subscriber <$> i :: l) with (subscriber i :: (subscriber <$> l)).
  rewrite emit_cons, bind_eq.
  rewrite (getattr_of_slot w self "_state" st) by (by_compute || exact Hst).
  unfold bind at 1, lift at 1.
  rewrite subscript_subscriber, Hstore, Hemit.
  split; [reflexivity|]. split.
  { constructor; [|exact Hys]. exists u. split; [reflexivity|]. lia. }
  split; [congruence|]. split; [congruence|]. split; [congruence|exact Hwf'].
Qed.

(** One call to a strategy against the service. *)
Lemma strategy_newest_first reverse self n state limit w st g i ids :
  answers_newest_first env ids -> 1 <= n ->
  slot w self "_state" = Some st -> slot w self "guild_id" = Some g ->
  slot w self "id" = Some i ->
  let batch := take (Z.to_nat n) (beyond reverse (oid <$> state) ids) in
  exists t',
    strategy env reverse self n state limit w
    = (Ok (subscriber <$> (if reverse then rev batch else batch),
           match last batch with
           | Some x => Some {| oid := x |}
           | None => state
           end,
           (fun l => l - Z.of_nat (length batch)) <$> limit),
       {| heap := heap w; _users_cache := _users_cache w; remote := t';
          http_log := http_log w ++
            [get_scheduled_event_users g i n false (cursor_of reverse state)] |}).
Proof.
  intros Hans Hn Hst Hg Hi batch.
  pose proof (Hans g i n (cursor_of reverse state) (remote w) Hn) as Hhttp.
  destruct (http_get_users env g i n false (cursor_of reverse state) (remote w))
    as [r t'] eqn:Hcall.
  cbn [fst] in Hhttp. subst r. exists t'.
  assert (Hadv : forall (pick : list Json -> option Json) data w1,
            pick data = subscriber <$> last batch ->
            length data = length batch ->
            advance (T := T) data pick state limit w1
            = (Ok (data,
                   match last batch with
                   | Some x => Some {| oid := x |}
                   | None => state
                   end,
                   (fun l => l - Z.of_nat (length batch)) <$> limit), w1)).
  { intros pick data w1 Hpick Hlen. unfold advance. rewrite Hpick.
    destruct (last batch) as [x|] eqn:Hlast; simpl.
    - unfold bind, lift. rewrite raw_user_id_subscriber. simpl.
      rewrite Hlen. reflexivity.
    - apply last_None in Hlast. rewrite Hlast in *. simpl in *.
      destruct limit; simpl; [rewrite Z.sub_0_r|]; reflexivity. }
  unfold strategy, cursor_of in *.
  destruct reverse; unfold _after_strategy, _before_strategy;
    rewrite bind_eq, (getattr_of_slot w self "_state" st) by (by_compute || done);
    rewrite bind_eq, (getattr_of_slot w self "guild_id" g) by (by_compute || done);
    rewrite bind_eq, (getattr_of_slot w self "id" i) by (by_compute || done);
    rewrite bind_eq; unfold call_get_scheduled_event_users; rewrite Hcall;
    unfold page; fold batch; apply Hadv.
  - rewrite head_fmap, head_rev. reflexivity.
  - rewrite length_fmap, length_rev. reflexivity.
  - apply last_fmap.
  - apply length_fmap.
Qed.

Lemma cut_short limit (R : list Z) :
  1 <= batch_size limit ->
  Z.of_nat (length (take (Z.to_nat (batch_size limit)) R)) < 100 ->
  cut limit R = take (Z.to_nat (batch_size limit)) R.
Proof.
  unfold batch_size, cut. intros Hn. rewrite length_take. intros Hlen.
  destruct limit as [l|].
  - destruct (Z.le_gt_cases l 100) as [Hle|Hgt].
    + rewrite Z.min_l by lia. reflexivity.
    + rewrite Z.min_r in * by lia.
      rewrite !take_ge by lia. reflexivity.
  - rewrite Z.min_r in * by lia. rewrite take_ge by lia. reflexivity.
Qed.

Lemma cut_full limit (R : list Z) :
  100 <= Z.of_nat (length (take (Z.to_nat (batch_size limit)) R)) ->
  batch_size limit = 100 /\
  length (take (Z.to_nat (batch_size limit)) R) = 100%nat /\
  cut limit R
    = take 100 R ++ cut ((fun l => l - Z.of_nat 100) <$> limit) (drop 100 R).
Proof.
  unfold batch_size, cut. rewrite length_take. intros Hlen.
  assert (Hn : Z.min (match limit with None => 100 | Some l => l end) 100 = 100)
    by lia.
  split; [exact Hn|]. split; [lia|].
  destruct limit as [l|]; simpl.
  - rewrite take_take_drop. f_equal. lia.
  - rewrite take_drop. reflexivity.
Qed.

(** Against the service, whose answers the code takes to be newest first,
    the loop yields the subscribers beyond the cursor one by one, in the
    order of the traversal, as far as the limit goes. *)
Lemma users_loop_newest_first ids self st g i reverse :
  answers_newest_first env ids -> newest_first_order ids ->
  forall fuel state limit w,
    slot w self "_state" = Some st -> slot w self "guild_id" = Some g ->
    slot w self "id" = Some i -> cache_wf w ->
    (length (beyond reverse (oid <$> state) ids) / 100 + 2 <= fuel)%nat ->
    exists ys w',
      users_loop env fuel self reverse None state limit w
        = ((ys, Exhausted), w') /\
      Forall2 is_user (cut limit (beyond reverse (oid <$> state) ids)) ys.
Proof.
  intros Hans Hsorted.
  induction fuel as [|fuel IH]; intros state limit w Hst Hg Hi Hwf Hfuel; [lia|].
  set (R := beyond reverse (oid <$> state) ids) in *.
  rewrite users_loop_S. cbv zeta. fold (batch_size limit).
  destruct (batch_size limit <? 1) eqn:Hsmall.
  { exists [], w. split; [reflexivity|].
    apply Z.ltb_lt in Hsmall. unfold batch_size, cut in *.
    destruct limit as [l|]; [|lia].
    replace (Z.to_nat l) with 0%nat by lia. constructor. }
  apply Z.ltb_ge in Hsmall.
  destruct (strategy_newest_first reverse self (batch_size limit) state limit w
              st g i ids Hans Hsmall Hst Hg Hi) as (t' & Hs).
  cbv zeta in Hs. fold R in Hs. rewrite Hs. clear Hs.
  set (batch := take (Z.to_nat (batch_size limit)) R) in *.
  set (w1 := {| heap := heap w; _users_cache := _users_cache w; remote := t';
                http_log := http_log w ++ _ |}).
  assert (Hdata : (if reverse
                   then rev (subscriber <$> (if reverse then rev batch else batch))
                   else subscriber <$> (if reverse then rev batch else batch))
                  = subscriber <$> batch).
  { destruct reverse; [|reflexivity]. rewrite fmap_rev, rev_involutive. reflexivity. }
  rewrite Hdata.
  assert (Hlen : length (subscriber <$> (if reverse then rev batch else batch))
                 = length batch).
  { rewrite length_fmap. destruct reverse; [apply length_rev|reflexivity]. }
  rewrite Hlen.
  destruct (emit_subscribers self batch w1 st Hst Hwf)
    as (ys & w2 & Hemit & Hys & Hh2 & _ & _ & Hwf2).
  rewrite Hemit.
  assert (Hslot : forall name, slot w2 self name = slot w self name).
  { intros name. apply slot_heap. exact Hh2. }
  destruct (Z.of_nat (length batch) <? 100) eqn:Hshort.
  - apply Z.ltb_lt in Hshort.
    destruct fuel as [|fuel]; [lia|].
    rewrite users_loop_S. cbv zeta.
    exists (ys ++ []), w2. split; [reflexivity|].
    rewrite app_nil_r. unfold batch in *.
    rewrite (cut_short limit R Hsmall Hshort). exact Hys.
  - apply Z.ltb_ge in Hshort.
    destruct (cut_full limit R Hshort) as (Hn & Hfull & Hcut).
    fold batch in Hfull. rewrite Hfull.
    assert (Hbatch : batch = take 100 R).
    { unfold batch. rewrite Hn. reflexivity. }
    destruct (last batch) as [x|] eqn:Hlast.
    2:{ apply last_None in Hlast. rewrite Hlast in Hfull. discriminate. }
    rewrite Hbatch in Hlast.
    pose proof (beyond_last reverse (oid <$> state) ids 100 x Hsorted Hlast) as Hnext.
    fold R in Hnext.
    destruct (IH (Some {| oid := x |})
                ((fun l => l - Z.of_nat 100) <$> limit) w2)
      as (ys' & w3 & Hloop & Hys'); try (rewrite Hslot; assumption); [exact Hwf2| |].
    { cbn [fmap option_fmap option_map oid]. rewrite Hnext, length_drop.
      assert (100 <= length R)%nat.
      { rewrite Hbatch, length_take in Hfull. lia. }
      assert (Hdiv : (length R / 100 = (length R - 100) / 100 + 1)%nat).
      { rewrite <- Nat.div_add by lia. f_equal. lia. }
      rewrite Hdiv in Hfuel. lia. }
    rewrite Hloop. exists (ys ++ ys'), w3. split; [reflexivity|].
    rewrite Hcut. apply Forall2_app; [rewrite <- Hbatch; exact Hys|].
    cbn [fmap option_fmap option_map oid] in Hys'. rewrite Hnext in Hys'.
    exact Hys'.
Qed.

End NewestFirst.

(** X16.  Against a service that answers newest first (what the cursors of
    the two strategies take for granted), and with no client-side filter,
    a traversal consumed with enough budget ends by itself having yielded
    the subscribers beyond the boundary given, each once and in the order
    of the traversal: newest first backward, oldest first forward.  It
    yields all of them when there is no limit, and the first [l] of them
    under a limit [l]; with no limit given, the proxy's [user_count] is
    the limit unless it is 0. *)
Theorem users_visits_every_subscriber_once {T} (env : Collaborators T)
    (ids : list Z) (w : World T) self limit before after oldest_first fuel
    st g i uc dflt :
  answers_newest_first env ids -> newest_first_order ids ->
  slot w self "_state" = Some st -> slot w self "guild_id" = Some g ->
  slot w self "id" = Some i -> slot w self "user_count" = Some uc ->
  default_limit uc = Ok dflt -> cache_wf w ->
  let reverse := direction oldest_first after in
  let coming := beyond reverse (oid <$> (if reverse then after else before)) ids in
  choose_predicate reverse before after = None ->
  (length coming / 100 + 2 <= fuel)%nat ->
  exists ys w',
    users env self limit before after oldest_first fuel w = ((ys, Exhausted), w') /\
    Forall2 is_user
      (cut (match limit with Some l => Some l | None => dflt end) coming) ys.
Proof.
  intros Hans Hsorted Hst Hg Hi Huc Hdflt Hwf reverse coming Hpred Hfuel.
  destruct (users_loop_newest_first env ids self st g i reverse Hans Hsorted
              fuel (if reverse then after else before)
              (match limit with Some l => Some l | None => dflt end) w
              Hst Hg Hi Hwf Hfuel) as (ys & w' & Hloop & Hys).
  exists ys, w'. split; [|exact Hys].
  unfold users. fold reverse. rewrite Hpred.
  destruct limit as [l|]; [exact Hloop|].
  rewrite bind_eq.
  rewrite (getattr_of_slot w self "user_count" uc) by (by_compute || exact Huc).
  unfold lift. rewrite Hdflt. exact Hloop.
Qed.

Lemma roster_newest_first : newest_first_order roster.
Proof. unfold newest_first_order. by_compute. Qed.

Lemma users_visits_every_subscriber_once_witness :
  exists ys w',
    users (newest_first roster) 0%nat None None (Some OLDEST_OBJECT) None 3%nat
      roster_world = ((ys, Exhausted), w') /\
    Forall2 is_user (seqZ 1 137) ys.
Proof.
  apply (users_visits_every_subscriber_once (newest_first roster) roster
           roster_world 0%nat None None (Some OLDEST_OBJECT) None 3%nat
           VState (VData (JInt 20)) (VData (JInt 10)) (VData (JInt 0)) None).
  - intros g i n c t Hn. reflexivity.
  - exact roster_newest_first.
  - vm_compute. reflexivity.
  - vm_compute. reflexivity.
  - vm_compute. reflexivity.
  - vm_compute. reflexivity.
  - vm_compute. reflexivity.
  - intros k u H. vm_compute in H. discriminate H.
  - vm_compute. reflexivity.
  - vm_compute. lia.
Defined.
